(** * Workspace initialiser of gcp-kubernetes: [scripts/init.py]

    A shallow embedding of [ProjectInitializer] and of the launcher's use
    of it.  The script is a sequence of external effects (git and ssh
    subprocesses, a few filesystem queries, progress lines on stdout, one
    semaphore); the embedding keeps every effect as a node of a finite
    program tree, so that a method of the class becomes a tree, [try] /
    [except] and [async with] become tree transformers, and a run against
    an environment yields the list of effects that took place together
    with the value returned or the exception raised.

    The first part holds the definitions: the program trees of the
    script, their interpretation, the vocabulary for speaking about traces,
    the interleaving of the tasks under the semaphore, and concrete
    environments.  The second part holds the properties, C1 to C10, with
    the lemmas they rest on and their instances on concrete runs. *)

From Stdlib Require Import String Ascii List ZArith Bool Arith Lia.
Import ListNotations.

Open Scope string_scope.

Set Implicit Arguments.

Set Warnings "-register-all".

(** ** Python values and exceptions *)

(** The values [json.loads] produces, and the values a caller can hand to
    the constructor.  A [str] is kept as the bytes of its UTF-8 encoding. *)
Inductive pyval : Type :=
| PNone
| PBool (b : bool)
| PInt (z : Z)
| PFloat (repr : string)
| PStr (s : string)
| PBytes (b : string)
| PByteArray (b : string)
| PList (items : list pyval)
| PDict (entries : list (string * pyval)).

(** [Exception cls msg] stands for every subclass of [Exception];
    [SystemExit] is the one [BaseException] the script raises itself, and
    an [except Exception] clause lets it through. *)
Inductive exn : Type :=
| Exception (cls msg : string)
| SystemExit (code : Z).

Inductive result (A : Type) : Type :=
| Ok (a : A)
| Err (e : exn).

Arguments Ok {A} a.

Arguments Err {A} e.

(** Truth value of an optional string: [None] and [""] are false. *)
Definition truthy (o : option string) : bool :=
  match o with
  | Some s => negb (s =? "")
  | None => false
  end.

(** [x in xs] on a list of strings. *)
Definition str_in (x : string) (xs : list string) : bool :=
  existsb (String.eqb x) xs.

(** [needle in haystack] on strings. *)
Fixpoint contains (needle haystack : string) : bool :=
  if prefix needle haystack then true
  else match haystack with
       | EmptyString => false
       | String _ rest => contains needle rest
       end.

(** ** External effects *)

Record command : Type := Command {
  argv : list string;
  cwd : option string
}.

(** What the environment does with one [create_subprocess_exec] followed
    by [communicate]: the spawn raises, the wait raises, or the process
    ends with an exit status and its two captured streams (bytes). *)
Inductive outcome : Type :=
| SpawnRaises (msg : string)
| CommunicateRaises (msg : string)
| Exits (returncode : Z) (stdout stderr : string).

Inductive effect : Type -> Type :=
| Exec (c : command) : effect outcome
| Print (line : string) : effect unit
| PathExists (p : string) : effect (bool + string)
| Getcwd : effect string
| ResolveParent : effect string
| Makedirs (p : string) : effect (option string)
| Acquire : effect unit
| Release : effect unit.

Inductive event : Type :=
| EvExec (c : command) (o : outcome)
| EvPrint (line : string)
| EvExists (p : string) (answer : bool + string)
| EvGetcwd (p : string)
| EvResolve (p : string)
| EvMakedirs (p : string) (failure : option string)
| EvAcquire
| EvRelease.

Definition record {X : Type} (e : effect X) : X -> event :=
  match e in effect T return T -> event with
  | Exec c => fun o => EvExec c o
  | Print s => fun _ => EvPrint s
  | PathExists p => fun answer => EvExists p answer
  | Getcwd => fun p => EvGetcwd p
  | ResolveParent => fun p => EvResolve p
  | Makedirs p => fun r => EvMakedirs p r
  | Acquire => fun _ => EvAcquire
  | Release => fun _ => EvRelease
  end.

(** ** Program trees *)

Inductive prog (A : Type) : Type :=
| Ret (a : A)
| Raise (e : exn)
| Vis (X : Type) (e : effect X) (k : X -> prog A).

Arguments Ret {A} a.

Arguments Raise {A} e.

Arguments Vis {A X} e k.

Fixpoint bind {A B : Type} (t : prog A) (f : A -> prog B) : prog B :=
  match t with
  | Ret a => f a
  | Raise e => Raise e
  | Vis e k => Vis e (fun x => bind (k x) f)
  end.

Declare Scope prog_scope.

Delimit Scope prog_scope with prog.

Notation "x <- t ;; k" := (bind t (fun x => k))
  (at level 61, t at next level, right associativity) : prog_scope.

Notation "' p <- t ;; k" := (bind t (fun x => let p := x in k))
  (at level 61, p pattern, t at next level, right associativity) : prog_scope.

Notation "t ;;; k" := (bind t (fun _ => k))
  (at level 61, right associativity) : prog_scope.

Open Scope prog_scope.

Definition trigger {X : Type} (e : effect X) : prog X := Vis e Ret.

Definition print (line : string) : prog unit := trigger (Print line).

(** [try: body except Exception as e: handler(e)]; the handler receives
    [str(e)]. *)
Fixpoint try_except {A : Type} (body : prog A) (handler : string -> prog A)
  : prog A :=
  match body with
  | Ret a => Ret a
  | Raise (Exception _ msg) => handler msg
  | Raise (SystemExit c) => Raise (SystemExit c)
  | Vis e k => Vis e (fun x => try_except (k x) handler)
  end.

(** [try: body finally: cleanup()] *)
Fixpoint finally {A : Type} (body : prog A) (cleanup : prog unit) : prog A :=
  match body with
  | Ret a => cleanup ;;; Ret a
  | Raise e => cleanup ;;; Raise e
  | Vis e k => Vis e (fun x => finally (k x) cleanup)
  end.

(** [async with semaphore: body] *)
Definition async_with (body : prog unit) : prog unit :=
  trigger Acquire ;;; finally body (trigger Release).

(** ** The library functions the script calls

    [bytes.decode], [str.strip], [str.lower], [Path.__truediv__] and the
    text decoder behind [json.loads] belong to the Python runtime, not to
    this repository.  They are an interface here: every theorem holds for
    whatever these functions are, and [cpython_ascii] further down gives
    them values for the examples. *)
Class Runtime : Type := {
  (** [b.decode()]: the text, or the message of the [UnicodeDecodeError] *)
  bytes_decode : string -> string + string;
  str_strip : string -> string;
  str_lower : string -> string;
  (** [str(base / name)] *)
  path_div : string -> string -> string;
  (** [b.decode(detect_encoding(b), 'surrogatepass')] of the [json] module *)
  json_detect_decode : string -> string + string;
  (** [JSONDecoder().decode(s)]: the value, or the message of the
      [JSONDecodeError] *)
  json_decoder : string -> pyval + string
}.

Section Script.
Context {RT : Runtime}.

Definition decode (b : string) : prog string :=
  match bytes_decode b with
  | inl s => Ret s
  | inr msg => Raise (Exception "UnicodeDecodeError" msg)
  end.

(** A subprocess object: what [communicate] will do once awaited. *)
Inductive process : Type :=
| Completes (returncode : Z) (stdout stderr : string)
| Breaks (msg : string).

(** [await asyncio.create_subprocess_exec] on the words of [argv], both
    streams piped, in directory [cwd] when one is given. *)
Definition create_subprocess_exec (argv : list string) (cwd : option string)
  : prog process :=
  Vis (Exec (Command argv cwd)) (fun o =>
    match o with
    | SpawnRaises msg => Raise (Exception "OSError" msg)
    | CommunicateRaises msg => Ret (Breaks msg)
    | Exits rc out err => Ret (Completes rc out err)
    end).

(** [await process.communicate()] *)
Definition communicate (p : process) : prog (string * string) :=
  match p with
  | Completes _ out err => Ret (out, err)
  | Breaks msg => Raise (Exception "OSError" msg)
  end.

(** [json.loads(s)], after [Lib/json/__init__.py]: a [str] must not start
    with a byte order mark, [bytes] and [bytearray] are decoded first, and
    everything else is a [TypeError]. *)
Definition utf8_bom : string :=
  String (ascii_of_nat 239) (String (ascii_of_nat 187)
    (String (ascii_of_nat 191) EmptyString)).

Definition json_decode_text (s : string) : prog pyval :=
  match json_decoder s with
  | inl v => Ret v
  | inr msg => Raise (Exception "JSONDecodeError" msg)
  end.

Definition json_decode_bytes (b : string) : prog pyval :=
  match json_detect_decode b with
  | inl s => json_decode_text s
  | inr msg => Raise (Exception "UnicodeDecodeError" msg)
  end.

Definition json_loads (s : pyval) : prog pyval :=
  match s with
  | PStr text =>
      if prefix utf8_bom text
      then Raise (Exception "JSONDecodeError" "Unexpected UTF-8 BOM (decode using utf-8-sig)")
      else json_decode_text text
  | PBytes b => json_decode_bytes b
  | PByteArray b => json_decode_bytes b
  | _ => Raise (Exception "TypeError"
                  "the JSON object must be str, bytes or bytearray")
  end.

(** ** [class ProjectInitializer] *)

Record ProjectInitializer : Type := {
  project_name : string;
  repo_org : string;
  repositories : pyval;
  base_dir : string;
  commit_message : option string;
  excluded_repos : list string;
  remote_operation : option string;
  remote_name : option string;
  remote_url : option string
}.

(** [__init__] *)
Definition init (project_name repo_org : string) (repositories : pyval)
    (commit_message : option string) (excluded_repos : option (list string))
    (remote_operation remote_name remote_url : option string)
  : prog ProjectInitializer :=
  repos <- json_loads repositories ;;
  base <- trigger ResolveParent ;;
  Ret {| project_name := project_name;
         repo_org := repo_org;
         repositories := repos;
         base_dir := base;
         commit_message := commit_message;
         excluded_repos := match excluded_repos with
                           | Some (x :: xs) => x :: xs
                           | _ => []
                           end;
         remote_operation := remote_operation;
         remote_name := remote_name;
         remote_url := remote_url |}.

Variable self : ProjectInitializer.

Definition verify_git_ssh : prog bool :=
  try_except
    (process <- create_subprocess_exec ["ssh"; "-T"; "git@github.com"] None ;;
     streams <- communicate process ;;
     text <- decode (snd streams) ;;
     Ret (contains "successfully authenticated" (str_lower text)))
    (fun e => print ("Error verifying Git SSH access: " ++ e) ;;; Ret false).

Definition check_remote (repo_path expected_remote : string) : prog bool :=
  try_except
    (process <- create_subprocess_exec
                  ["git"; "remote"; "get-url"; "origin"] (Some repo_path) ;;
     streams <- communicate process ;;
     text <- decode (fst streams) ;;
     let current_remote := str_strip text in
     Ret (current_remote =? expected_remote))
    (fun _ => Ret false).

Definition update_repository (repo_path : string) : prog bool :=
  try_except
    (fetch_process <- create_subprocess_exec ["git"; "fetch"] (Some repo_path) ;;
     communicate fetch_process ;;;
     branch_process <- create_subprocess_exec
                  ["git"; "rev-parse"; "--abbrev-ref"; "HEAD"] (Some repo_path) ;;
     streams <- communicate branch_process ;;
     text <- decode (fst streams) ;;
     let current_branch := str_strip text in
     pull_process <- create_subprocess_exec
                  ["git"; "pull"; "origin"; current_branch] (Some repo_path) ;;
     communicate pull_process ;;;
     Ret true)
    (fun e => print ("Error updating repository: " ++ e) ;;; Ret false).

Definition clone_repository (repo_name repo_path : string) : prog bool :=
  try_except
    (process <- create_subprocess_exec
                  ["git"; "clone";
                   "git@github.com:" ++ repo_org self ++ "/" ++ repo_name ++ ".git";
                   repo_path] None ;;
     communicate process ;;;
     Ret true)
    (fun e => print ("Error cloning repository: " ++ e) ;;; Ret false).

Definition get_current_branch (repo_path : string) : prog string :=
  try_except
    (process <- create_subprocess_exec
                  ["git"; "rev-parse"; "--abbrev-ref"; "HEAD"] (Some repo_path) ;;
     streams <- communicate process ;;
     text <- decode (fst streams) ;;
     Ret (str_strip text))
    (fun e => print ("Error getting current branch: " ++ e) ;;; Ret "main").

Definition checkout_branch (repo_path branch_name : string)
  : prog (option string) :=
  try_except
    (process <- create_subprocess_exec
                  ["git"; "checkout"; branch_name] (Some repo_path) ;;
     communicate process ;;;
     Ret (Some branch_name))
    (fun _ =>
       try_except
         (process <- create_subprocess_exec
                  ["git"; "checkout"; "-b"; branch_name; "origin/main"]
                  (Some repo_path) ;;
          communicate process ;;;
          Ret (Some branch_name))
         (fun e =>
            print ("Error checking out/creating branch " ++ branch_name
                   ++ ": " ++ e) ;;;
            Ret None)).

Definition commit_changes (repo_path commit_message : string) : prog bool :=
  try_except
    (add_process <- create_subprocess_exec ["git"; "add"; "."] (Some repo_path) ;;
     communicate add_process ;;;
     commit_process <- create_subprocess_exec
                  ["git"; "commit"; "-m"; commit_message; "--allow-empty"]
                  (Some repo_path) ;;
     communicate commit_process ;;;
     Ret true)
    (fun e => print ("Error committing changes: " ++ e) ;;; Ret false).

Definition add_remote (repo_path remote_name remote_url : string) : prog bool :=
  try_except
    (process <- create_subprocess_exec
                  ["git"; "remote"; "add"; remote_name; remote_url]
                  (Some repo_path) ;;
     communicate process ;;;
     Ret true)
    (fun e => print ("Error adding remote: " ++ e) ;;; Ret false).

Definition update_remote (repo_path remote_name remote_url : string)
  : prog bool :=
  try_except
    (process <- create_subprocess_exec
                  ["git"; "remote"; "set-url"; remote_name; remote_url]
                  (Some repo_path) ;;
     communicate process ;;;
     Ret true)
    (fun e => print ("Error updating remote: " ++ e) ;;; Ret false).

Definition delete_remote (repo_path remote_name : string) : prog bool :=
  try_except
    (process <- create_subprocess_exec
                  ["git"; "remote"; "remove"; remote_name] (Some repo_path) ;;
     communicate process ;;;
     Ret true)
    (fun e => print ("Error deleting remote: " ++ e) ;;; Ret false).

Definition nl : string := String (ascii_of_nat 10) EmptyString.

Fixpoint dict_get (key : string) (entries : list (string * pyval))
  : option pyval :=
  match entries with
  | [] => None
  | (k, v) :: rest => if k =? key then Some v else dict_get key rest
  end.

(** [container[key]] with a [str] key. *)
Definition getitem (container : pyval) (key : string) : prog pyval :=
  match container with
  | PDict entries =>
      match dict_get key entries with
      | Some v => Ret v
      | None => Raise (Exception "KeyError" key)
      end
  | PStr _ | PBytes _ | PByteArray _ | PList _ =>
      Raise (Exception "TypeError" "indices must be integers or slices, not str")
  | PNone | PBool _ | PInt _ | PFloat _ =>
      Raise (Exception "TypeError" "object is not subscriptable")
  end.

(** The right operand of [self.base_dir / repo_name]: a [str], or the
    division raises. *)
Definition path_segment (v : pyval) : prog string :=
  match v with
  | PStr s => Ret s
  | _ => Raise (Exception "TypeError" "unsupported operand type(s) for /")
  end.

(** [repo_path.exists()]: [Path.exists] answers [False] for a path that
    is not there and lets every other [OSError] of [stat] out (a name that
    is too long for the file system, for one). *)
Definition path_exists (p : string) : prog bool :=
  answer <- trigger (PathExists p) ;;
  match answer with
  | inl present => Ret present
  | inr msg => Raise (Exception "OSError" msg)
  end.

(** Lines 233-260 of [process_repository]: bring the working copy in.  The
    existence test is outside every [try]. *)
Definition sync_block (repo_name repo_path expected_remote target_branch : string)
  : prog unit :=
  present <- path_exists repo_path ;;
  if present : bool then
    print ("Repository " ++ repo_name ++ " exists, verifying...") ;;;
    matches <- check_remote repo_path expected_remote ;;
    if matches : bool then
      print ("Updating " ++ repo_name ++ "...") ;;;
      checked_out_branch <- checkout_branch repo_path target_branch ;;
      (if truthy checked_out_branch
       then print ("✅ " ++ repo_name ++ " checked out to branch "
                   ++ match checked_out_branch with Some b => b | None => "None" end)
       else print ("❌ Failed to checkout branch " ++ target_branch
                   ++ " for " ++ repo_name)) ;;;
      updated <- update_repository repo_path ;;
      if updated : bool
      then print ("✅ " ++ repo_name ++ " updated successfully")
      else print ("❌ Failed to update " ++ repo_name)
    else
      print ("❌ Remote mismatch for " ++ repo_name) ;;;
      print ("Expected: " ++ expected_remote) ;;;
      print "Please check the repository manually"
  else
    print ("Cloning " ++ repo_name ++ "...") ;;;
    cloned <- clone_repository repo_name repo_path ;;
    if cloned : bool then
      print ("✅ " ++ repo_name ++ " cloned successfully") ;;;
      checked_out_branch <- checkout_branch repo_path target_branch ;;
      if truthy checked_out_branch
      then print ("✅ " ++ repo_name ++ " checked out to branch "
                  ++ match checked_out_branch with Some b => b | None => "None" end)
      else print ("❌ Failed to checkout branch " ++ target_branch
                  ++ " for " ++ repo_name)
    else
      print ("❌ Failed to clone " ++ repo_name).

(** Lines 262-293: the optional remote operation. *)
Definition remote_block (repo_name repo_path : string) : prog unit :=
  if truthy (remote_operation self) && negb (str_in repo_name (excluded_repos self))
  then
    print ("Managing remote in " ++ repo_name ++ "...") ;;;
    let effective_remote_url :=
      if truthy (remote_url self)
      then Some (match remote_url self with Some u => u | None => "None" end
                 ++ repo_name)
      else None in
    let name := match remote_name self with Some n => n | None => "None" end in
    let url := match effective_remote_url with Some u => u | None => "None" end in
    let operation := match remote_operation self with Some o => o | None => "None" end in
    if operation =? "add" then
      if truthy (remote_name self) && truthy effective_remote_url then
        added <- add_remote repo_path name url ;;
        if added : bool
        then print ("✅ Added remote " ++ name ++ " to " ++ repo_name
                    ++ " with URL " ++ url)
        else print ("❌ Failed to add remote " ++ name ++ " to " ++ repo_name)
      else print "❌ Remote name and URL are required for adding a remote."
    else if operation =? "update" then
      if truthy (remote_name self) && truthy effective_remote_url then
        updated <- update_remote repo_path name url ;;
        if updated : bool
        then print ("✅ Updated remote " ++ name ++ " in " ++ repo_name
                    ++ " with URL " ++ url)
        else print ("❌ Failed to update remote " ++ name ++ " in " ++ repo_name)
      else print "❌ Remote name and URL are required for updating a remote."
    else if operation =? "delete" then
      if truthy (remote_name self) then
        deleted <- delete_remote repo_path name ;;
        if deleted : bool
        then print ("✅ Deleted remote " ++ name ++ " from " ++ repo_name)
        else print ("❌ Failed to delete remote " ++ name ++ " from " ++ repo_name)
      else print "❌ Remote name is required for deleting a remote."
    else print ("❌ Invalid remote operation: " ++ operation)
  else Ret tt.

(** Lines 295-301: the optional commit. *)
Definition commit_block (repo_name repo_path : string) : prog unit :=
  if truthy (commit_message self) && negb (str_in repo_name (excluded_repos self))
  then
    print ("Committing changes in " ++ repo_name ++ "...") ;;;
    let message := match commit_message self with Some m => m | None => "None" end in
    committed <- commit_changes repo_path message ;;
    if committed : bool
    then print ("✅ " ++ repo_name ++ " committed successfully")
    else print ("❌ Failed to commit changes in " ++ repo_name)
  else Ret tt.

(** The body of [process_repository] under the semaphore. *)
Definition reconcile (repo : pyval) : prog unit :=
  name_value <- getitem repo "name" ;;
  repo_name <- path_segment name_value ;;
  let repo_path := path_div (base_dir self) repo_name in
  let expected_remote :=
    "git@github.com:" ++ repo_org self ++ "/" ++ repo_name ++ ".git" in
  print (nl ++ "Processing repository: " ++ repo_name) ;;;
  current_working_dir <- trigger Getcwd ;;
  target_branch <- get_current_branch current_working_dir ;;
  sync_block repo_name repo_path expected_remote target_branch ;;;
  remote_block repo_name repo_path ;;;
  commit_block repo_name repo_path.

Definition process_repository (repo : pyval) : prog unit :=
  async_with (reconcile repo).

(** [for repo in self.repositories]: the items of a list, the keys of a
    dict, the characters of a string (taken byte by byte here), the bytes
    of a bytes object; the other values are not iterable. *)
Definition iterate (v : pyval) : prog (list pyval) :=
  match v with
  | PList items => Ret items
  | PDict entries => Ret (map (fun kv => PStr (fst kv)) entries)
  | PStr s =>
      Ret (map (fun c => PStr (String c EmptyString)) (list_ascii_of_string s))
  | PBytes b | PByteArray b =>
      Ret (map (fun c => PInt (Z.of_nat (nat_of_ascii c))) (list_ascii_of_string b))
  | PNone | PBool _ | PInt _ | PFloat _ =>
      Raise (Exception "TypeError" "object is not iterable")
  end.

(** [await asyncio.gather] on the tasks, taken one after the
    other in catalog order; the first exception a task raises is the one
    [gather] hands to its caller.  The interleaving of the tasks under the
    semaphore is the subject of [Module Pool]. *)
Fixpoint gather (tasks : list (prog unit)) : prog unit :=
  match tasks with
  | [] => Ret tt
  | task :: rest => task ;;; gather rest
  end.

(** The capacity given to [asyncio.Semaphore] in [run]. *)
Definition semaphore_capacity : nat := 5.

Definition run : prog unit :=
  print ("Initializing project: " ++ project_name self) ;;;
  failure <- trigger (Makedirs (base_dir self)) ;;
  match failure with
  | Some msg => Raise (Exception "OSError" msg)
  | None => Ret tt
  end ;;;
  print (nl ++ "Verifying Git SSH access to GitHub...") ;;;
  verified <- verify_git_ssh ;;
  (if negb verified then
     print "❌ Failed to verify Git SSH access to GitHub" ;;;
     print "Please check your SSH configuration" ;;;
     Raise (SystemExit 1)
   else Ret tt) ;;;
  print "✅ Git SSH access verified" ;;;
  repos <- iterate (repositories self) ;;
  let tasks := map process_repository repos in
  gather tasks ;;;
  print (nl ++ "✅ Project initialization complete!").

End Script.

(** ** The launcher *)

Record arguments : Type := {
  arg_debug : bool;
  arg_commit : bool;
  arg_message : option string;
  arg_exclude : option (list string);
  arg_remote_operation : option string;
  arg_remote_name : option string;
  arg_remote_url : option string
}.

(** [main_async], the coroutine that [main] defines and hands to
    [asyncio.run]: build the initializer from [config] and the parsed
    flags, then run it.  [catalog] is the value of the [repositories]
    entry of [config], once [main] has evaluated the literal; [main]
    itself comes below. *)
Definition main_async {RT : Runtime} (args : arguments) (catalog : pyval)
  : prog unit :=
  initializer <- init "gcp-kubernetes" "HappyPathway" catalog
                   (if arg_commit args then arg_message args else None)
                   (Some (match arg_exclude args with
                          | Some (x :: xs) => x :: xs
                          | _ => []
                          end))
                   (arg_remote_operation args)
                   (arg_remote_name args)
                   (arg_remote_url args) ;;
  run initializer.

(** The exit status of the interpreter: 0 when [main] returns, the
    argument of [sys.exit], 1 after an uncaught exception. *)
Definition exit_status (r : result unit) : Z :=
  match r with
  | Ok _ => 0
  | Err (SystemExit code) => code
  | Err (Exception _ _) => 1
  end.

(** ** [main] and its configuration literal *)

(** The expressions the literal is made of: string and number literals,
    names, list displays, and dict displays whose keys are string
    literals. *)
Inductive pyexpr : Type :=
| EStr (s : string)
| EInt (z : Z)
| EName (id : string)
| EList (items : list pyexpr)
| EDict (entries : list (string * pyexpr)).

(** [d[key] = v] on the entries of a dict. *)
Fixpoint dict_store (key : string) (v : pyval) (entries : list (string * pyval))
  : list (string * pyval) :=
  match entries with
  | [] => [(key, v)]
  | (k, x) :: rest =>
      if k =? key then (k, v) :: rest else (k, x) :: dict_store key v rest
  end.

(** The value of an expression, its parts taken from left to right, or the
    first name met that is bound neither in [main], nor in the module, nor
    among the builtins. *)
Fixpoint eval (scope : string -> option pyval) (e : pyexpr) : pyval + string :=
  match e with
  | EStr s => inl (PStr s)
  | EInt z => inl (PInt z)
  | EName id =>
      match scope id with
      | Some v => inl v
      | None => inr id
      end
  | EList items =>
      match (fix eval_items (l : list pyexpr) : list pyval + string :=
               match l with
               | [] => inl []
               | x :: rest =>
                   match eval scope x with
                   | inr id => inr id
                   | inl v =>
                       match eval_items rest with
                       | inr id => inr id
                       | inl vs => inl (v :: vs)
                       end
                   end
               end) items with
      | inl vs => inl (PList vs)
      | inr id => inr id
      end
  | EDict entries =>
      match (fix eval_entries (l : list (string * pyexpr))
                 (acc : list (string * pyval)) : list (string * pyval) + string :=
               match l with
               | [] => inl acc
               | (k, x) :: rest =>
                   match eval scope x with
                   | inr id => inr id
                   | inl v => eval_entries rest (dict_store k v acc)
                   end
               end) entries [] with
      | inl d => inl (PDict d)
      | inr id => inr id
      end
  end.

Definition evaluate (scope : string -> option pyval) (e : pyexpr) : prog pyval :=
  match eval scope e with
  | inl v => Ret v
  | inr id => Raise (Exception "NameError" ("name '" ++ id ++ "' is not defined"))
  end.

Section Launcher.
Context {RT : Runtime}.

(** The values of the names that are bound where [main] runs. *)
Variable scope : string -> option pyval.

(** What comes in the literal after its first [true]: the other entries
    of the first descriptor, and the other descriptors. *)
Variable entries_after : list (string * pyexpr).

Variable descriptors_after : list pyexpr.

(** [json.dumps(config, indent=2)]: the text, or the message of the
    [TypeError] for a value that JSON cannot hold. *)
Variable dumps : pyval -> string + string.

(** Lines 339-343: [config = {...}], a Python dict display, not a JSON
    text; [true] in it is a name. *)
Definition config_literal : pyexpr :=
  EDict [("project_name", EStr "gcp-kubernetes");
         ("repo_org", EStr "HappyPathway");
         ("repositories",
          EList (EDict (("additional_codeowners", EList [])
                          :: ("admin_teams", EList [])
                          :: ("archive_on_destroy", EName "true")
                          :: entries_after)
                   :: descriptors_after))].

(** [main], once [parse_args] has returned [args]. *)
Definition main (args : arguments) : prog unit :=
  config <- evaluate scope config_literal ;;
  (if arg_debug args
   then print "Configuration:" ;;;
        match dumps config with
        | inl text => print text
        | inr msg => Raise (Exception "TypeError" msg)
        end
   else Ret tt) ;;;
  catalog <- getitem config "repositories" ;;
  main_async args catalog.

End Launcher.

(** ** Running a program against an environment *)

Class World (W : Type) : Type := {
  respond : forall X : Type, effect X -> W -> X * W
}.

Arguments respond {W _ X} e w.

Section Interp.
Context {W : Type} {WD : World W}.

Fixpoint interp {A : Type} (t : prog A) (w : W) : list event * result A * W :=
  match t with
  | Ret a => ([], Ok a, w)
  | Raise e => ([], Err e, w)
  | Vis e k =>
      let (x, w1) := respond e w in
      let '(tr, r, w2) := interp (k x) w1 in
      (record e x :: tr, r, w2)
  end.

Definition trace_of {A : Type} (t : prog A) (w : W) : list event :=
  fst (fst (interp t w)).

Definition result_of {A : Type} (t : prog A) (w : W) : result A :=
  snd (fst (interp t w)).

End Interp.

Open Scope list_scope.

(** ** Reasoning on program trees

    [wp t Q]: whatever the environment answers, the events of [t] and its
    result satisfy [Q]. *)
Fixpoint wp {A : Type} (t : prog A) (Q : list event -> result A -> Prop)
  : Prop :=
  match t with
  | Ret a => Q [] (Ok a)
  | Raise e => Q [] (Err e)
  | Vis e k => forall x, wp (k x) (fun tr r => Q (record e x :: tr) r)
  end.

(** ** Classifying the effects of a run *)

(** The subcommand a child process was started for. *)
Inductive verb : Type :=
| Ssh | RevParse | RemoteGetUrl | Fetch | Pull | Clone | Checkout | CheckoutNew
| Stage | Commit | RemoteAdd | RemoteSetUrl | RemoteRemove | Unknown.

Definition verb_eqb (a b : verb) : bool :=
  match a, b with
  | Ssh, Ssh | RevParse, RevParse | RemoteGetUrl, RemoteGetUrl
  | Fetch, Fetch | Pull, Pull | Clone, Clone | Checkout, Checkout
  | CheckoutNew, CheckoutNew | Stage, Stage | Commit, Commit
  | RemoteAdd, RemoteAdd | RemoteSetUrl, RemoteSetUrl
  | RemoteRemove, RemoteRemove | Unknown, Unknown => true
  | _, _ => false
  end.

Definition git_verb (words : list string) : verb :=
  match words with
  | [] => Unknown
  | sub :: rest =>
      if sub =? "fetch" then Fetch
      else if sub =? "pull" then Pull
      else if sub =? "clone" then Clone
      else if sub =? "rev-parse" then RevParse
      else if sub =? "add" then Stage
      else if sub =? "commit" then Commit
      else if sub =? "checkout" then
        match rest with
        | [_] => Checkout
        | _ => CheckoutNew
        end
      else if sub =? "remote" then
        match rest with
        | [] => Unknown
        | action :: _ =>
            if action =? "get-url" then RemoteGetUrl
            else if action =? "add" then RemoteAdd
            else if action =? "set-url" then RemoteSetUrl
            else if action =? "remove" then RemoteRemove
            else Unknown
        end
      else Unknown
  end.

Definition verb_of (c : command) : verb :=
  match argv c with
  | [] => Unknown
  | program :: words =>
      if program =? "ssh" then Ssh
      else if program =? "git" then git_verb words
      else Unknown
  end.

(** [on_verb f ev]: [ev] is a child process whose verb satisfies [f]. *)
Definition on_verb (f : verb -> bool) (ev : event) : bool :=
  match ev with
  | EvExec c _ => f (verb_of c)
  | _ => false
  end.

Definition one_of (vs : list verb) (v : verb) : bool := existsb (verb_eqb v) vs.

Definition is_checkout : event -> bool := on_verb (one_of [Checkout; CheckoutNew]).

Definition is_fetch : event -> bool := on_verb (one_of [Fetch]).

Definition is_pull : event -> bool := on_verb (one_of [Pull]).

Definition is_remote_operation : event -> bool :=
  on_verb (one_of [RemoteAdd; RemoteSetUrl; RemoteRemove]).

Definition is_commit : event -> bool := on_verb (one_of [Stage; Commit]).

(** The spawn or the wait raised. *)
Definition raised (ev : event) : bool :=
  match ev with
  | EvExec _ (SpawnRaises _) | EvExec _ (CommunicateRaises _) => true
  | _ => false
  end.

(** The existence test of a path raised. *)
Definition exists_raised (ev : event) : bool :=
  match ev with
  | EvExists _ (inr _) => true
  | _ => false
  end.

(** [only pc ev]: [ev] is a progress line, or a child process whose command
    satisfies [pc]. *)
Definition only (pc : command -> Prop) (ev : event) : Prop :=
  match ev with
  | EvExec c _ => pc c
  | EvPrint _ => True
  | _ => False
  end.

(** What the script reads in the answer to [git rev-parse --abbrev-ref
    HEAD] ([get_current_branch]) and to [git remote get-url origin]
    ([check_remote]). *)
Definition branch_reading {RT : Runtime} (o : outcome) : string :=
  match o with
  | Exits _ out _ =>
      match bytes_decode out with
      | inl text => str_strip text
      | inr _ => "main"
      end
  | _ => "main"
  end.

Definition origin_reading {RT : Runtime} (o : outcome) : option string :=
  match o with
  | Exits _ out _ =>
      match bytes_decode out with
      | inl text => Some (str_strip text)
      | inr _ => None
      end
  | _ => None
  end.

(** [git rev-parse] ended, and what it wrote is not text: [decode]
    raises on it. *)
Definition undecodable {RT : Runtime} (ev : event) : bool :=
  match ev with
  | EvExec c (Exits _ out _) =>
      verb_eqb (verb_of c) RevParse &&
      match bytes_decode out with
      | inl _ => false
      | inr _ => true
      end
  | _ => false
  end.

Definition cmd_rev_parse (p : string) : command :=
  Command ["git"; "rev-parse"; "--abbrev-ref"; "HEAD"] (Some p).

Definition cmd_get_url (p : string) : command :=
  Command ["git"; "remote"; "get-url"; "origin"] (Some p).

Definition cmd_fetch (p : string) : command :=
  Command ["git"; "fetch"] (Some p).

Definition cmd_pull (p branch : string) : command :=
  Command ["git"; "pull"; "origin"; branch] (Some p).

Definition cmd_clone (org name p : string) : command :=
  Command ["git"; "clone"; ("git@github.com:" ++ org ++ "/" ++ name ++ ".git")%string; p]
          None.

Definition cmd_checkout (p branch : string) : command :=
  Command ["git"; "checkout"; branch] (Some p).

Definition cmd_checkout_new (p branch : string) : command :=
  Command ["git"; "checkout"; "-b"; branch; "origin/main"] (Some p).

Definition cmd_stage (p : string) : command :=
  Command ["git"; "add"; "."] (Some p).

Definition cmd_commit (p message : string) : command :=
  Command ["git"; "commit"; "-m"; message; "--allow-empty"] (Some p).

Definition cmd_remote_add (p name url : string) : command :=
  Command ["git"; "remote"; "add"; name; url] (Some p).

Definition cmd_remote_set_url (p name url : string) : command :=
  Command ["git"; "remote"; "set-url"; name; url] (Some p).

Definition cmd_remote_remove (p name : string) : command :=
  Command ["git"; "remote"; "remove"; name] (Some p).

Definition cmd_ssh : command := Command ["ssh"; "-T"; "git@github.com"] None.

Section Readings.
Context {RT : Runtime}.
Variable self : ProjectInitializer.

(** The methods that run one command and answer with a boolean. *)
Definition one_command (c : command) (tr : list event) (r : result bool) : Prop :=
  (exists o rest, tr = EvExec c o :: rest /\ Forall (only (fun _ => False)) rest) /\
  r = Ok (negb (existsb raised tr)).

(** What [verify_git_ssh] reads in the answer of [ssh -T]. *)
Definition ssh_reading (o : outcome) : bool :=
  match o with
  | Exits _ _ err =>
      match bytes_decode err with
      | inl text => contains "successfully authenticated" (str_lower text)
      | inr _ => false
      end
  | _ => false
  end.

End Readings.

(** ** The trace of one reconciliation

    The events of each part of [process_repository], as grammars over the
    commands run; the messages of the progress lines are left open except
    where a claim is about them. *)

Definition expected_origin (org name : string) : string :=
  ("git@github.com:" ++ org ++ "/" ++ name ++ ".git")%string.

Definition checkout_log (p target : string) (tr : list event) : Prop :=
  exists o rest,
    tr = EvExec (cmd_checkout p target) o :: rest /\
    Forall (only (fun c => c = cmd_checkout_new p target)) rest.

Definition update_log (p : string) (tr : list event) : Prop :=
  exists o rest,
    tr = EvExec (cmd_fetch p) o :: rest /\
    Forall (only (fun c => c = cmd_rev_parse p \/ exists b, c = cmd_pull p b)) rest.

Definition clone_log (org name p : string) (tr : list event) : Prop :=
  exists o rest,
    tr = EvExec (cmd_clone org name p) o :: rest /\
    Forall (only (fun _ => False)) rest.

Inductive sync_log {RT : Runtime} (org name p expected target : string)
  : list event -> Prop :=
| sync_updated o tr_co tr_up m1 m2 m3 m4 :
    origin_reading o = Some expected ->
    checkout_log p target tr_co ->
    update_log p tr_up ->
    sync_log org name p expected target
      (EvExists p (inl true) :: EvPrint m1 :: EvExec (cmd_get_url p) o :: EvPrint m2
         :: tr_co ++ EvPrint m3 :: tr_up ++ [EvPrint m4])
| sync_mismatch o m1 m2 m3 m4 :
    origin_reading o <> Some expected ->
    sync_log org name p expected target
      [EvExists p (inl true); EvPrint m1; EvExec (cmd_get_url p) o;
       EvPrint m2; EvPrint m3; EvPrint m4]
| sync_cloned tr_clone tr_co m1 m2 m3 :
    clone_log org name p tr_clone ->
    existsb raised tr_clone = false ->
    checkout_log p target tr_co ->
    sync_log org name p expected target
      (EvExists p (inl false) :: EvPrint m1 :: tr_clone ++ EvPrint m2
         :: tr_co ++ [EvPrint m3])
| sync_clone_failed tr_clone m1 m2 :
    clone_log org name p tr_clone ->
    existsb raised tr_clone = true ->
    sync_log org name p expected target
      (EvExists p (inl false) :: EvPrint m1 :: tr_clone ++ [EvPrint m2]).

Section Grammar.
Context {RT : Runtime}.
Variable self : ProjectInitializer.

(** A field that is given and not empty. *)
Definition given (field : option string) (value : string) : Prop :=
  field = Some value /\ value <> "".

Definition excluded (name : string) : bool := str_in name (excluded_repos self).

Definition msg_add_rejected : string :=
  "❌ Remote name and URL are required for adding a remote.".

Definition msg_update_rejected : string :=
  "❌ Remote name and URL are required for updating a remote.".

Definition msg_delete_rejected : string :=
  "❌ Remote name is required for deleting a remote.".

Inductive remote_log (name p : string) : list event -> Prop :=
| remote_skipped :
    truthy (remote_operation self) && negb (excluded name) = false ->
    remote_log name p []
| remote_add_run rname base o rest m :
    excluded name = false ->
    remote_operation self = Some "add" ->
    given (remote_name self) rname ->
    given (remote_url self) base ->
    Forall (only (fun _ => False)) rest ->
    remote_log name p
      (EvPrint m :: EvExec (cmd_remote_add p rname (base ++ name)%string) o :: rest)
| remote_add_rejected m :
    excluded name = false ->
    remote_operation self = Some "add" ->
    truthy (remote_name self) && truthy (remote_url self) = false ->
    remote_log name p [EvPrint m; EvPrint msg_add_rejected]
| remote_update_run rname base o rest m :
    excluded name = false ->
    remote_operation self = Some "update" ->
    given (remote_name self) rname ->
    given (remote_url self) base ->
    Forall (only (fun _ => False)) rest ->
    remote_log name p
      (EvPrint m :: EvExec (cmd_remote_set_url p rname (base ++ name)%string) o
         :: rest)
| remote_update_rejected m :
    excluded name = false ->
    remote_operation self = Some "update" ->
    truthy (remote_name self) && truthy (remote_url self) = false ->
    remote_log name p [EvPrint m; EvPrint msg_update_rejected]
| remote_delete_run rname o rest m :
    excluded name = false ->
    remote_operation self = Some "delete" ->
    given (remote_name self) rname ->
    Forall (only (fun _ => False)) rest ->
    remote_log name p (EvPrint m :: EvExec (cmd_remote_remove p rname) o :: rest)
| remote_delete_rejected m :
    excluded name = false ->
    remote_operation self = Some "delete" ->
    truthy (remote_name self) = false ->
    remote_log name p [EvPrint m; EvPrint msg_delete_rejected]
| remote_invalid operation m m' :
    excluded name = false ->
    given (remote_operation self) operation ->
    operation <> "add" -> operation <> "update" -> operation <> "delete" ->
    remote_log name p [EvPrint m; EvPrint m'].

Inductive commit_log (name p : string) : list event -> Prop :=
| commit_skipped :
    truthy (commit_message self) && negb (excluded name) = false ->
    commit_log name p []
| commit_run message o rest m m' :
    excluded name = false ->
    given (commit_message self) message ->
    Forall (only (fun c => c = cmd_commit p message)) rest ->
    commit_log name p (EvPrint m :: EvExec (cmd_stage p) o :: rest ++ [EvPrint m']).

(** The name [process_repository] works with: the [str] under the key
    ["name"] of a dict; any other descriptor makes it raise. *)
Definition repo_name_of (repo : pyval) : option string :=
  match repo with
  | PDict entries =>
      match dict_get "name" entries with
      | Some (PStr s) => Some s
      | _ => None
      end
  | _ => None
  end.

Definition repo_path_of (name : string) : string :=
  path_div (base_dir self) name.

Inductive reconcile_log (name : string) : list event -> Prop :=
| reconcile_steps dir o lines tr_sync tr_remote tr_commit m :
    Forall (only (fun _ => False)) lines ->
    sync_log (repo_org self) name (repo_path_of name)
             (expected_origin (repo_org self) name) (branch_reading o) tr_sync ->
    remote_log name (repo_path_of name) tr_remote ->
    commit_log name (repo_path_of name) tr_commit ->
    reconcile_log name
      (EvPrint m :: EvGetcwd dir :: EvExec (cmd_rev_parse dir) o
         :: lines ++ tr_sync ++ tr_remote ++ tr_commit).

(** The trace of a reconciliation that ends where the existence test of
    the repository path raises [msg]: nothing of the three steps is run. *)
Definition reconcile_cut (name msg : string) (tr : list event) : Prop :=
  exists m dir o lines,
    tr = EvPrint m :: EvGetcwd dir :: EvExec (cmd_rev_parse dir) o
           :: lines ++ [EvExists (repo_path_of name) (inr msg)] /\
    Forall (only (fun _ => False)) lines.

(** The same for [process_repository], with the semaphore around it. *)
Definition cut_short (name msg : string) (tr : list event) : Prop :=
  exists m dir o lines,
    tr = EvAcquire :: EvPrint m :: EvGetcwd dir :: EvExec (cmd_rev_parse dir) o
           :: lines ++ [EvExists (repo_path_of name) (inr msg); EvRelease] /\
    Forall (only (fun _ => False)) lines.

End Grammar.

(** ** A runtime and an environment for the examples

    [cpython_text] gives the library functions of [Runtime] concrete
    values: genuine UTF-8 validation, the whitespace of [str.strip],
    lower-casing of ASCII letters, and a JSON decoder for the documents the
    examples use.  [sim] is an environment whose answers are programmed. *)

Module Example.
Local Open Scope nat_scope.

(** [bytes.decode()]: the bytes are kept when they are well-formed UTF-8
    (no overlong form, no surrogate, nothing above U+10FFFF). *)
Fixpoint utf8_scan (s : string) (pending lo hi : nat) : bool :=
  match s with
  | EmptyString => pending =? 0
  | String c rest =>
      let n := nat_of_ascii c in
      match pending with
      | S k => (lo <=? n) && (n <=? hi) && utf8_scan rest k 128 191
      | O =>
          if n <? 128 then utf8_scan rest 0 128 191
          else if (194 <=? n) && (n <=? 223) then utf8_scan rest 1 128 191
          else if n =? 224 then utf8_scan rest 2 160 191
          else if n =? 237 then utf8_scan rest 2 128 159
          else if (225 <=? n) && (n <=? 239) then utf8_scan rest 2 128 191
          else if n =? 240 then utf8_scan rest 3 144 191
          else if (241 <=? n) && (n <=? 243) then utf8_scan rest 3 128 191
          else if n =? 244 then utf8_scan rest 3 128 143
          else false
      end
  end.

Definition utf8_decode (b : string) : string + string :=
  if utf8_scan b 0 128 191 then inl b
  else inr "'utf-8' codec can't decode byte: invalid start or continuation byte".

Definition bytes_of (codes : list nat) : string :=
  string_of_list_ascii (map ascii_of_nat codes).

(** The characters [str.isspace] accepts, in UTF-8. *)
Definition spaces : list string :=
  map bytes_of
      [[9]; [10]; [11]; [12]; [13]; [28]; [29]; [30]; [31]; [32];
       [194; 133]; [194; 160]; [225; 154; 128];
       [226; 128; 128]; [226; 128; 129]; [226; 128; 130]; [226; 128; 131];
       [226; 128; 132]; [226; 128; 133]; [226; 128; 134]; [226; 128; 135];
       [226; 128; 136]; [226; 128; 137]; [226; 128; 138];
       [226; 128; 168]; [226; 128; 169]; [226; 128; 175];
       [226; 129; 159]; [227; 128; 128]].

Fixpoint drop_prefix (pre s : string) : option string :=
  match pre, s with
  | EmptyString, _ => Some s
  | String a pre', String b s' =>
      if Ascii.eqb a b then drop_prefix pre' s' else None
  | String _ _, EmptyString => None
  end.

Fixpoint drop_first (table : list string) (s : string) : option string :=
  match table with
  | [] => None
  | t :: rest =>
      match drop_prefix t s with
      | Some s' => Some s'
      | None => drop_first rest s
      end
  end.

Fixpoint lstrip_with (table : list string) (fuel : nat) (s : string) : string :=
  match fuel with
  | O => s
  | S fuel' =>
      match drop_first table s with
      | Some s' => lstrip_with table fuel' s'
      | None => s
      end
  end.

Definition reverse (s : string) : string :=
  string_of_list_ascii (rev (list_ascii_of_string s)).

Definition strip (s : string) : string :=
  let left := lstrip_with spaces (String.length s) s in
  reverse (lstrip_with (map reverse spaces) (String.length left) (reverse left)).

(** [str.lower] on the letters A-Z; other characters are kept. *)
Definition lower_char (c : ascii) : ascii :=
  let n := nat_of_ascii c in
  if (65 <=? n) && (n <=? 90) then ascii_of_nat (n + 32) else c.

Definition lower (s : string) : string :=
  string_of_list_ascii (map lower_char (list_ascii_of_string s)).

(** [str(base / name)] for a relative [name] that needs no normalising. *)
Definition join (base name : string) : string := (base ++ "/" ++ name)%string.

(** A decoder for the JSON documents of the examples: arrays, objects,
    strings without escapes, integers, [true], [false], [null].  It rejects
    what it does not cover (escapes, fractions, exponents). *)
Definition is_json_ws (c : ascii) : bool :=
  let n := nat_of_ascii c in
  (n =? 32) || (n =? 9) || (n =? 10) || (n =? 13).

Fixpoint skip_ws (s : string) : string :=
  match s with
  | String c rest => if is_json_ws c then skip_ws rest else s
  | EmptyString => s
  end.

Fixpoint scan_string (s : string) (acc : list ascii) : option (string * string) :=
  match s with
  | EmptyString => None
  | String c rest =>
      let n := nat_of_ascii c in
      if n =? 34 then Some (string_of_list_ascii (rev acc), rest)
      else if (n =? 92) || (n <? 32) then None
      else scan_string rest (c :: acc)
  end.

Definition is_digit (c : ascii) : bool :=
  let n := nat_of_ascii c in (48 <=? n) && (n <=? 57).

Fixpoint scan_digits (s : string) (acc : Z) : Z * string :=
  match s with
  | String c rest =>
      if is_digit c
      then scan_digits rest (acc * 10 + Z.of_nat (nat_of_ascii c - 48))%Z
      else (acc, s)
  | EmptyString => (acc, s)
  end.

Definition scan_natural (s : string) : option (Z * string) :=
  match s with
  | String c rest =>
      if nat_of_ascii c =? 48 then Some (0%Z, rest)
      else if is_digit c then Some (scan_digits s 0%Z)
      else None
  | EmptyString => None
  end.

Definition starts_fraction (s : string) : bool :=
  match s with
  | String c _ =>
      let n := nat_of_ascii c in (n =? 46) || (n =? 101) || (n =? 69)
  | EmptyString => false
  end.

Definition scan_number (s : string) : option (pyval * string) :=
  let signed :=
    match s with
    | String c rest =>
        if nat_of_ascii c =? 45
        then match scan_natural rest with
             | Some (z, rest') => Some ((- z)%Z, rest')
             | None => None
             end
        else scan_natural s
    | EmptyString => None
    end in
  match signed with
  | Some (z, rest) => if starts_fraction rest then None else Some (PInt z, rest)
  | None => None
  end.

Fixpoint dict_set (key : string) (v : pyval) (entries : list (string * pyval))
  : list (string * pyval) :=
  match entries with
  | [] => [(key, v)]
  | (k, x) :: rest =>
      if (k =? key)%string then (k, v) :: rest else (k, x) :: dict_set key v rest
  end.

Fixpoint parse_value (fuel : nat) (s : string) {struct fuel}
  : option (pyval * string) :=
  match fuel with
  | O => None
  | S fuel' =>
      match skip_ws s with
      | EmptyString => None
      | String c rest =>
          let n := nat_of_ascii c in
          if n =? 91 then
            match skip_ws rest with
            | String c' rest' =>
                if nat_of_ascii c' =? 93 then Some (PList [], rest')
                else parse_items fuel' rest []
            | EmptyString => None
            end
          else if n =? 123 then
            match skip_ws rest with
            | String c' rest' =>
                if nat_of_ascii c' =? 125 then Some (PDict [], rest')
                else parse_members fuel' rest []
            | EmptyString => None
            end
          else if n =? 34 then
            match scan_string rest [] with
            | Some (text, rest') => Some (PStr text, rest')
            | None => None
            end
          else
            match drop_prefix "null" (String c rest),
                  drop_prefix "true" (String c rest),
                  drop_prefix "false" (String c rest) with
            | Some rest', _, _ => Some (PNone, rest')
            | None, Some rest', _ => Some (PBool true, rest')
            | None, None, Some rest' => Some (PBool false, rest')
            | None, None, None => scan_number (String c rest)
            end
      end
  end
with parse_items (fuel : nat) (s : string) (acc : list pyval) {struct fuel}
  : option (pyval * string) :=
  match fuel with
  | O => None
  | S fuel' =>
      match parse_value fuel' s with
      | Some (v, rest) =>
          match skip_ws rest with
          | String c rest' =>
              if nat_of_ascii c =? 44 then parse_items fuel' rest' (v :: acc)
              else if nat_of_ascii c =? 93 then Some (PList (rev (v :: acc)), rest')
              else None
          | EmptyString => None
          end
      | None => None
      end
  end
with parse_members (fuel : nat) (s : string) (acc : list (string * pyval))
       {struct fuel} : option (pyval * string) :=
  match fuel with
  | O => None
  | S fuel' =>
      match skip_ws s with
      | String q rest =>
          if nat_of_ascii q =? 34 then
            match scan_string rest [] with
            | Some (key, rest1) =>
                match skip_ws rest1 with
                | String colon rest2 =>
                    if nat_of_ascii colon =? 58 then
                      match parse_value fuel' rest2 with
                      | Some (v, rest3) =>
                          match skip_ws rest3 with
                          | String c rest4 =>
                              if nat_of_ascii c =? 44
                              then parse_members fuel' rest4 (dict_set key v acc)
                              else if nat_of_ascii c =? 125
                              then Some (PDict (dict_set key v acc), rest4)
                              else None
                          | EmptyString => None
                          end
                      | None => None
                      end
                    else None
                | EmptyString => None
                end
            | None => None
            end
          else None
      | EmptyString => None
      end
  end.

Definition json_parse (s : string) : pyval + string :=
  match parse_value (2 * String.length s + 2) s with
  | Some (v, rest) =>
      match skip_ws rest with
      | EmptyString => inl v
      | String _ _ => inr "Extra data"
      end
  | None => inr "Expecting value"
  end.

#[export] Instance cpython_text : Runtime := {|
  bytes_decode := utf8_decode;
  str_strip := strip;
  str_lower := lower;
  path_div := join;
  json_detect_decode := utf8_decode;
  json_decoder := json_parse
|}.

(** An environment: the answer to a command may depend on how many
    commands were run before it; the filesystem answers do not change. *)
Record sim : Type := {
  clock : nat;
  on_exec : nat -> command -> outcome;
  on_exists : string -> bool + string;
  sim_cwd : string;
  sim_parent : string;
  on_makedirs : option string
}.

Definition tick (w : sim) : sim :=
  {| clock := S (clock w);
     on_exec := on_exec w;
     on_exists := on_exists w;
     sim_cwd := sim_cwd w;
     sim_parent := sim_parent w;
     on_makedirs := on_makedirs w |}.

Definition sim_respond (X : Type) (e : effect X) (w : sim) : X * sim :=
  match e in effect T return T * sim with
  | Exec c => (on_exec w (clock w) c, tick w)
  | Print _ => (tt, w)
  | PathExists p => (on_exists w p, w)
  | Getcwd => (sim_cwd w, w)
  | ResolveParent => (sim_parent w, w)
  | Makedirs _ => (on_makedirs w, w)
  | Acquire => (tt, w)
  | Release => (tt, w)
  end.

#[export] Instance sim_world : World sim := {| respond := sim_respond |}.

Definition quoted (s : string) : string :=
  (String (ascii_of_nat 34) s ++ String (ascii_of_nat 34) EmptyString)%string.

End Example.

(** ** Order of the steps in a trace *)

(** [happens_before p q tr]: an event satisfying [p] occurs in [tr], and no
    event satisfying [q] occurs before the first of them. *)
Fixpoint happens_before (p q : event -> bool) (tr : list event) : bool :=
  match tr with
  | [] => false
  | ev :: rest =>
      if q ev then false
      else if p ev then true
      else happens_before p q rest
  end.

(** The environment said that path [p] exists. *)
Definition reports_present (p : string) (ev : event) : bool :=
  match ev with
  | EvExists p' (inl true) => (p' =? p)%string
  | _ => false
  end.

(** The environment gave [url] as the URL of [origin]. *)
Definition reports_origin {RT : Runtime} (url : string) (ev : event) : bool :=
  match ev with
  | EvExec c o =>
      verb_eqb (verb_of c) RemoteGetUrl &&
      match origin_reading o with
      | Some url' => (url' =? url)%string
      | None => false
      end
  | _ => false
  end.

(** [runs vs ev]: [ev] is a progress line, or a child process whose verb is
    one of [vs]. *)
Definition runs (vs : list verb) : event -> Prop :=
  only (fun c => one_of vs (verb_of c) = true).

(** The verbs of the commands that bring a working copy in. *)
Definition sync_verbs : list verb :=
  [RemoteGetUrl; Checkout; CheckoutNew; Fetch; RevParse; Pull; Clone].

(** ** The whole run *)



(** The answer [run] got from the access check, if it asked. *)
Definition access_verified {RT : Runtime} (tr : list event) : option bool :=
  match find (on_verb (one_of [Ssh])) tr with
  | Some (EvExec _ o) => Some (ssh_reading o)
  | _ => None
  end.

(** An event of a reconciliation: the semaphore is taken, or a command
    other than the access check is run. *)
Definition is_reconciliation (ev : event) : bool :=
  match ev with
  | EvAcquire => true
  | EvExec c _ => negb (verb_eqb (verb_of c) Ssh)
  | _ => false
  end.

(** ** The constructor *)

(** The values [json.loads] takes as a document. *)
Definition json_text (v : pyval) : bool :=
  match v with
  | PStr _ | PBytes _ | PByteArray _ => true
  | _ => false
  end.

Definition not_json_text_error : exn :=
  Exception "TypeError" "the JSON object must be str, bytes or bytearray".

(** ** The reconciliations under the semaphore

    [run] starts one task per descriptor and lets them interleave; a task
    gives way at its effects.  The semaphore of [run] holds
    [semaphore_capacity] permits: [acquire] takes one when one is left and
    waits otherwise, [release] gives one back.  A schedule names, step by
    step, the task that moves and what the environment answers it. *)

Module Pool.

Record task : Type := Task {
  holding : bool;
  code : prog unit
}.

Record pool : Type := Pool {
  permits : nat;
  tasks : list task
}.

(** The answers of the environment to whatever a task asks next. *)
Definition oracle : Type := forall X : Type, effect X -> X.

(** One step of one task. *)
Definition step_task (a : oracle) (permits : nat) (t : task) : nat * task :=
  match code t with
  | Ret _ | Raise _ => (permits, t)
  | Vis e k =>
      match e in effect X return (X -> prog unit) -> nat * task with
      | Acquire => fun k =>
          match permits with
          | S n => (n, Task true (k tt))
          | O => (O, t)
          end
      | Release => fun k => (S permits, Task false (k tt))
      | Exec c => fun k => (permits, Task (holding t) (k (a _ (Exec c))))
      | Print s => fun k => (permits, Task (holding t) (k (a _ (Print s))))
      | PathExists p => fun k => (permits, Task (holding t) (k (a _ (PathExists p))))
      | Getcwd => fun k => (permits, Task (holding t) (k (a _ Getcwd)))
      | ResolveParent => fun k => (permits, Task (holding t) (k (a _ ResolveParent)))
      | Makedirs p => fun k => (permits, Task (holding t) (k (a _ (Makedirs p))))
      end k
  end.

(** The scheduler lets task [i] take a step. *)
Fixpoint step_at (a : oracle) (i : nat) (permits : nat) (ts : list task)
  : nat * list task :=
  match ts, i with
  | [], _ => (permits, [])
  | t :: rest, O => let (n, t') := step_task a permits t in (n, t' :: rest)
  | t :: rest, S j => let (n, rest') := step_at a j permits rest in (n, t :: rest')
  end.

Definition step (p : pool) (choice : nat * oracle) : pool :=
  let (n, ts) := step_at (snd choice) (fst choice) (permits p) (tasks p) in
  Pool n ts.

Definition run_schedule (schedule : list (nat * oracle)) (p : pool) : pool :=
  fold_left step schedule p.

(** The reconciliations in flight: the tasks holding a permit. *)
Definition active (p : pool) : nat := length (filter holding (tasks p)).

Definition start {RT : Runtime} (self : ProjectInitializer) (repos : list pyval)
  : pool :=
  Pool semaphore_capacity
       (map (fun repo => Task false (process_repository self repo)) repos).

Definition is_semaphore (ev : event) : bool :=
  match ev with
  | EvAcquire | EvRelease => true
  | _ => false
  end.

(** The shapes of what a task has still to do: finish by one release, or
    either nothing on the semaphore or one whole acquire-release pair. *)
Definition releases_once (tr : list event) : Prop :=
  exists mid, tr = mid ++ [EvRelease] /\ forallb (fun ev => negb (is_semaphore ev)) mid = true.

Definition balanced (tr : list event) : Prop :=
  forallb (fun ev => negb (is_semaphore ev)) tr = true \/
  exists mid, tr = EvAcquire :: mid ++ [EvRelease] /\
              forallb (fun ev => negb (is_semaphore ev)) mid = true.

Definition task_ok (t : task) : Prop :=
  if holding t
  then wp (code t) (fun tr _ => releases_once tr)
  else wp (code t) (fun tr _ => balanced tr).

Definition invariant (p : pool) : Prop :=
  permits p + active p = semaphore_capacity /\ Forall task_ok (tasks p).

Definition default_answer (X : Type) (e : effect X) : X :=
  match e in effect T return T with
  | Exec _ => SpawnRaises ""
  | Print _ => tt
  | PathExists _ => inl false
  | Getcwd => ""
  | ResolveParent => ""
  | Makedirs _ => None
  | Acquire => tt
  | Release => tt
  end.

Definition weight (t : task) : nat := if holding t then 1 else 0.

Definition quiet (tr : list event) : Prop :=
  forallb (fun ev => negb (is_semaphore ev)) tr = true.

End Pool.

(** ** Concrete runs: initializers and environments *)

Module Scenario.
Import Example.

Definition workspace : string := "/work/gcp-kubernetes".

Definition compute : pyval :=
  PDict [("name", PStr "terraform-gcp-compute");
         ("github_default_branch", PStr "main");
         ("archived", PBool false)].

Definition storage : pyval :=
  PDict [("name", PStr "terraform-gcp-storage");
         ("github_default_branch", PStr "main");
         ("archived", PBool false)].

Definition compute_path : string := "/work/terraform-gcp-compute".

(** The initializer the launcher builds when no flag is given. *)
Definition plain_run (catalog : list pyval) : ProjectInitializer :=
  {| project_name := "gcp-kubernetes";
     repo_org := "HappyPathway";
     repositories := PList catalog;
     base_dir := "/work";
     commit_message := None;
     excluded_repos := [];
     remote_operation := None;
     remote_name := None;
     remote_url := None |}.

(** [--commit --message sync --remote-operation add --remote-name mirror
    --remote-url git@mirror:infra/], with a list of excluded names. *)
Definition mirror_run (catalog : list pyval) (excluded : list string)
  : ProjectInitializer :=
  {| project_name := "gcp-kubernetes";
     repo_org := "HappyPathway";
     repositories := PList catalog;
     base_dir := "/work";
     commit_message := Some "sync";
     excluded_repos := excluded;
     remote_operation := Some "add";
     remote_name := Some "mirror";
     remote_url := Some "git@mirror:infra/" |}.


Definition origin_answer (c : command) : string :=
  match cwd c with
  | Some p =>
      if (p =? "/work/terraform-gcp-compute")%string
      then ("git@github.com:HappyPathway/terraform-gcp-compute.git" ++ nl)%string
      else if (p =? "/work/terraform-gcp-storage")%string
      then ("git@github.com:HappyPathway/terraform-gcp-storage.git" ++ nl)%string
      else ""
  | None => ""
  end.

Definition ssh_greeting : string :=
  "Hi dev! You've successfully authenticated, but GitHub does not provide shell access.".

(** Every command ends with status 0, except [ssh -T], which GitHub ends
    with status 1 after its greeting. *)
Definition healthy (n : nat) (c : command) : outcome :=
  match verb_of c with
  | Ssh => Exits 1 "" ssh_greeting
  | RevParse => Exits 0 ("feature/gke" ++ nl)%string ""
  | RemoteGetUrl => Exits 0 (origin_answer c) ""
  | _ => Exits 0 "" ""
  end.

Definition world_with (exec : nat -> command -> outcome) (present : bool) : sim :=
  {| clock := 0;
     on_exec := exec;
     on_exists := fun _ => inl present;
     sim_cwd := workspace;
     sim_parent := "/work";
     on_makedirs := None |}.

(** The working copies are there and everything answers. *)
Definition checked_out_world : sim := world_with healthy true.

(** Nothing is cloned yet. *)
Definition fresh_world : sim := world_with healthy false.



(** The target branch does not exist in the working copy: [git checkout]
    ends with status 1. *)
Definition no_such_branch (n : nat) (c : command) : outcome :=
  match verb_of c with
  | Checkout =>
      Exits 1 "" "error: pathspec 'feature/gke' did not match any file(s) known to git"
  | _ => healthy n c
  end.

Definition missing_branch_world : sim := world_with no_such_branch true.

(** The branch of the working copy has a name that is not UTF-8. *)
Definition latin1_branch (n : nat) (c : command) : outcome :=
  match verb_of c with
  | RevParse => Exits 0 (String (ascii_of_nat 233) nl) ""
  | _ => healthy n c
  end.

Definition latin1_world : sim := world_with latin1_branch true.

(** From the third command on, the branch query in the workspace cannot be
    spawned any more. *)
Definition flaky (n : nat) (c : command) : outcome :=
  match verb_of c, cwd c with
  | RevParse, Some p =>
      if (p =? workspace)%string && (2 <=? n)%nat
      then SpawnRaises "[Errno 24] Too many open files"
      else healthy n c
  | _, _ => healthy n c
  end.

Definition flaky_world : sim := world_with flaky true.

(** The branch each plain [git checkout] of a trace was given. *)
Definition checkout_targets (tr : list event) : list string :=
  flat_map (fun ev =>
              match ev with
              | EvExec c _ =>
                  if verb_eqb (verb_of c) Checkout then [nth 2 (argv c) ""] else []
              | _ => []
              end) tr.

Definition git_words (tr : list event) : list (list string) :=
  flat_map (fun ev => match ev with EvExec c _ => [argv c] | _ => [] end) tr.

Definition is_str (v : pyval) : bool :=
  match v with
  | PStr _ => true
  | _ => false
  end.





(** The names of the module that stand for values of this development;
    [true], [false] and [null] are names neither of the module nor of the
    builtins. *)
Definition module_names (id : string) : option pyval :=
  if (id =? "__name__")%string then Some (PStr "__main__") else None.

(** The same with the three JSON words bound, as a module that defined
    them would have it. *)
Definition json_names (id : string) : option pyval :=
  if (id =? "true")%string then Some (PBool true)
  else if (id =? "false")%string then Some (PBool false)
  else if (id =? "null")%string then Some PNone
  else module_names id.

(** No flag on the command line. *)
Definition no_flags : arguments :=
  {| arg_debug := false;
     arg_commit := false;
     arg_message := None;
     arg_exclude := None;
     arg_remote_operation := None;
     arg_remote_name := None;
     arg_remote_url := None |}.


End Scenario.

(** ** The footprint of a run

    Which effects a reconciliation, and a whole run, may have at all: every
    command with its words and its directory. *)

Definition is_clone : event -> bool := on_verb (one_of [Clone]).

Definition is_ssh : event -> bool := on_verb (one_of [Ssh]).

(** The descriptors [run] starts a reconciliation for. *)
Definition catalog_items (catalog : pyval) : list pyval :=
  match catalog with
  | PList items => items
  | PDict entries => map (fun kv => PStr (fst kv)) entries
  | PStr s => map (fun c => PStr (String c EmptyString)) (list_ascii_of_string s)
  | PBytes b | PByteArray b =>
      map (fun c => PInt (Z.of_nat (nat_of_ascii c))) (list_ascii_of_string b)
  | PNone | PBool _ | PInt _ | PFloat _ => []
  end.

Definition iterable (catalog : pyval) : bool :=
  match catalog with
  | PNone | PBool _ | PInt _ | PFloat _ => false
  | _ => true
  end.

Section Footprint.
Context {RT : Runtime}.
Variable self : ProjectInitializer.

(** The commands that bring the working copy of [name] in. *)
Definition sync_command (name : string) (c : command) : Prop :=
  c = cmd_get_url (repo_path_of self name) \/
  c = cmd_fetch (repo_path_of self name) \/
  c = cmd_rev_parse (repo_path_of self name) \/
  (exists b, c = cmd_pull (repo_path_of self name) b) \/
  (exists b, c = cmd_checkout (repo_path_of self name) b) \/
  (exists b, c = cmd_checkout_new (repo_path_of self name) b) \/
  c = cmd_clone (repo_org self) name (repo_path_of self name).

(** The remote command the run was asked for, on a repository that is not
    excluded, with the fields it needs. *)
Definition remote_command (name : string) (c : command) : Prop :=
  excluded self name = false /\
  exists rname,
    given (remote_name self) rname /\
    ((remote_operation self = Some "delete" /\
      c = cmd_remote_remove (repo_path_of self name) rname) \/
     exists base,
       given (remote_url self) base /\
       ((remote_operation self = Some "add" /\
         c = cmd_remote_add (repo_path_of self name) rname (base ++ name)%string) \/
        (remote_operation self = Some "update" /\
         c = cmd_remote_set_url (repo_path_of self name) rname
               (base ++ name)%string))).

(** The two commands of the commit step, on a repository that is not
    excluded, with the message the run was given. *)
Definition commit_command (name : string) (c : command) : Prop :=
  excluded self name = false /\
  exists message,
    given (commit_message self) message /\
    (c = cmd_stage (repo_path_of self name) \/
     c = cmd_commit (repo_path_of self name) message).

Definition reconcile_event (name : string) (ev : event) : Prop :=
  match ev with
  | EvExec c _ =>
      (exists dir, c = cmd_rev_parse dir) \/
      sync_command name c \/ remote_command name c \/ commit_command name c
  | EvExists p _ => p = repo_path_of self name
  | EvPrint _ | EvGetcwd _ | EvAcquire | EvRelease => True
  | EvResolve _ | EvMakedirs _ _ => False
  end.

(** The events of the reconciliation of one descriptor; a descriptor
    without a name only takes and gives back the semaphore. *)
Definition repo_event (repo : pyval) (ev : event) : Prop :=
  match repo_name_of repo with
  | Some name => reconcile_event name ev
  | None => ev = EvAcquire \/ ev = EvRelease
  end.

(** The events of the reconciliations of a run. *)
Definition catalog_event (ev : event) : Prop :=
  match ev with
  | EvPrint _ => True
  | _ => exists repo, In repo (catalog_items (repositories self)) /\ repo_event repo ev
  end.

End Footprint.

(** The events of a whole run: the progress lines, the creation of the
    base directory, the access check, and the events of the
    reconciliations. *)
Definition run_event {RT : Runtime} (self : ProjectInitializer) (ev : event)
  : Prop :=
  match ev with
  | EvPrint _ => True
  | EvMakedirs p _ => p = base_dir self
  | EvExec c _ => c = cmd_ssh \/ catalog_event self ev
  | _ => catalog_event self ev
  end.

(** The verbs of the two optional steps of a reconciliation. *)
Definition optional_verbs : list verb :=
  [RemoteAdd; RemoteSetUrl; RemoteRemove; Stage; Commit].

Definition is_sync : event -> bool := on_verb (one_of sync_verbs).

(** Any child process at all. *)
Definition is_command : event -> bool := on_verb (fun _ => true).

(** The environment said that path [p] does not exist. *)
Definition reports_absent (p : string) (ev : event) : bool :=
  match ev with
  | EvExists p' (inl false) => (p' =? p)%string
  | _ => false
  end.

(** The spawn or the wait of [git clone] raised. *)
Definition failed_clone (ev : event) : bool := is_clone ev && raised ev.

(** ** Progress of the tasks under the semaphore *)

(** A task that has returned or raised. *)
Definition finished (t : Pool.task) : bool :=
  match Pool.code t with
  | Vis _ _ => false
  | _ => true
  end.

(** A task whose next step is to take the semaphore. *)
Definition waits (t : Pool.task) : bool :=
  match Pool.code t with
  | Vis e _ =>
      match e with
      | Acquire => true
      | _ => false
      end
  | _ => false
  end.

(** [moved t after]: the task [t] has taken its next step and is now
    [after], with one of the continuations of that step as its code. *)
Definition moved (t : Pool.task) (after : option Pool.task) : Prop :=
  match Pool.code t, after with
  | Vis _ k, Some t' => exists x, Pool.code t' = k x
  | _, _ => False
  end.

(** ** More concrete runs *)

Module Cases.
Import Example.
Import Scenario.

(** The base directory cannot be created. *)
Definition read_only_world : sim :=
  {| clock := 0;
     on_exec := healthy;
     on_exists := fun _ => inl false;
     sim_cwd := workspace;
     sim_parent := "/work";
     on_makedirs := Some "[Errno 13] Permission denied: '/work'" |}.

(** The working copies are there, and their origin is somebody's fork. *)
Definition forked (n : nat) (c : command) : outcome :=
  match verb_of c with
  | RemoteGetUrl =>
      Exits 0 ("git@github.com:someone/terraform-gcp-compute.git" ++ nl)%string ""
  | _ => healthy n c
  end.

Definition forked_world : sim := world_with forked true.

(** Nothing is cloned yet and [git clone] cannot be spawned. *)
Definition unreachable (n : nat) (c : command) : outcome :=
  match verb_of c with
  | Clone => SpawnRaises "[Errno 2] No such file or directory: 'git'"
  | _ => healthy n c
  end.

Definition unreachable_world : sim := world_with unreachable false.

(** The initializer of a catalog that is the JSON document [null]. *)
Definition null_run : ProjectInitializer :=
  {| project_name := "gcp-kubernetes";
     repo_org := "HappyPathway";
     repositories := PNone;
     base_dir := "/work";
     commit_message := None;
     excluded_repos := [];
     remote_operation := None;
     remote_name := None;
     remote_url := None |}.


(** The flags [--message sync] without [--commit]. *)
Definition message_only : arguments :=
  {| arg_debug := false;
     arg_commit := false;
     arg_message := Some "sync";
     arg_exclude := None;
     arg_remote_operation := None;
     arg_remote_name := None;
     arg_remote_url := None |}.

Definition catalog_text : string :=
  ("[{" ++ quoted "name" ++ ": " ++ quoted "terraform-gcp-compute" ++ "}]")%string.

(** A descriptor without a name. *)
Definition anonymous : pyval := PDict [("archived", PBool false)].

(** The scheduler lets the first task take two steps. *)
Definition twice : list (nat * Pool.oracle) :=
  [(0, Pool.default_answer); (0, Pool.default_answer)].

End Cases.

(** * Properties *)

(** ** Rules of [wp] *)

Lemma wp_mono {A : Type} (t : prog A) :
  forall (Q Q' : list event -> result A -> Prop),
    (forall tr r, Q tr r -> Q' tr r) -> wp t Q -> wp t Q'.
Proof.
  induction t as [a | e | X e k IH]; simpl; intros Q Q' HQ Ht; auto.
  intro x. eapply IH; [ | apply Ht ]. simpl. auto.
Qed.

Lemma wp_bind {A B : Type} (t : prog A) (f : A -> prog B) :
  forall Q : list event -> result B -> Prop,
    wp t (fun tr r =>
            match r with
            | Ok a => wp (f a) (fun tr' r' => Q (tr ++ tr') r')
            | Err e => Q tr (Err e)
            end) ->
    wp (bind t f) Q.
Proof.
  induction t as [a | e | X e k IH]; simpl; intros Q H.
  - exact H.
  - exact H.
  - intro x. apply IH. exact (H x).
Qed.

Lemma wp_try_except {A : Type} (t : prog A) (h : string -> prog A) :
  forall Q : list event -> result A -> Prop,
    wp t (fun tr r =>
            match r with
            | Ok a => Q tr (Ok a)
            | Err (Exception _ msg) => wp (h msg) (fun tr' r' => Q (tr ++ tr') r')
            | Err (SystemExit c) => Q tr (Err (SystemExit c))
            end) ->
    wp (try_except t h) Q.
Proof.
  induction t as [a | e | X e k IH]; simpl; intros Q H.
  - exact H.
  - destruct e; simpl; exact H.
  - intro x. apply IH. exact (H x).
Qed.

Lemma wp_finally {A : Type} (t : prog A) (cleanup : prog unit) :
  forall Q : list event -> result A -> Prop,
    wp t (fun tr r =>
            wp cleanup (fun tr' r' =>
                          match r' with
                          | Ok _ => Q (tr ++ tr') r
                          | Err e => Q (tr ++ tr') (Err e)
                          end)) ->
    wp (finally t cleanup) Q.
Proof.
  induction t as [a | e | X e k IH]; simpl; intros Q H.
  - apply wp_bind. eapply wp_mono; [ | apply H ].
    intros tr [[] | e]; simpl; auto. rewrite app_nil_r. auto.
  - apply wp_bind. eapply wp_mono; [ | apply H ].
    intros tr [[] | e']; simpl; auto. rewrite app_nil_r. auto.
  - intro x. apply IH. exact (H x).
Qed.

Section Soundness.
Context {W : Type} {WD : World W}.

Lemma wp_sound {A : Type} (t : prog A) :
  forall (Q : list event -> result A -> Prop) (w : W),
    wp t Q -> Q (trace_of t w) (result_of t w).
Proof.
  unfold trace_of, result_of.
  induction t as [a | e | X e k IH]; simpl; intros Q w H; auto.
  destruct (respond e w) as [x w1] eqn:Hx.
  specialize (IH x _ w1 (H x)).
  destruct (interp (k x) w1) as [[tr r] w2]. simpl in *. exact IH.
Qed.

End Soundness.

Lemma only_weaken (pc pc' : command -> Prop) (tr : list event) :
  (forall c, pc c -> pc' c) -> Forall (only pc) tr -> Forall (only pc') tr.
Proof.
  intros H. apply Forall_impl. intros [c o | | | | | | | ]; simpl; auto.
Qed.

Lemma only_on_verb (pc : command -> Prop) (f : verb -> bool) (tr : list event) :
  (forall c, pc c -> f (verb_of c) = false) ->
  Forall (only pc) tr -> existsb (on_verb f) tr = false.
Proof.
  intros H Htr. induction Htr as [ | ev tr Hev _ IH]; simpl; auto.
  rewrite IH, orb_false_r.
  destruct ev; simpl in *; auto.
Qed.

Ltac run_tree :=
  repeat (simpl;
          match goal with
          | |- forall _ : outcome, _ => intros [? | ? | ? ? ?]
          | |- forall _ : unit, _ => intros []
          | |- context [decode ?b] =>
              unfold decode; destruct (bytes_decode b) eqn:?
          end);
  simpl.

(** ** The methods, one specification each *)

Section Methods.
Context {RT : Runtime}.
Variable self : ProjectInitializer.

(** For each method: the commands it may run, in what order, and how its
    result depends on what happened. *)

Lemma get_current_branch_spec (p : string) :
  wp (get_current_branch p)
     (fun tr r => exists o rest,
          tr = EvExec (cmd_rev_parse p) o :: rest /\
          Forall (only (fun _ => False)) rest /\
          r = Ok (branch_reading o)).
Proof.
  unfold get_current_branch. run_tree;
    eexists; eexists; (split; [reflexivity | ]); simpl;
    try rewrite Heqs; split; auto; repeat constructor.
Qed.

Lemma check_remote_spec (p expected : string) :
  wp (check_remote p expected)
     (fun tr r => exists o,
          tr = [EvExec (cmd_get_url p) o] /\
          r = Ok (match origin_reading o with
                  | Some url => (url =? expected)%string
                  | None => false
                  end)).
Proof.
  unfold check_remote. run_tree;
    eexists; (split; [reflexivity | ]); simpl; try rewrite Heqs; auto.
Qed.

Lemma checkout_branch_spec (p branch : string) :
  wp (checkout_branch p branch)
     (fun tr r => exists o rest,
          tr = EvExec (cmd_checkout p branch) o :: rest /\
          Forall (only (fun c => c = cmd_checkout_new p branch)) rest /\
          (r = Ok (Some branch) \/ r = Ok None)).
Proof.
  unfold checkout_branch. run_tree;
    eexists; eexists; (split; [reflexivity | ]);
    split; auto; repeat constructor.
Qed.

Lemma update_repository_spec (p : string) :
  wp (update_repository p)
     (fun tr r => exists o rest,
          tr = EvExec (cmd_fetch p) o :: rest /\
          Forall (only (fun c => c = cmd_rev_parse p \/
                                 exists b, c = cmd_pull p b)) rest /\
          r = Ok (negb (existsb (fun ev => raised ev || undecodable ev) tr))).
Proof.
  unfold update_repository. run_tree;
    eexists; eexists; (split; [reflexivity | ]); simpl;
    try rewrite Heqs; split; auto;
    repeat (apply Forall_cons || apply Forall_nil); simpl; auto;
    solve [left; reflexivity | right; eexists; reflexivity].
Qed.

Lemma clone_repository_spec (repo_name p : string) :
  wp (clone_repository self repo_name p)
     (one_command (cmd_clone (repo_org self) repo_name p)).
Proof.
  unfold clone_repository, one_command. run_tree;
    (split; [eexists; eexists; split; [reflexivity | repeat constructor] | auto]).
Qed.

Lemma add_remote_spec (p name url : string) :
  wp (add_remote p name url) (one_command (cmd_remote_add p name url)).
Proof.
  unfold add_remote, one_command. run_tree;
    (split; [eexists; eexists; split; [reflexivity | repeat constructor] | auto]).
Qed.

Lemma update_remote_spec (p name url : string) :
  wp (update_remote p name url) (one_command (cmd_remote_set_url p name url)).
Proof.
  unfold update_remote, one_command. run_tree;
    (split; [eexists; eexists; split; [reflexivity | repeat constructor] | auto]).
Qed.

Lemma delete_remote_spec (p name : string) :
  wp (delete_remote p name) (one_command (cmd_remote_remove p name)).
Proof.
  unfold delete_remote, one_command. run_tree;
    (split; [eexists; eexists; split; [reflexivity | repeat constructor] | auto]).
Qed.

Lemma commit_changes_spec (p message : string) :
  wp (commit_changes p message)
     (fun tr r => (exists o rest,
                      tr = EvExec (cmd_stage p) o :: rest /\
                      Forall (only (fun c => c = cmd_commit p message)) rest) /\
                  r = Ok (negb (existsb raised tr))).
Proof.
  unfold commit_changes. run_tree;
    (split; [eexists; eexists; split; [reflexivity | repeat constructor] | auto]).
Qed.

Lemma verify_git_ssh_spec :
  wp verify_git_ssh
     (fun tr r => exists o rest,
          tr = EvExec cmd_ssh o :: rest /\
          Forall (only (fun _ => False)) rest /\
          r = Ok (ssh_reading o)).
Proof.
  unfold verify_git_ssh. run_tree;
    eexists; eexists; (split; [reflexivity | ]); simpl;
    try rewrite Heqs; split; auto; repeat constructor.
Qed.

End Methods.

Arguments get_current_branch : simpl never.

Arguments check_remote : simpl never.

Arguments checkout_branch : simpl never.

Arguments update_repository : simpl never.

Arguments clone_repository : simpl never.

Arguments commit_changes : simpl never.

Arguments add_remote : simpl never.

Arguments update_remote : simpl never.

Arguments delete_remote : simpl never.

Arguments verify_git_ssh : simpl never.

Arguments String.append : simpl never.

(** ** The parts of [process_repository] *)

Ltac wp_call spec :=
  cbv beta iota; apply wp_bind; eapply wp_mono; [ | apply spec ]; cbv beta.

Section Blocks.
Context {RT : Runtime}.
Variable self : ProjectInitializer.

Lemma sync_block_spec (name p expected target : string) :
  wp (sync_block self name p expected target)
     (fun tr r =>
        (r = Ok tt /\ sync_log (repo_org self) name p expected target tr) \/
        (exists msg, r = Err (Exception "OSError" msg) /\
                     tr = [EvExists p (inr msg)])).
Proof.
  unfold sync_block, path_exists. cbn. intros [[ | ] | msg]; cbn;
    [intros [] | intros [] | right; eauto].
  - wp_call check_remote_spec.
    intros tr r (o & -> & ->).
    assert (Hdec : {origin_reading o = Some expected} +
                   {origin_reading o <> Some expected}).
    { destruct (origin_reading o) as [url | ]; [ | right; discriminate].
      destruct (String.eqb_spec url expected) as [-> | Hne];
        [left; reflexivity | right; congruence]. }
    destruct Hdec as [Ho | Ho].
    + rewrite Ho, String.eqb_refl. cbn. intros [].
      wp_call checkout_branch_spec.
      intros tr r (o1 & rest1 & -> & Hrest1 & Hr).
      assert (Hprint : forall m1 m2 (Q : list event -> result unit -> Prop),
                 (forall m, Q [EvPrint m] (Ok tt)) ->
                 forall b : bool, wp (if b then print m1 else print m2) Q).
      { intros m1 m2 Q HQ [ | ]; cbn; intros []; apply HQ. }
      destruct Hr as [-> | ->];
        (apply wp_bind; apply Hprint; intros m;
         wp_call update_repository_spec;
         intros tr r (o2 & rest2 & -> & Hrest2 & ->);
         apply Hprint; intros m'; left; split; [reflexivity | ];
         cbn;
         match goal with
         | |- sync_log _ _ _ _ _ (_ :: _ :: _ :: _ :: _ :: ?l) =>
             change l with ((rest1 ++ EvPrint m :: (EvExec (cmd_fetch p) o2 :: rest2) ++ [EvPrint m']))
         end;
         rewrite app_comm_cons;
         apply sync_updated; auto;
         [exists o1, rest1; auto | exists o2, rest2; auto]).
    + assert (Hfalse : match origin_reading o with
                       | Some url => (url =? expected)%string
                       | None => false
                       end = false).
      { destruct (origin_reading o) as [url | ]; auto.
        apply String.eqb_neq. congruence. }
      rewrite Hfalse. cbn. intros [] [] []. left; split; [reflexivity | ].
      apply sync_mismatch; auto.
  - wp_call clone_repository_spec.
    intros tr r [(o & rest & -> & Hrest) ->].
    destruct (existsb raised (EvExec (cmd_clone (repo_org self) name p) o :: rest))
      eqn:Hraised; cbn -[existsb]; intros [].
    + left; split; [reflexivity | ].
      rewrite app_comm_cons.
      apply sync_clone_failed; auto. exists o, rest; auto.
    + wp_call checkout_branch_spec.
      intros tr r (o1 & rest1 & -> & Hrest1 & Hr).
      assert (Hprint : forall m1 m2 (Q : list event -> result unit -> Prop),
                 (forall m, Q [EvPrint m] (Ok tt)) ->
                 forall b : bool, wp (if b then print m1 else print m2) Q).
      { intros m1 m2 Q HQ [ | ]; cbn; intros []; apply HQ. }
      destruct Hr as [-> | ->];
        (apply Hprint; intros m'; left; split; [reflexivity | ];
         cbn -[existsb];
         match goal with
         | |- sync_log _ _ _ _ _ (_ :: _ :: _ :: ?l) =>
             change l with (rest ++ EvPrint
               ("✅ " ++ name ++ " cloned successfully")%string
               :: (EvExec (cmd_checkout p target) o1 :: rest1) ++ [EvPrint m'])
         end;
         rewrite app_comm_cons;
         apply sync_cloned; auto;
         [exists o, rest; auto | exists o1, rest1; auto]).
Qed.

Lemma truthy_given (field : option string) :
  truthy field = true -> exists value, given field value.
Proof.
  destruct field as [s | ]; simpl; [ | discriminate].
  intros H. exists s. split; auto. intros ->. discriminate.
Qed.

Lemma truthy_append (a b : string) : a <> "" -> truthy (Some (a ++ b)%string) = true.
Proof.
  destruct a as [ | c a]; [congruence | ]. reflexivity.
Qed.

Lemma wp_report (m1 m2 : string) (Q : list event -> result unit -> Prop) :
  (forall m, Q [EvPrint m] (Ok tt)) ->
  forall b : bool, wp (if b then print m1 else print m2) Q.
Proof.
  intros HQ [ | ]; cbn; intros []; apply HQ.
Qed.

Lemma commit_block_spec (name p : string) :
  wp (commit_block self name p)
     (fun tr r => r = Ok tt /\ commit_log self name p tr).
Proof.
  unfold commit_block. fold (excluded self name).
  destruct (truthy (commit_message self) && negb (excluded self name)) eqn:Hc.
  - apply andb_prop in Hc. destruct Hc as [Hm Hx].
    apply negb_true_iff in Hx.
    destruct (truthy_given _ Hm) as (message & Hgiven).
    destruct Hgiven as [Hsome Hne]. rewrite Hsome.
    cbn. intros [].
    wp_call commit_changes_spec.
    intros tr r [(o & rest & -> & Hrest) ->].
    apply wp_report. intros m. split; [reflexivity | ].
    cbn -[existsb]. apply commit_run with (message := message); auto.
    split; auto.
  - cbn. split; [reflexivity | ]. apply commit_skipped. exact Hc.
Qed.

Lemma remote_block_spec (name p : string) :
  wp (remote_block self name p)
     (fun tr r => r = Ok tt /\ remote_log self name p tr).
Proof.
  unfold remote_block. fold (excluded self name).
  destruct (truthy (remote_operation self) && negb (excluded self name)) eqn:Hc.
  2:{ cbn. split; [reflexivity | ]. apply remote_skipped. exact Hc. }
  apply andb_prop in Hc. destruct Hc as [Hop Hx].
  apply negb_true_iff in Hx.
  destruct (truthy_given _ Hop) as (operation & Hoperation).
  pose proof Hoperation as [Hsome _]. rewrite Hsome.
  cbn. intros [].
  destruct (String.eqb_spec operation "add") as [-> | Hadd].
  { destruct (truthy (remote_name self)) eqn:Hn.
    - destruct (truthy (remote_url self)) eqn:Hu.
      + destruct (truthy_given _ Hn) as (rname & Hrname).
        destruct (truthy_given _ Hu) as (base & Hbase).
        pose proof Hrname as [-> _]. pose proof Hbase as [Hb Hbne].
        rewrite Hb. rewrite truthy_append by exact Hbne. cbn.
        wp_call add_remote_spec.
        intros tr r [(o & rest & -> & Hrest) ->].
        apply wp_report. intros m. split; [reflexivity | ].
        cbn -[existsb].
        eapply remote_add_run; eauto.
        apply Forall_app; split; auto. repeat constructor.
      + cbn. intros []. split; [reflexivity | ].
        apply remote_add_rejected; auto; rewrite ?Hn, ?Hu; reflexivity.
    - cbn. intros []. split; [reflexivity | ].
      apply remote_add_rejected; auto; rewrite ?Hn, ?Hu; reflexivity. }
  destruct (String.eqb_spec operation "update") as [-> | Hupdate].
  { destruct (truthy (remote_name self)) eqn:Hn.
    - destruct (truthy (remote_url self)) eqn:Hu.
      + destruct (truthy_given _ Hn) as (rname & Hrname).
        destruct (truthy_given _ Hu) as (base & Hbase).
        pose proof Hrname as [-> _]. pose proof Hbase as [Hb Hbne].
        rewrite Hb. rewrite truthy_append by exact Hbne. cbn.
        wp_call update_remote_spec.
        intros tr r [(o & rest & -> & Hrest) ->].
        apply wp_report. intros m. split; [reflexivity | ].
        cbn -[existsb].
        eapply remote_update_run; eauto.
        apply Forall_app; split; auto. repeat constructor.
      + cbn. intros []. split; [reflexivity | ].
        apply remote_update_rejected; auto; rewrite ?Hn, ?Hu; reflexivity.
    - cbn. intros []. split; [reflexivity | ].
      apply remote_update_rejected; auto; rewrite ?Hn, ?Hu; reflexivity. }
  destruct (String.eqb_spec operation "delete") as [-> | Hdelete].
  { destruct (truthy (remote_name self)) eqn:Hn.
    - destruct (truthy_given _ Hn) as (rname & Hrname).
      pose proof Hrname as [-> _]. cbn.
      wp_call delete_remote_spec.
      intros tr r [(o & rest & -> & Hrest) ->].
      apply wp_report. intros m. split; [reflexivity | ].
      cbn -[existsb].
      eapply remote_delete_run; eauto.
      apply Forall_app; split; auto. repeat constructor.
    - cbn. intros []. split; [reflexivity | ].
      apply remote_delete_rejected; auto. }
  cbn. intros []. split; [reflexivity | ].
  eapply remote_invalid; eauto.
Qed.

Arguments sync_block : simpl never.

Arguments remote_block : simpl never.

Arguments commit_block : simpl never.

Lemma reconcile_spec (repo : pyval) :
  wp (reconcile self repo)
     (fun tr r =>
        match repo_name_of repo with
        | Some name =>
            (r = Ok tt /\ reconcile_log self name tr) \/
            (exists msg, r = Err (Exception "OSError" msg) /\
                         reconcile_cut self name msg tr)
        | None => tr = [] /\ exists cls msg, r = Err (Exception cls msg)
        end).
Proof.
  unfold reconcile, repo_name_of.
  destruct repo as [ | b | z | f | s | b | b | items | entries]; cbn;
    try (split; [reflexivity | eexists; eexists; reflexivity]).
  destruct (dict_get "name" entries) as [v | ]; cbn;
    [ | split; [reflexivity | eexists; eexists; reflexivity]].
  destruct v as [ | b | z | f | name | b | b | items | entries']; cbn;
    try (split; [reflexivity | eexists; eexists; reflexivity]).
  intros [] dir.
  wp_call get_current_branch_spec.
  intros tr r (o & lines & -> & Hlines & ->).
  wp_call sync_block_spec.
  intros tr_sync r [[-> Hsync] | (msg & -> & ->)].
  - wp_call remote_block_spec.
    intros tr_remote r [-> Hremote].
    cbv beta iota.
    eapply wp_mono; [ | apply commit_block_spec ]. cbv beta.
    intros tr_commit r [-> Hcommit].
    left. split; [reflexivity | ].
    cbn. apply reconcile_steps; auto.
  - right. exists msg. split; [reflexivity | ].
    eexists; eexists; eexists; exists lines. split; [reflexivity | exact Hlines].
Qed.

Lemma process_repository_spec (repo : pyval) :
  wp (process_repository self repo)
     (fun tr r =>
        match repo_name_of repo with
        | Some name =>
            (r = Ok tt /\
             exists body, tr = EvAcquire :: body ++ [EvRelease] /\
                          reconcile_log self name body) \/
            (exists msg,
                r = Err (Exception "OSError" msg) /\ cut_short self name msg tr)
        | None =>
            tr = [EvAcquire; EvRelease] /\
            exists cls msg, r = Err (Exception cls msg)
        end).
Proof.
  unfold process_repository, async_with. cbn. intros [].
  apply wp_finally.
  eapply wp_mono; [ | apply reconcile_spec ]. cbv beta.
  intros tr r H. cbn. intros [].
  destruct (repo_name_of repo) as [name | ].
  - destruct H as [[-> H] | (msg & -> & (m & dir & o & lines & -> & Hl))].
    + left. split; [reflexivity | ]. exists tr. split; auto.
    + right. exists msg. split; [reflexivity | ].
      exists m, dir, o, lines. split; [ | exact Hl].
      cbn. rewrite <- app_assoc. reflexivity.
  - destruct H as [-> (cls & msg & ->)]. split; [reflexivity | eauto].
Qed.

End Blocks.

Lemma happens_before_skip (p q : event -> bool) (l l' : list event) :
  existsb p l = false -> existsb q l = false ->
  happens_before p q (l ++ l') = happens_before p q l'.
Proof.
  induction l as [ | ev l IH]; simpl; auto.
  intros Hp Hq.
  apply orb_false_elim in Hp. destruct Hp as [Hp1 Hp2].
  apply orb_false_elim in Hq. destruct Hq as [Hq1 Hq2].
  rewrite Hp1, Hq1. auto.
Qed.

Lemma happens_before_hit (p q : event -> bool) (l l' : list event) :
  happens_before p q l = true -> happens_before p q (l ++ l') = true.
Proof.
  induction l as [ | ev l IH]; simpl; [discriminate | ].
  destruct (q ev); [discriminate | ]. destruct (p ev); auto.
Qed.

Lemma only_not_present (pc : command -> Prop) (p : string) (tr : list event) :
  Forall (only pc) tr -> existsb (reports_present p) tr = false.
Proof.
  intros H. induction H as [ | ev tr Hev _ IH]; simpl; auto.
  rewrite IH, orb_false_r. destruct ev; simpl in *; auto; contradiction.
Qed.

Lemma only_not_origin {RT : Runtime} (pc : command -> Prop) (url : string)
    (tr : list event) :
  (forall c, pc c -> verb_of c <> RemoteGetUrl) ->
  Forall (only pc) tr -> existsb (reports_origin url) tr = false.
Proof.
  intros Hpc H. induction H as [ | ev tr Hev _ IH]; simpl; auto.
  rewrite IH, orb_false_r. destruct ev; simpl in *; auto.
  specialize (Hpc _ Hev). destruct (verb_of c); simpl; auto; congruence.
Qed.

Lemma runs_on_verb (vs : list verb) (f : verb -> bool) (tr : list event) :
  forallb (fun v => negb (f v)) vs = true ->
  Forall (runs vs) tr -> existsb (on_verb f) tr = false.
Proof.
  intros Hvs. apply only_on_verb. intros c Hc.
  unfold one_of in Hc. apply existsb_exists in Hc. destruct Hc as (v & Hin & Hv).
  rewrite forallb_forall in Hvs. specialize (Hvs v Hin).
  assert (verb_of c = v) as -> by (destruct (verb_of c), v; simpl in Hv; congruence).
  apply negb_true_iff. exact Hvs.
Qed.

Lemma runs_not_origin {RT : Runtime} (vs : list verb) (url : string)
    (tr : list event) :
  one_of vs RemoteGetUrl = false ->
  Forall (runs vs) tr -> existsb (reports_origin url) tr = false.
Proof.
  intros Hvs. apply only_not_origin. intros c Hc Hv. congruence.
Qed.

Lemma no_command_runs (vs : list verb) (tr : list event) :
  Forall (only (fun _ => False)) tr -> Forall (runs vs) tr.
Proof. apply only_weaken. contradiction. Qed.

Lemma checkout_log_runs (p target : string) (tr : list event) :
  checkout_log p target tr -> Forall (runs [Checkout; CheckoutNew]) tr.
Proof.
  intros (o & rest & -> & H). constructor; [reflexivity | ].
  eapply only_weaken; [ | exact H]. intros c ->. reflexivity.
Qed.

Lemma update_log_runs (p : string) (tr : list event) :
  update_log p tr -> Forall (runs [Fetch; RevParse; Pull]) tr.
Proof.
  intros (o & rest & -> & H). constructor; [reflexivity | ].
  eapply only_weaken; [ | exact H]. intros c [-> | (b & ->)]; reflexivity.
Qed.

Lemma clone_log_runs (org name p : string) (tr : list event) :
  clone_log org name p tr -> Forall (runs [Clone]) tr.
Proof.
  intros (o & rest & -> & H). constructor; [reflexivity | ].
  apply no_command_runs. exact H.
Qed.

Section Footprints.
Context {RT : Runtime}.
Variable self : ProjectInitializer.

Lemma remote_log_runs (name p : string) (tr : list event) :
  remote_log self name p tr ->
  Forall (runs [RemoteAdd; RemoteSetUrl; RemoteRemove]) tr.
Proof.
  intros H. destruct H;
    repeat (apply Forall_cons || apply Forall_nil); simpl; auto;
    apply no_command_runs; assumption.
Qed.

Lemma commit_log_runs (name p : string) (tr : list event) :
  commit_log self name p tr -> Forall (runs [Stage; Commit]) tr.
Proof.
  intros H. destruct H; [constructor | ].
  repeat (apply Forall_cons || apply Forall_nil); simpl; auto.
  apply Forall_app. split; [ | repeat constructor].
  eapply only_weaken; [ | eassumption]. intros c ->. reflexivity.
Qed.

End Footprints.

Ltac quiet_segments :=
  repeat match goal with
         | H : checkout_log _ _ ?tr |- _ =>
             apply checkout_log_runs in H
         | H : update_log _ ?tr |- _ => apply update_log_runs in H
         | H : clone_log _ _ _ ?tr |- _ => apply clone_log_runs in H
         | H : remote_log _ _ _ ?tr |- _ => apply remote_log_runs in H
         | H : commit_log _ _ _ ?tr |- _ => apply commit_log_runs in H
         | H : Forall (only (fun _ => False)) ?tr |- _ =>
             apply (no_command_runs []) in H
         end.

Ltac absent :=
  match goal with
  | H : Forall (runs _) ?tr |- existsb _ ?tr = false =>
      unfold is_checkout, is_fetch, is_pull, is_remote_operation, is_commit;
      refine (runs_on_verb _ _ H); reflexivity
  end.

Section Order.
Context {RT : Runtime}.
Variable self : ProjectInitializer.

Lemma sync_log_present (org name p expected target : string) (tr : list event) :
  sync_log org name p expected target tr ->
  existsb (reports_present p) tr = true ->
  existsb (reports_origin expected) tr = true ->
  exists o tr_co tr_up m1 m2 m3 m4,
    tr = EvExists p (inl true) :: EvPrint m1 :: EvExec (cmd_get_url p) o :: EvPrint m2
           :: tr_co ++ EvPrint m3 :: tr_up ++ [EvPrint m4] /\
    origin_reading o = Some expected /\
    checkout_log p target tr_co /\ update_log p tr_up.
Proof.
  intros Hlog Hpresent Horigin.
  destruct Hlog as [o tr_co tr_up m1 m2 m3 m4 Ho Hco Hup
                   | o m1 m2 m3 m4 Ho
                   | tr_clone tr_co m1 m2 m3 Hclone Hraised Hco
                   | tr_clone m1 m2 Hclone Hraised].
  - exists o, tr_co, tr_up, m1, m2, m3, m4. auto.
  - exfalso. simpl in Horigin. rewrite !orb_false_r in Horigin.
    destruct (origin_reading o) as [url | ]; [ | discriminate].
    apply String.eqb_eq in Horigin. congruence.
  - exfalso. quiet_segments. simpl in Hpresent.
    rewrite !existsb_app in Hpresent. simpl in Hpresent.
    rewrite !existsb_app in Hpresent. simpl in Hpresent.
    rewrite (only_not_present p Hclone), (only_not_present p Hco) in Hpresent.
    discriminate.
  - exfalso. quiet_segments. simpl in Hpresent.
    rewrite !existsb_app in Hpresent. simpl in Hpresent.
    rewrite (only_not_present p Hclone) in Hpresent.
    discriminate.
Qed.

End Order.

Lemma sync_log_on_verb {RT : Runtime} (org name p expected target : string)
    (f : verb -> bool) (tr : list event) :
  forallb (fun v => negb (f v)) sync_verbs = true ->
  sync_log org name p expected target tr ->
  existsb (on_verb f) tr = false.
Proof.
  intros Hf Hlog. simpl in Hf.
  repeat (apply andb_prop in Hf; destruct Hf as [?Hv Hf]).
  repeat match goal with H : negb _ = true |- _ => apply negb_true_iff in H end.
  assert (Hco : forall l, checkout_log p target l -> existsb (on_verb f) l = false).
  { intros l Hl. apply checkout_log_runs in Hl.
    refine (runs_on_verb _ _ Hl). simpl. rewrite Hv0, Hv1. reflexivity. }
  assert (Hup : forall l, update_log p l -> existsb (on_verb f) l = false).
  { intros l Hl. apply update_log_runs in Hl.
    refine (runs_on_verb _ _ Hl). simpl. rewrite Hv2, Hv3, Hv4. reflexivity. }
  assert (Hcl : forall l, clone_log org name p l -> existsb (on_verb f) l = false).
  { intros l Hl. apply clone_log_runs in Hl.
    refine (runs_on_verb _ _ Hl). simpl. rewrite Hv5. reflexivity. }
  destruct Hlog; simpl; rewrite ?existsb_app; simpl; rewrite ?existsb_app; simpl;
    try change (verb_of (cmd_get_url p)) with RemoteGetUrl;
    rewrite ?Hv;
    repeat match goal with
           | H : checkout_log _ _ ?l |- _ => rewrite (Hco l H); clear H
           | H : update_log _ ?l |- _ => rewrite (Hup l H); clear H
           | H : clone_log _ _ _ ?l |- _ => rewrite (Hcl l H); clear H
           end;
    reflexivity.
Qed.


(** ** A reconciliation cut short by its existence test *)


Section Cut.
Context {RT : Runtime}.
Variable self : ProjectInitializer.

Lemma cut_short_on_verb (f : verb -> bool) (name msg : string) (tr : list event) :
  f RevParse = false -> cut_short self name msg tr -> existsb (on_verb f) tr = false.
Proof.
  intros Hf (m & dir & o & lines & -> & Hlines).
  cbn [existsb on_verb]. change (verb_of (cmd_rev_parse dir)) with RevParse.
  rewrite Hf, existsb_app,
    (@only_on_verb (fun _ => False) f lines (fun c H => match H with end) Hlines).
  reflexivity.
Qed.

Lemma cut_short_not_present (p name msg : string) (tr : list event) :
  cut_short self name msg tr -> existsb (reports_present p) tr = false.
Proof.
  intros (m & dir & o & lines & -> & Hlines).
  cbn [existsb reports_present]. rewrite existsb_app, (only_not_present p Hlines).
  reflexivity.
Qed.





End Cut.

(** ** What one reconciliation does, against any environment *)

Section Reconciliation.
Context {RT : Runtime} {W : Type} {WD : World W}.
Variable self : ProjectInitializer.

(** A reconciliation either runs its three steps and returns, or ends
    where the existence test of the repository path raises. *)
Lemma process_repository_trace (repo : pyval) (name : string) (w : W) :
  repo_name_of repo = Some name ->
  (result_of (process_repository self repo) w = Ok tt /\
   exists m dir o lines tr_sync tr_remote tr_commit,
     trace_of (process_repository self repo) w =
       EvAcquire :: EvPrint m :: EvGetcwd dir :: EvExec (cmd_rev_parse dir) o
         :: (lines ++ tr_sync ++ tr_remote ++ tr_commit) ++ [EvRelease] /\
     Forall (only (fun _ => False)) lines /\
     sync_log (repo_org self) name (repo_path_of self name)
              (expected_origin (repo_org self) name) (branch_reading o) tr_sync /\
     remote_log self name (repo_path_of self name) tr_remote /\
     commit_log self name (repo_path_of self name) tr_commit) \/
  (exists msg,
      result_of (process_repository self repo) w = Err (Exception "OSError" msg) /\
      cut_short self name msg (trace_of (process_repository self repo) w)).
Proof.
  intros Hname.
  pose proof (wp_sound (process_repository self repo) _ w
                (process_repository_spec self repo)) as H.
  cbv beta in H. rewrite Hname in H.
  destruct H as [[Hr (body & Htr & Hbody)] | (msg & Hr & Hcut)].
  - left. split; [exact Hr | ].
    destruct Hbody as [dir o lines tr_sync tr_remote tr_commit m Hl Hs Hrm Hc].
    exists m, dir, o, lines, tr_sync, tr_remote, tr_commit.
    rewrite Htr. auto.
  - right. exists msg. auto.
Qed.

(** C1 (as amended).  When the local path of a repository exists and its
    origin is the expected URL, [process_repository] first attempts the
    checkout of the target branch, creating it if that raises, and only
    then runs [update_repository]: the fetch comes after the checkout
    attempt, and the pull after the fetch. *)
Theorem checkout_precedes_update (repo : pyval) (name : string) (w : W) :
  repo_name_of repo = Some name ->
  existsb (reports_present (repo_path_of self name))
          (trace_of (process_repository self repo) w) = true ->
  existsb (reports_origin (expected_origin (repo_org self) name))
          (trace_of (process_repository self repo) w) = true ->
  happens_before is_checkout is_fetch
                 (trace_of (process_repository self repo) w) = true /\
  happens_before is_fetch is_pull
                 (trace_of (process_repository self repo) w) = true.
Proof.
  intros Hname.
  destruct (process_repository_trace repo w Hname)
    as [(_ & m & dir & o & lines & tr_sync & tr_remote & tr_commit
         & -> & Hlines & Hsync & Hremote & Hcommit)
       | (msg & _ & Hcut)];
    [ | intros Hpresent; rewrite (cut_short_not_present _ Hcut) in Hpresent;
        discriminate].
  intros Hpresent Horigin.
  quiet_segments.
  assert (Hsync_present :
            existsb (reports_present (repo_path_of self name)) tr_sync = true).
  { simpl in Hpresent. rewrite !existsb_app in Hpresent.
    rewrite (only_not_present _ Hlines), (only_not_present _ Hremote),
      (only_not_present _ Hcommit) in Hpresent.
    simpl in Hpresent. rewrite !orb_false_r in Hpresent. exact Hpresent. }
  assert (Hsync_origin :
            existsb (reports_origin (expected_origin (repo_org self) name))
                    tr_sync = true).
  { simpl in Horigin. rewrite !existsb_app in Horigin.
    rewrite (runs_not_origin (vs := []) _ eq_refl Hlines),
      (runs_not_origin (vs := [RemoteAdd; RemoteSetUrl; RemoteRemove]) _
         eq_refl Hremote),
      (runs_not_origin (vs := [Stage; Commit]) _ eq_refl Hcommit) in Horigin.
    simpl in Horigin. rewrite !orb_false_r in Horigin. exact Horigin. }
  destruct (sync_log_present Hsync Hsync_present Hsync_origin)
    as (o1 & tr_co & tr_up & m1 & m2 & m3 & m4 & -> & Ho1 & Hco & Hup).
  destruct Hco as (oc & rest_co & -> & Hrest_co).
  destruct Hup as (ou & rest_up & -> & Hrest_up).
  assert (Hco : Forall (runs [Checkout; CheckoutNew]) rest_co).
  { eapply only_weaken; [ | exact Hrest_co]. intros c ->. reflexivity. }
  split.
  - simpl. rewrite <- !app_assoc.
    rewrite happens_before_skip by absent.
    reflexivity.
  - simpl. rewrite <- !app_assoc.
    rewrite happens_before_skip by absent.
    simpl. rewrite <- !app_assoc.
    rewrite happens_before_skip by absent.
    reflexivity.
Qed.

Lemma excluded_remote_log (name p : string) (tr : list event) :
  excluded self name = true -> remote_log self name p tr -> tr = [].
Proof.
  intros Hx H. destruct H; auto; congruence.
Qed.

Lemma excluded_commit_log (name p : string) (tr : list event) :
  excluded self name = true -> commit_log self name p tr -> tr = [].
Proof.
  intros Hx H. destruct H; auto; congruence.
Qed.

(** The events of the optional steps, seen in the whole trace: a verb that
    is none of the synchronisation verbs occurs in the trace exactly when
    it occurs in the remote part or in the commit part. *)
Lemma optional_events (f : verb -> bool) (org name p expected target : string)
    (m dir : string) (o : outcome)
    (lines tr_sync tr_remote tr_commit : list event) :
  forallb (fun v => negb (f v)) sync_verbs = true ->
  Forall (only (fun _ => False)) lines ->
  sync_log org name p expected target tr_sync ->
  existsb (on_verb f)
    (EvAcquire :: EvPrint m :: EvGetcwd dir :: EvExec (cmd_rev_parse dir) o
       :: (lines ++ tr_sync ++ tr_remote ++ tr_commit) ++ [EvRelease])
  = existsb (on_verb f) tr_remote || existsb (on_verb f) tr_commit.
Proof.
  intros Hf Hlines Hsync.
  simpl. rewrite !existsb_app.
  rewrite (sync_log_on_verb f Hf Hsync).
  apply (no_command_runs []) in Hlines.
  rewrite (runs_on_verb (vs := []) f eq_refl Hlines).
  change (verb_of (cmd_rev_parse dir)) with RevParse.
  simpl in Hf.
  repeat (apply andb_prop in Hf; destruct Hf as [?Hv Hf]).
  apply negb_true_iff in Hv3. rewrite Hv3. simpl.
  rewrite orb_false_r. reflexivity.
Qed.

(** C2.  A repository whose name is in [excluded_repos] gets no remote
    operation and no commit, whatever operation and commit message the run
    was given: both optional steps test the name first and do nothing. *)
Theorem excluded_repository_untouched (repo : pyval) (name : string) (w : W) :
  repo_name_of repo = Some name ->
  str_in name (excluded_repos self) = true ->
  existsb is_remote_operation (trace_of (process_repository self repo) w) = false /\
  existsb is_commit (trace_of (process_repository self repo) w) = false /\
  (forall p, remote_block self name p = Ret tt) /\
  (forall p, commit_block self name p = Ret tt).
Proof.
  intros Hname Hx.
  assert (Hblocks : (forall p, remote_block self name p = Ret tt) /\
                    (forall p, commit_block self name p = Ret tt)).
  { split.
    - intros p. unfold remote_block. rewrite Hx, andb_false_r. reflexivity.
    - intros p. unfold commit_block. rewrite Hx, andb_false_r. reflexivity. }
  destruct (process_repository_trace repo w Hname)
    as [(_ & m & dir & o & lines & tr_sync & tr_remote & tr_commit
         & -> & Hlines & Hsync & Hremote & Hcommit)
       | (msg & _ & Hcut)].
  - apply (excluded_remote_log Hx) in Hremote.
    apply (excluded_commit_log Hx) in Hcommit.
    subst tr_remote tr_commit.
    unfold is_remote_operation, is_commit.
    rewrite (optional_events (one_of [RemoteAdd; RemoteSetUrl; RemoteRemove])
               m dir o [] [] eq_refl Hlines Hsync).
    rewrite (optional_events (one_of [Stage; Commit])
               m dir o [] [] eq_refl Hlines Hsync).
    repeat split; apply Hblocks.
  - unfold is_remote_operation, is_commit.
    rewrite (cut_short_on_verb (one_of [RemoteAdd; RemoteSetUrl; RemoteRemove])
               eq_refl Hcut),
      (cut_short_on_verb (one_of [Stage; Commit]) eq_refl Hcut).
    repeat split; apply Hblocks.
Qed.

Lemma given_truthy (field : option string) (value : string) :
  given field value -> truthy field = true.
Proof.
  intros [-> Hne]. destruct value; [congruence | reflexivity].
Qed.

Lemma lines_on_verb (f : verb -> bool) (lines : list event) :
  Forall (only (fun _ => False)) lines -> existsb (on_verb f) lines = false.
Proof.
  intros H. apply (no_command_runs []) in H.
  exact (runs_on_verb (vs := []) f eq_refl H).
Qed.




Lemma in_only {pc : command -> Prop} {c : command} {o : outcome}
    {tr : list event} :
  Forall (only pc) tr -> In (EvExec c o) tr -> pc c.
Proof.
  intros H Hin. rewrite Forall_forall in H. exact (H _ Hin).
Qed.



Lemma sync_log_checkouts (org name p expected target : string)
    (tr : list event) (c : command) (o : outcome) :
  sync_log org name p expected target tr ->
  In (EvExec c o) tr ->
  one_of [Checkout; CheckoutNew] (verb_of c) = true ->
  c = cmd_checkout p target \/ c = cmd_checkout_new p target.
Proof.
  intros Hlog Hin Hv.
  assert (Hco : forall l, checkout_log p target l -> In (EvExec c o) l ->
                          c = cmd_checkout p target \/ c = cmd_checkout_new p target).
  { intros l (o1 & rest & -> & Hrest) [Hl | Hl].
    - injection Hl as <- _. auto.
    - right. exact (in_only Hrest Hl). }
  assert (Hup : forall l, update_log p l -> In (EvExec c o) l -> False).
  { intros l Hl Hi. apply update_log_runs in Hl.
    pose proof (in_only Hl Hi) as Hc. simpl in Hc.
    destruct (verb_of c); discriminate. }
  assert (Hcl : forall l, clone_log org name p l -> In (EvExec c o) l -> False).
  { intros l Hl Hi. apply clone_log_runs in Hl.
    pose proof (in_only Hl Hi) as Hc. simpl in Hc.
    destruct (verb_of c); discriminate. }
  destruct Hlog; simpl in Hin; rewrite ?in_app_iff in Hin; simpl in Hin;
    rewrite ?in_app_iff in Hin; simpl in Hin;
    repeat match goal with
           | H : _ \/ _ |- _ => destruct H as [H | H]
           | H : False |- _ => destruct H
           | H : EvPrint _ = EvExec _ _ |- _ => discriminate H
           | H : EvExists _ _ = EvExec _ _ |- _ => discriminate H
           | H : EvExec (cmd_get_url _) _ = EvExec _ _ |- _ =>
               injection H as <- _; discriminate Hv
           end;
    eauto; exfalso; eauto.
Qed.

(** C7 (as amended).  The branch handed to every checkout of a
    reconciliation is what [get_current_branch] made of the answer to
    [git rev-parse --abbrev-ref HEAD], asked in the directory [os.getcwd]
    returned, for this reconciliation: the stripped output, or ["main"]
    when the query raised or its output is not text.  The descriptor only
    contributes the path; it has no say in the branch. *)
Theorem target_branch_from_workspace (repo : pyval) (name : string) (w : W) :
  repo_name_of repo = Some name ->
  exists m dir o rest,
    trace_of (process_repository self repo) w =
      EvAcquire :: EvPrint m :: EvGetcwd dir :: EvExec (cmd_rev_parse dir) o :: rest /\
    forall c o',
      In (EvExec c o') rest ->
      one_of [Checkout; CheckoutNew] (verb_of c) = true ->
      c = cmd_checkout (repo_path_of self name) (branch_reading o) \/
      c = cmd_checkout_new (repo_path_of self name) (branch_reading o).
Proof.
  intros Hname.
  destruct (process_repository_trace repo w Hname)
    as [(_ & m & dir & o & lines & tr_sync & tr_remote & tr_commit
         & -> & Hlines & Hsync & Hremote & Hcommit)
       | (msg & _ & (m & dir & o & lines & -> & Hlines))].
  2: { exists m, dir, o. eexists. split; [reflexivity | ].
       intros c o' Hin Hv. apply in_app_or in Hin.
       destruct Hin as [Hin | [Hin | [Hin | []]]]; try discriminate Hin.
       destruct (in_only Hlines Hin). }
  exists m, dir, o. eexists. split; [reflexivity | ].
  intros c o' Hin Hv.
  apply remote_log_runs in Hremote. apply commit_log_runs in Hcommit.
  rewrite !in_app_iff in Hin. simpl in Hin.
  destruct Hin as [[Hin | [Hin | [Hin | Hin]]] | [Hin | []]];
    try discriminate Hin.
  - destruct (in_only Hlines Hin).
  - eapply sync_log_checkouts; eassumption.
  - pose proof (in_only Hremote Hin) as Hc. simpl in Hc.
    destruct (verb_of c); discriminate.
  - pose proof (in_only Hcommit Hin) as Hc. simpl in Hc.
    destruct (verb_of c); discriminate.
Qed.

End Reconciliation.

(** ** The exit status of a run *)

Arguments process_repository : simpl never.

Arguments gather : simpl nomatch.

Section Run.
Context {RT : Runtime}.
Variable self : ProjectInitializer.


Lemma wp_trivial {A : Type} (t : prog A) (Q : list event -> result A -> Prop) :
  (forall tr r, Q tr r) -> wp t Q.
Proof.
  revert Q. induction t as [a | e | X e k IH]; simpl; intros Q HQ; auto.
Qed.


End Run.

Lemma lines_not_reconciliation (lines : list event) :
  Forall (only (fun _ => False)) lines -> existsb is_reconciliation lines = false.
Proof.
  intros H. induction H as [ | ev tr Hev _ IH]; simpl; auto.
  rewrite IH, orb_false_r. destruct ev; simpl in *; auto; contradiction.
Qed.

Section RunAgainst.
Context {RT : Runtime} {W : Type} {WD : World W}.
Variable self : ProjectInitializer.


End RunAgainst.

(** ** The results of the methods *)

Section MethodResults.
Context {RT : Runtime} {W : Type} {WD : World W}.
Variable self : ProjectInitializer.

(** C4 (what the code does).  [checkout_branch] always starts with the
    plain checkout.  It goes on to create the branch from [origin/main]
    exactly when the spawn or the wait of that checkout raised, and answers
    [None] exactly when the creation raised as well.  A checkout that
    ends, with whatever exit status, is taken as done: nothing is created
    and the branch name is returned, also when git reported that the
    branch does not exist. *)
Theorem checkout_branch_outcomes (p branch : string) (w : W) :
  exists o rest,
    trace_of (checkout_branch p branch) w = EvExec (cmd_checkout p branch) o :: rest /\
    match o with
    | Exits _ _ _ =>
        rest = [] /\ result_of (checkout_branch p branch) w = Ok (Some branch)
    | _ =>
        exists o2 rest2,
          rest = EvExec (cmd_checkout_new p branch) o2 :: rest2 /\
          Forall (only (fun _ => False)) rest2 /\
          result_of (checkout_branch p branch) w =
            Ok (match o2 with Exits _ _ _ => Some branch | _ => None end)
    end.
Proof.
  apply (wp_sound (checkout_branch p branch)
           (fun tr r =>
              exists o rest,
                tr = EvExec (cmd_checkout p branch) o :: rest /\
                match o with
                | Exits _ _ _ => rest = [] /\ r = Ok (Some branch)
                | _ =>
                    exists o2 rest2,
                      rest = EvExec (cmd_checkout_new p branch) o2 :: rest2 /\
                      Forall (only (fun _ => False)) rest2 /\
                      r = Ok (match o2 with Exits _ _ _ => Some branch | _ => None end)
                end)).
  unfold checkout_branch. run_tree;
    eexists; eexists; (split; [reflexivity | ]); auto;
    eexists; eexists; (split; [reflexivity | ]); split; auto;
    repeat constructor.
Qed.

(** C9 (as amended).  [clone_repository], [commit_changes] and [add_remote]
    answer [True] exactly when no spawn and no wait raised, whatever the
    exit status of the commands; [update_repository] answers [True]
    exactly when, in addition, the output of its [git rev-parse] could be
    decoded.  The exit status of git never enters the result. *)
Theorem boolean_results_ignore_exit_status
    (repo_name p message rname url : string) (w : W) :
  result_of (clone_repository self repo_name p) w =
    Ok (negb (existsb raised (trace_of (clone_repository self repo_name p) w))) /\
  result_of (commit_changes p message) w =
    Ok (negb (existsb raised (trace_of (commit_changes p message) w))) /\
  result_of (add_remote p rname url) w =
    Ok (negb (existsb raised (trace_of (add_remote p rname url) w))) /\
  result_of (update_repository p) w =
    Ok (negb (existsb (fun ev => raised ev || undecodable ev)
                      (trace_of (update_repository p) w))).
Proof.
  repeat split.
  - apply (wp_sound _ (fun tr r => r = Ok (negb (existsb raised tr)))).
    eapply wp_mono; [ | apply clone_repository_spec]. intros tr r [_ H]. exact H.
  - apply (wp_sound _ (fun tr r => r = Ok (negb (existsb raised tr)))).
    eapply wp_mono; [ | apply commit_changes_spec]. intros tr r [_ H]. exact H.
  - apply (wp_sound _ (fun tr r => r = Ok (negb (existsb raised tr)))).
    eapply wp_mono; [ | apply add_remote_spec]. intros tr r [_ H]. exact H.
  - apply (wp_sound _ (fun tr r =>
             r = Ok (negb (existsb (fun ev => raised ev || undecodable ev) tr)))).
    eapply wp_mono; [ | apply update_repository_spec].
    intros tr r (o & rest & _ & _ & H). exact H.
Qed.

End MethodResults.

(** ** The constructor and the launcher *)

Section Constructor.
Context {RT : Runtime}.

(** C10 (as amended).  The constructor hands its [repositories] argument
    to [json.loads].  A value that is neither [str] nor [bytes] nor
    [bytearray], a list of descriptors in particular, makes it raise
    [TypeError] before anything else happens, and so does [main_async]
    when it is handed such a value; [bytes] and [bytearray] holding a
    JSON document are decoded and stored like a [str].  [main] itself
    does not get as far as the constructor: its configuration literal
    spells [true], which is a name that nothing binds, so evaluating the
    literal raises [NameError] before anything is printed or built. *)
Theorem init_requires_json_text
    (project_name repo_org : string) (catalog : pyval)
    (commit_message : option string) (excluded_repos : option (list string))
    (remote_operation remote_name remote_url : option string) :
  json_text catalog = false ->
  init project_name repo_org catalog commit_message excluded_repos
       remote_operation remote_name remote_url
    = Raise not_json_text_error /\
  (forall args, main_async args catalog = Raise not_json_text_error) /\
  (forall b text v,
      json_detect_decode b = inl text ->
      json_decoder text = inl v ->
      forall (W : Type) (WD : World W) (w : W),
        exists initializer,
          result_of (init project_name repo_org (PBytes b) commit_message
                          excluded_repos remote_operation remote_name remote_url) w
            = Ok initializer /\
          repositories initializer = v) /\
  (forall scope entries_after descriptors_after dumps args,
      scope "true" = None ->
      main scope entries_after descriptors_after dumps args
        = Raise (Exception "NameError" "name 'true' is not defined")).
Proof.
  intros Hcat. repeat split.
  - destruct catalog; try discriminate Hcat; reflexivity.
  - intros args. unfold main_async.
    destruct catalog; try discriminate Hcat; reflexivity.
  - intros b text v Hb Hv W WD w.
    unfold result_of, init. cbn. unfold json_decode_bytes. rewrite Hb.
    unfold json_decode_text. rewrite Hv. cbn.
    destruct (respond ResolveParent w) as [base w1].
    eexists. split; reflexivity.
  - intros scope entries_after descriptors_after dumps args Hname.
    unfold main, evaluate, config_literal. cbn [eval]. rewrite Hname. reflexivity.
Qed.

End Constructor.

(** ** The footprint of a reconciliation and of a run *)

Lemma only_forall (pc : command -> Prop) (P : event -> Prop) (tr : list event) :
  (forall c o, pc c -> P (EvExec c o)) ->
  (forall m, P (EvPrint m)) ->
  Forall (only pc) tr -> Forall P tr.
Proof.
  intros Hexec Hprint. apply Forall_impl.
  intros [c o | m | p b | p | p | p f | | ]; simpl; auto; contradiction.
Qed.

Ltac split_forall :=
  repeat match goal with
         | |- Forall _ (_ :: _) => apply Forall_cons
         | |- Forall _ (_ ++ _) => apply Forall_app; split
         | |- Forall _ [] => apply Forall_nil
         end.

Section FootprintFacts.
Context {RT : Runtime}.
Variable self : ProjectInitializer.

Lemma sync_log_footprint (name expected target : string) (tr : list event) :
  sync_log (repo_org self) name (repo_path_of self name) expected target tr ->
  Forall (reconcile_event self name) tr.
Proof.
  intros H.
  assert (Hco : forall l, checkout_log (repo_path_of self name) target l ->
                          Forall (reconcile_event self name) l).
  { intros l (o & rest & -> & Hrest). constructor.
    - simpl. right. left. unfold sync_command. eauto 10.
    - eapply only_forall; [ | | exact Hrest]; simpl; auto.
      intros c o' ->. right. left. unfold sync_command. eauto 10. }
  assert (Hup : forall l, update_log (repo_path_of self name) l ->
                          Forall (reconcile_event self name) l).
  { intros l (o & rest & -> & Hrest). constructor.
    - simpl. right. left. unfold sync_command. auto.
    - eapply only_forall; [ | | exact Hrest]; simpl; auto.
      intros c o' [-> | (b & ->)]; right; left; unfold sync_command; eauto 10. }
  assert (Hcl : forall l, clone_log (repo_org self) name (repo_path_of self name) l ->
                          Forall (reconcile_event self name) l).
  { intros l (o & rest & -> & Hrest). constructor.
    - simpl. right. left. unfold sync_command. auto 10.
    - eapply only_forall; [ | | exact Hrest]; simpl; auto. contradiction. }
  destruct H; split_forall; simpl; auto.
  all: right; left; unfold sync_command; auto.
Qed.

Lemma remote_log_footprint (name : string) (tr : list event) :
  remote_log self name (repo_path_of self name) tr ->
  Forall (reconcile_event self name) tr.
Proof.
  intros H.
  assert (Hlines : forall l, Forall (only (fun _ => False)) l ->
                             Forall (reconcile_event self name) l).
  { intros l Hl. eapply only_forall; [ | | exact Hl]; simpl; auto. contradiction. }
  destruct H as [Hs
                | rname base o rest m Hx Hop Hn Hu Hrest
                | m Hx Hop Hmiss
                | rname base o rest m Hx Hop Hn Hu Hrest
                | m Hx Hop Hmiss
                | rname o rest m Hx Hop Hn Hrest
                | m Hx Hop Hmiss
                | operation m m' Hx Hop H1 H2 H3];
    split_forall; simpl; auto.
  - right. right. left. split; [exact Hx | ]. exists rname. split; [exact Hn | ].
    right. exists base. split; [exact Hu | ]. left. auto.
  - right. right. left. split; [exact Hx | ]. exists rname. split; [exact Hn | ].
    right. exists base. split; [exact Hu | ]. right. auto.
  - right. right. left. split; [exact Hx | ]. exists rname. split; [exact Hn | ].
    left. auto.
Qed.

Lemma commit_log_footprint (name : string) (tr : list event) :
  commit_log self name (repo_path_of self name) tr ->
  Forall (reconcile_event self name) tr.
Proof.
  intros H. destruct H as [Hs | message o rest m m' Hx Hm Hrest]; [constructor | ].
  split_forall; simpl; auto.
  - right. right. right. split; [exact Hx | ]. exists message. auto.
  - eapply only_forall; [ | | exact Hrest]; simpl; auto.
    intros c o' ->. right. right. right. split; [exact Hx | ]. exists message. auto.
Qed.

Lemma reconcile_log_footprint (name : string) (tr : list event) :
  reconcile_log self name tr -> Forall (reconcile_event self name) tr.
Proof.
  intros H. destruct H as [dir o lines tr_sync tr_remote tr_commit m Hl Hs Hr Hc].
  split_forall; simpl; eauto.
  - eapply only_forall; [ | | exact Hl]; simpl; auto. contradiction.
  - exact (sync_log_footprint Hs).
  - exact (remote_log_footprint Hr).
  - exact (commit_log_footprint Hc).
Qed.

Lemma process_repository_events (repo : pyval) :
  wp (process_repository self repo) (fun tr _ => Forall (repo_event self repo) tr).
Proof.
  eapply wp_mono; [ | apply process_repository_spec]. cbv beta.
  intros tr r H. unfold repo_event.
  destruct (repo_name_of repo) as [name | ].
  - destruct H as [[_ (body & -> & Hbody)]
                  | (msg & _ & (m & dir & o & lines & -> & Hlines))].
    + split_forall; simpl; auto.
      exact (reconcile_log_footprint Hbody).
    + split_forall; simpl; eauto.
      eapply only_forall; [ | | exact Hlines]; simpl; auto. contradiction.
  - destruct H as [-> _]. split_forall; auto.
Qed.

End FootprintFacts.

Section RunFacts.
Context {RT : Runtime}.
Variable self : ProjectInitializer.

Lemma iterate_items (catalog : pyval) :
  iterate catalog =
    if iterable catalog then Ret (catalog_items catalog)
    else Raise (Exception "TypeError" "object is not iterable").
Proof. destruct catalog; reflexivity. Qed.

Lemma gather_events (repos : list pyval) :
  wp (gather (map (process_repository self) repos))
     (fun tr _ => Forall (fun ev => exists repo, In repo repos /\
                                                 repo_event self repo ev) tr).
Proof.
  induction repos as [ | repo repos IH]; cbn [gather map]; [constructor | ].
  wp_call process_repository_events.
  intros tr r Htr.
  assert (Hhere : Forall (fun ev => exists repo0, In repo0 (repo :: repos) /\
                                                  repo_event self repo0 ev) tr).
  { eapply Forall_impl; [ | exact Htr]. intros ev Hev. exists repo. simpl. auto. }
  destruct r as [[] | e]; [ | exact Hhere].
  eapply wp_mono; [ | exact IH]. cbv beta.
  intros tr' r' Htr'. apply Forall_app. split; [exact Hhere | ].
  eapply Forall_impl; [ | exact Htr'].
  intros ev (repo0 & Hin & Hev). exists repo0. simpl. auto.
Qed.

(** The shape of every trace of [run]: the banner, the creation of the
    base directory, the access check, and only then the reconciliations
    of the descriptors of the catalog. *)
Lemma run_shape :
  wp (run self)
     (fun tr r =>
        exists m failure rest,
          tr = EvPrint m :: EvMakedirs (base_dir self) failure :: rest /\
          match failure with
          | Some msg => rest = [] /\ r = Err (Exception "OSError" msg)
          | None =>
              exists m' o lines rest',
              rest = EvPrint m' :: EvExec cmd_ssh o :: lines ++ rest' /\
              Forall (only (fun _ => False)) lines /\
              if ssh_reading o
              then Forall (catalog_event self) rest' /\
                   (iterable (repositories self) = false ->
                    r = Err (Exception "TypeError" "object is not iterable") /\
                    exists m1, rest' = [EvPrint m1]) /\
                   (iterable (repositories self) = true ->
                    catalog_items (repositories self) = [] ->
                    r = Ok tt /\ exists m1 m2, rest' = [EvPrint m1; EvPrint m2])
              else (exists m1 m2, rest' = [EvPrint m1; EvPrint m2]) /\
                   r = Err (SystemExit 1)
          end).
Proof.
  unfold run. cbn. intros [] [msg | ]; cbn.
  - eexists; eexists; eexists. split; [reflexivity | ]. cbn. auto.
  - intros [].
    wp_call verify_git_ssh_spec.
    intros tr r (o & lines & -> & Hlines & ->).
    destruct (ssh_reading o) eqn:Hssh; cbn.
    + intros []. rewrite iterate_items.
      destruct (iterable (repositories self)) eqn:Hit; cbn.
      * destruct (catalog_items (repositories self)) as [ | repo repos] eqn:Hitems.
        -- cbn. intros [].
           eexists; eexists; eexists. split; [reflexivity | ].
           eexists; eexists; exists lines; eexists.
           split; [reflexivity | ]. split; [exact Hlines | ].
           rewrite Hssh. split; [repeat constructor | ].
           split; [discriminate | eauto].
        -- wp_call (gather_events (repo :: repos)).
           intros tr r Htr.
           assert (Hcat : Forall (catalog_event self) tr).
           { eapply Forall_impl; [ | exact Htr]. intros ev Hev.
             unfold catalog_event. rewrite Hitems. destruct ev; auto. }
           destruct r as [[] | e]; cbn; [intros [] | ];
             (eexists; eexists; eexists; (split; [reflexivity | ]);
              eexists; eexists; exists lines; eexists;
              (split; [reflexivity | ]); (split; [exact Hlines | ]);
              rewrite Hssh; split; [ | split; discriminate]).
           ++ constructor; [exact I | ]. apply Forall_app. split; [exact Hcat | ].
              repeat constructor.
           ++ constructor; [exact I | ]. exact Hcat.
      * eexists; eexists; eexists. split; [reflexivity | ].
        eexists; eexists; exists lines; eexists.
        split; [reflexivity | ]. split; [exact Hlines | ].
        rewrite Hssh. split; [repeat constructor | ].
        split; [eauto | discriminate].
    + intros [] [].
      eexists; eexists; eexists. split; [reflexivity | ].
      eexists; eexists; exists lines; eexists.
      split; [reflexivity | ]. split; [exact Hlines | ].
      rewrite Hssh. split; [eauto | reflexivity].
Qed.

End RunFacts.

(** ** Refinements of the parts of a reconciliation *)

Lemma wp_both {A : Type} (t : prog A) :
  forall (Q1 Q2 : list event -> result A -> Prop),
    wp t Q1 -> wp t Q2 -> wp t (fun tr r => Q1 tr r /\ Q2 tr r).
Proof.
  induction t as [a | e | X e k IH]; simpl; intros Q1 Q2 H1 H2; auto.
Qed.

Section Refinement.
Context {RT : Runtime}.
Variable self : ProjectInitializer.

Lemma reconcile_segments (repo : pyval) (name : string)
    (S R C : list event -> Prop) :
  repo_name_of repo = Some name ->
  (forall target,
      wp (sync_block self name (repo_path_of self name)
                     (expected_origin (repo_org self) name) target)
         (fun tr _ => S tr)) ->
  wp (remote_block self name (repo_path_of self name)) (fun tr _ => R tr) ->
  wp (commit_block self name (repo_path_of self name)) (fun tr _ => C tr) ->
  wp (reconcile self repo)
     (fun tr r =>
        (r = Ok tt /\
         exists m dir o lines tr_sync tr_remote tr_commit,
           tr = EvPrint m :: EvGetcwd dir :: EvExec (cmd_rev_parse dir) o
                  :: lines ++ tr_sync ++ tr_remote ++ tr_commit /\
           Forall (only (fun _ => False)) lines /\
           (sync_log (repo_org self) name (repo_path_of self name)
                     (expected_origin (repo_org self) name) (branch_reading o) tr_sync /\
            S tr_sync) /\
           (remote_log self name (repo_path_of self name) tr_remote /\ R tr_remote) /\
           (commit_log self name (repo_path_of self name) tr_commit /\ C tr_commit)) \/
        (exists msg, r = Err (Exception "OSError" msg) /\
                     reconcile_cut self name msg tr)).
Proof.
  intros Hname HS HR HC.
  unfold reconcile. unfold repo_name_of in Hname.
  destruct repo as [ | b | z | f | s | b | b | items | entries];
    try discriminate Hname.
  cbn -[sync_block remote_block commit_block].
  destruct (dict_get "name" entries) as [v | ]; [ | discriminate Hname].
  destruct v as [ | b | z | f | s | b | b | items | entries'];
    try discriminate Hname.
  injection Hname as ->. cbn -[sync_block remote_block commit_block].
  intros [] dir.
  wp_call get_current_branch_spec.
  intros tr r (o & lines & -> & Hlines & ->).
  cbv beta iota. apply wp_bind.
  eapply wp_mono;
    [ | apply (wp_both _ _ _ (sync_block_spec self name _ _ (branch_reading o))
                              (HS (branch_reading o)))].
  cbv beta. intros tr_sync r [[[-> Hsync] | (msg & -> & ->)] HSs].
  - cbv beta iota. apply wp_bind.
    eapply wp_mono; [ | apply (wp_both _ _ _ (remote_block_spec self name _) HR)].
    cbv beta. intros tr_remote r [[-> Hremote] HRr].
    cbv beta iota.
    eapply wp_mono; [ | apply (wp_both _ _ _ (commit_block_spec self name _) HC)].
    cbv beta. intros tr_commit r [[-> Hcommit] HCc].
    left. split; [reflexivity | ].
    exists (nl ++ "Processing repository: " ++ name)%string, dir, o, lines,
      tr_sync, tr_remote, tr_commit.
    repeat split; auto.
  - right. exists msg. split; [reflexivity | ].
    eexists; eexists; eexists; exists lines. split; [reflexivity | exact Hlines].
Qed.

(** Whatever holds of the three parts of [process_repository] on their own
    holds of the corresponding segments of its trace. *)
Lemma process_repository_segments (repo : pyval) (name : string)
    (S R C : list event -> Prop) :
  repo_name_of repo = Some name ->
  (forall target,
      wp (sync_block self name (repo_path_of self name)
                     (expected_origin (repo_org self) name) target)
         (fun tr _ => S tr)) ->
  wp (remote_block self name (repo_path_of self name)) (fun tr _ => R tr) ->
  wp (commit_block self name (repo_path_of self name)) (fun tr _ => C tr) ->
  wp (process_repository self repo)
     (fun tr r =>
        (r = Ok tt /\
         exists m dir o lines tr_sync tr_remote tr_commit,
           tr = EvAcquire :: EvPrint m :: EvGetcwd dir :: EvExec (cmd_rev_parse dir) o
                  :: (lines ++ tr_sync ++ tr_remote ++ tr_commit) ++ [EvRelease] /\
           Forall (only (fun _ => False)) lines /\
           (sync_log (repo_org self) name (repo_path_of self name)
                     (expected_origin (repo_org self) name) (branch_reading o) tr_sync /\
            S tr_sync) /\
           (remote_log self name (repo_path_of self name) tr_remote /\ R tr_remote) /\
           (commit_log self name (repo_path_of self name) tr_commit /\ C tr_commit)) \/
        (exists msg, r = Err (Exception "OSError" msg) /\ cut_short self name msg tr)).
Proof.
  intros Hname HS HR HC.
  unfold process_repository, async_with. cbn. intros [].
  apply wp_finally.
  eapply wp_mono; [ | apply (@reconcile_segments repo name S R C Hname HS HR HC) ]. cbv beta.
  intros tr r [[-> (m & dir & o & lines & ts & trm & tc & -> & H)]
              | (msg & -> & (m & dir & o & lines & -> & Hl))];
    cbn; intros [].
  - left. split; [reflexivity | ].
    exists m, dir, o, lines, ts, trm, tc. split; [reflexivity | exact H].
  - right. exists msg. split; [reflexivity | ].
    exists m, dir, o, lines. split; [ | exact Hl].
    rewrite <- app_assoc. reflexivity.
Qed.

End Refinement.

(** ** What a reconciliation and a run may do at all *)

Lemma forall_not_exists (P : event -> Prop) (f : event -> bool) (tr : list event) :
  (forall ev, P ev -> f ev = false) -> Forall P tr -> existsb f tr = false.
Proof.
  intros HP H. induction H as [ | ev tr Hev _ IH]; simpl; auto.
  rewrite IH, (HP ev Hev). reflexivity.
Qed.

Section Commands.
Context {RT : Runtime}.
Variable self : ProjectInitializer.

Lemma sync_command_verb (name : string) (c : command) :
  sync_command self name c -> one_of sync_verbs (verb_of c) = true.
Proof.
  intros [-> | [-> | [-> | [(b & ->) | [(b & ->) | [(b & ->) | ->]]]]]];
    reflexivity.
Qed.

Lemma remote_command_verb (name : string) (c : command) :
  remote_command self name c ->
  one_of [RemoteAdd; RemoteSetUrl; RemoteRemove] (verb_of c) = true /\
  excluded self name = false /\ cwd c = Some (repo_path_of self name) /\
  truthy (remote_operation self) = true.
Proof.
  intros (Hx & rname & Hn & [[Hop ->] | (base & Hu & [[Hop ->] | [Hop ->]])]);
    rewrite Hop; repeat split; auto.
Qed.

Lemma commit_command_verb (name : string) (c : command) :
  commit_command self name c ->
  one_of [Stage; Commit] (verb_of c) = true /\
  excluded self name = false /\ cwd c = Some (repo_path_of self name) /\
  truthy (commit_message self) = true.
Proof.
  intros (Hx & message & Hm & [-> | ->]);
    rewrite (given_truthy Hm); repeat split; auto.
Qed.

(** Where a command of a run comes from. *)
Lemma run_event_command (c : command) (o : outcome) :
  run_event self (EvExec c o) ->
  c = cmd_ssh \/
  exists repo name,
    In repo (catalog_items (repositories self)) /\
    repo_name_of repo = Some name /\
    ((exists dir, c = cmd_rev_parse dir) \/ sync_command self name c \/
     remote_command self name c \/ commit_command self name c).
Proof.
  intros [-> | (repo & Hin & Hev)]; [left; reflexivity | right].
  unfold repo_event in Hev.
  destruct (repo_name_of repo) as [name | ] eqn:Hname.
  - exists repo, name. auto.
  - destruct Hev; discriminate.
Qed.

Lemma run_event_not_commit (ev : event) :
  truthy (commit_message self) = false -> run_event self ev -> is_commit ev = false.
Proof.
  intros Hoff Hev. destruct ev as [c o | m | p b | p | p | p f | | ]; try reflexivity.
  destruct (run_event_command Hev)
    as [-> | (repo & name & _ & _ & [(dir & ->) | [H | [H | H]]])];
    try reflexivity.
  - apply sync_command_verb in H. unfold is_commit, on_verb.
    destruct (verb_of c); try discriminate H; reflexivity.
  - apply remote_command_verb in H. destruct H as [H _]. unfold is_commit, on_verb.
    destruct (verb_of c); try discriminate H; reflexivity.
  - apply commit_command_verb in H. destruct H as (_ & _ & _ & H). congruence.
Qed.

Lemma run_event_not_remote (ev : event) :
  truthy (remote_operation self) = false ->
  run_event self ev -> is_remote_operation ev = false.
Proof.
  intros Hoff Hev. destruct ev as [c o | m | p b | p | p | p f | | ]; try reflexivity.
  destruct (run_event_command Hev)
    as [-> | (repo & name & _ & _ & [(dir & ->) | [H | [H | H]]])];
    try reflexivity.
  - apply sync_command_verb in H. unfold is_remote_operation, on_verb.
    destruct (verb_of c); try discriminate H; reflexivity.
  - apply remote_command_verb in H. destruct H as (_ & _ & _ & H). congruence.
  - apply commit_command_verb in H. destruct H as [H _].
    unfold is_remote_operation, on_verb.
    destruct (verb_of c); try discriminate H; reflexivity.
Qed.

Lemma catalog_event_run_event (ev : event) :
  catalog_event self ev -> run_event self ev.
Proof.
  destruct ev as [c o | m | p b | p | p | p f | | ]; simpl; auto.
  intros (repo & _ & Hev). unfold repo_event in Hev.
  destruct (repo_name_of repo); [contradiction | destruct Hev; discriminate].
Qed.

Lemma run_events :
  wp (run self) (fun tr _ => Forall (run_event self) tr).
Proof.
  eapply wp_mono; [ | apply run_shape]. cbv beta.
  intros tr r (m & failure & rest & -> & H).
  constructor; [exact I | ]. constructor; [reflexivity | ].
  destruct failure as [msg | ].
  - destruct H as [-> _]. constructor.
  - destruct H as (m' & o & lines & rest' & -> & Hlines & H).
    constructor; [exact I | ]. constructor; [left; reflexivity | ].
    apply Forall_app. split.
    + eapply only_forall; [ | | exact Hlines]; simpl; auto. contradiction.
    + destruct (ssh_reading o).
      * destruct H as [H _]. eapply Forall_impl; [ | exact H].
        exact catalog_event_run_event.
      * destruct H as [(m1 & m2 & ->) _]. repeat constructor.
Qed.

End Commands.

Section Footprint_of_runs.
Context {RT : Runtime} {W : Type} {WD : World W}.
Variable self : ProjectInitializer.

(** X1.  Every effect of one reconciliation is accounted for.  For a
    descriptor named [name], the commands of [process_repository] are the
    branch query in the invoking directory, the commands that bring the
    working copy in (get-url, fetch, rev-parse, pull, checkout, checkout -b
    in the directory [base_dir/name], and [git clone] of
    [git@github.com:org/name.git] into that directory), the remote command
    that was asked for and the two commands of the commit step, these last
    only when the repository is not excluded; the only path whose
    existence is asked is [base_dir/name]; no directory is created.  For
    a descriptor without a name, the semaphore is taken and given back and
    nothing else happens. *)
Theorem reconciliation_footprint (repo : pyval) (w : W) :
  Forall (repo_event self repo) (trace_of (process_repository self repo) w).
Proof.
  apply (wp_sound (process_repository self repo)
           (fun tr _ => Forall (repo_event self repo) tr)).
  apply process_repository_events.
Qed.

(** X2.  Every effect of [run] is accounted for: progress lines, the
    creation of [base_dir] and of no other directory, [ssh -T
    git@github.com], and the events of the reconciliations of the
    descriptors of the catalog.  In particular a run resolves no path and
    starts no child process other than ssh and the git commands of
    [process_repository]. *)
Theorem run_footprint (w : W) :
  Forall (run_event self) (trace_of (run self) w).
Proof.
  apply (wp_sound (run self) (fun tr _ => Forall (run_event self) tr)).
  apply run_events.
Qed.

(** X3.  The optional steps need their request.  Without a commit message
    (none, or the empty string) a run neither stages nor commits in any
    repository; without a remote operation it runs no [git remote add],
    [set-url] or [remove]. *)
Theorem optional_steps_need_request (w : W) :
  (truthy (commit_message self) = false ->
   existsb is_commit (trace_of (run self) w) = false) /\
  (truthy (remote_operation self) = false ->
   existsb is_remote_operation (trace_of (run self) w) = false).
Proof.
  pose proof (wp_sound (run self) _ w (run_events self)) as H. cbv beta in H.
  split; intros Hoff.
  - eapply forall_not_exists; [ | exact H].
    intros ev. apply run_event_not_commit. exact Hoff.
  - eapply forall_not_exists; [ | exact H].
    intros ev. apply run_event_not_remote. exact Hoff.
Qed.

(** X4.  Over a whole run, every remote command and every [git add] or
    [git commit] is run in the directory of a descriptor of the catalog
    whose name is not in the exclusion list. *)
Theorem run_spares_excluded (w : W) (c : command) (o : outcome) :
  In (EvExec c o) (trace_of (run self) w) ->
  one_of optional_verbs (verb_of c) = true ->
  exists repo name,
    In repo (catalog_items (repositories self)) /\
    repo_name_of repo = Some name /\
    excluded self name = false /\
    cwd c = Some (repo_path_of self name).
Proof.
  intros Hin Hverb.
  pose proof (wp_sound (run self) _ w (run_events self)) as H. cbv beta in H.
  rewrite Forall_forall in H. specialize (H _ Hin).
  destruct (run_event_command H)
    as [-> | (repo & name & Hrepo & Hname & [(dir & ->) | [Hc | [Hc | Hc]]])];
    try discriminate Hverb.
  - apply sync_command_verb in Hc. exfalso.
    destruct (verb_of c); discriminate.
  - apply remote_command_verb in Hc. destruct Hc as (_ & Hx & Hcwd & _).
    exists repo, name. auto.
  - apply commit_command_verb in Hc. destruct Hc as (_ & Hx & Hcwd & _).
    exists repo, name. auto.
Qed.

End Footprint_of_runs.

(** ** The run around the reconciliations *)

Section Launch.
Context {RT : Runtime}.

Lemma json_loads_pure (catalog : pyval) :
  (exists v, json_loads catalog = Ret v) \/
  (exists cls msg, json_loads catalog = Raise (Exception cls msg)).
Proof.
  unfold json_loads, json_decode_bytes, json_decode_text.
  destruct catalog as [ | b | z | f | s | b | b | items | entries]; eauto.
  - destruct (prefix utf8_bom s); eauto. destruct (json_decoder s); eauto.
  - destruct (json_detect_decode b) as [s | msg]; eauto.
    destruct (json_decoder s); eauto.
  - destruct (json_detect_decode b) as [s | msg]; eauto.
    destruct (json_decoder s); eauto.
Qed.

Lemma main_async_spec (args : arguments) (catalog : pyval) :
  wp (main_async args catalog)
     (fun tr _ => arg_commit args = false -> existsb is_commit tr = false).
Proof.
  unfold main_async, init.
  destruct (json_loads_pure catalog) as [(v & ->) | (cls & msg & ->)]; cbn -[run];
    [ | reflexivity].
  intros base.
  eapply wp_mono; [ | apply run_events]. cbv beta.
  intros tr r Htr Hflag. cbn.
  eapply forall_not_exists; [ | exact Htr].
  intros ev. apply run_event_not_commit. cbn. rewrite Hflag. reflexivity.
Qed.

(** The literal has a value only if every name in it is bound, and that
    value has a list under [repositories]. *)
Lemma eval_config (scope : string -> option pyval)
    (entries_after : list (string * pyexpr)) (descriptors_after : list pyexpr) :
  (exists id, eval scope (config_literal entries_after descriptors_after) = inr id) \/
  (exists items,
      eval scope (config_literal entries_after descriptors_after)
        = inl (PDict [("project_name", PStr "gcp-kubernetes");
                      ("repo_org", PStr "HappyPathway");
                      ("repositories", PList items)])).
Proof.
  unfold config_literal. cbn [eval].
  destruct (scope "true") as [v | ]; [ | left; eauto].
  match goal with
  | |- context [?f entries_after ?acc] => destruct (f entries_after acc) as [d | id]
  end; [ | left; eauto].
  match goal with
  | |- context [?f descriptors_after] => destruct (f descriptors_after) as [vs | id]
  end; [ | left; eauto].
  right. eexists. reflexivity.
Qed.

Lemma main_spec (scope : string -> option pyval)
    (entries_after : list (string * pyexpr)) (descriptors_after : list pyexpr)
    (dumps : pyval -> string + string) (args : arguments) :
  wp (main scope entries_after descriptors_after dumps args)
     (fun tr r =>
        (exists cls msg,
            r = Err (Exception cls msg) /\
            (cls = "NameError" \/ cls = "TypeError")) /\
        Forall (only (fun _ => False)) tr /\
        (arg_debug args = false -> tr = [])).
Proof.
  unfold main, evaluate.
  destruct (eval_config scope entries_after descriptors_after)
    as [(id & ->) | (items & ->)].
  - cbn. split; [eauto 6 | ]. split; [constructor | reflexivity].
  - destruct (arg_debug args); cbn.
    + intros [].
      destruct (dumps (PDict [("project_name", PStr "gcp-kubernetes");
                              ("repo_org", PStr "HappyPathway");
                              ("repositories", PList items)])) as [text | msg];
        cbn; [intros [] | ];
        (split; [eauto 6 | ]; split; [repeat constructor | discriminate]).
    + split; [eauto 6 | ]. split; [constructor | reflexivity].
Qed.

End Launch.

Lemma catalog_event_not_ssh {RT : Runtime} (self : ProjectInitializer) (ev : event) :
  catalog_event self ev -> is_ssh ev = false.
Proof.
  intros Hev. destruct ev as [c o | m | p b | p | p | p f | | ]; try reflexivity.
  assert (Hrun : run_event self (EvExec c o)) by (right; exact Hev).
  destruct Hev as (repo & Hin & Hev). unfold repo_event in Hev.
  destruct (repo_name_of repo) as [name | ]; [ | destruct Hev; discriminate].
  unfold is_ssh, on_verb.
  destruct Hev as [(dir & ->) | [H | [H | H]]]; [reflexivity | | | ].
  - apply sync_command_verb in H. destruct (verb_of c); try discriminate H; reflexivity.
  - apply remote_command_verb in H. destruct H as [H _].
    destruct (verb_of c); try discriminate H; reflexivity.
  - apply commit_command_verb in H. destruct H as [H _].
    destruct (verb_of c); try discriminate H; reflexivity.
Qed.

Lemma filter_none (f : event -> bool) (tr : list event) :
  existsb f tr = false -> filter f tr = [].
Proof.
  induction tr as [ | ev tr IH]; simpl; auto.
  intros H. apply orb_false_elim in H. destruct H as [-> H]. auto.
Qed.

Section Launching.
Context {RT : Runtime} {W : Type} {WD : World W}.
Variable self : ProjectInitializer.

(** X5.  The launcher passes the commit message on only under
    [--commit]: without that flag no run stages or commits anything,
    whatever [--message] says and whatever the catalog is. *)
Theorem message_needs_commit_flag (args : arguments) (catalog : pyval) (w : W) :
  arg_commit args = false ->
  existsb is_commit (trace_of (main_async args catalog) w) = false.
Proof.
  exact (wp_sound (main_async args catalog) _ w (main_async_spec args catalog)).
Qed.

(** X23.  [main] never gets as far as a run.  Whatever the names in
    scope are, also if [true], [false] and [null] were bound, it ends with
    an exception: [NameError] while it evaluates the configuration
    literal, or [TypeError] in the constructor, which is handed the list
    of the literal instead of a JSON text.  Up to there it has printed the
    configuration under [--debug] and done nothing else: no directory, no
    access check, no git command. *)
Theorem launcher_stops_before_run (scope : string -> option pyval)
    (entries_after : list (string * pyexpr)) (descriptors_after : list pyexpr)
    (dumps : pyval -> string + string) (args : arguments) (w : W) :
  (exists cls msg,
      result_of (main scope entries_after descriptors_after dumps args) w
        = Err (Exception cls msg) /\
      (cls = "NameError" \/ cls = "TypeError")) /\
  Forall (only (fun _ => False))
         (trace_of (main scope entries_after descriptors_after dumps args) w) /\
  (arg_debug args = false ->
   trace_of (main scope entries_after descriptors_after dumps args) w = []).
Proof.
  exact (wp_sound (main scope entries_after descriptors_after dumps args) _ w
           (main_spec scope entries_after descriptors_after dumps args)).
Qed.

(** X6.  [run] asks for SSH access at most once, and no reconciliation
    starts before it has: whenever the semaphore is taken or a git command
    is run, [ssh -T] was run earlier in the trace. *)
Theorem access_checked_once_and_first (w : W) :
  length (filter is_ssh (trace_of (run self) w)) <= 1 /\
  (existsb is_reconciliation (trace_of (run self) w) = true ->
   happens_before is_ssh is_reconciliation (trace_of (run self) w) = true).
Proof.
  pose proof (wp_sound (run self) _ w (run_shape self)) as H. cbv beta in H.
  destruct H as (m & failure & rest & -> & H).
  destruct failure as [msg | ].
  - destruct H as [-> _]. simpl. split; [lia | discriminate].
  - destruct H as (m' & o & lines & rest' & -> & Hlines & H).
    split; [ | reflexivity].
    assert (Hrest : existsb is_ssh rest' = false).
    { destruct (ssh_reading o).
      - destruct H as [H _]. eapply forall_not_exists; [ | exact H].
        apply catalog_event_not_ssh.
      - destruct H as [(m1 & m2 & ->) _]. reflexivity. }
    cbn [filter is_ssh on_verb].
    change (one_of [Ssh] (verb_of cmd_ssh)) with true. cbv iota.
    assert (Hquiet : existsb is_ssh lines = false)
      by exact (lines_on_verb (one_of [Ssh]) Hlines).
    rewrite filter_app, (filter_none _ _ Hrest), (filter_none _ _ Hquiet).
    simpl. lia.
Qed.

(** X7.  When the base directory cannot be created, [run] stops there:
    the exception of [os.makedirs] leaves [run] (exit status 1) after the
    banner, before the access check and before any command. *)
Theorem base_dir_failure_stops_run (w : W) (msg : string) :
  In (EvMakedirs (base_dir self) (Some msg)) (trace_of (run self) w) ->
  exit_status (result_of (run self) w) = 1%Z /\
  exists m, trace_of (run self) w = [EvPrint m; EvMakedirs (base_dir self) (Some msg)].
Proof.
  pose proof (wp_sound (run self) _ w (run_shape self)) as H. cbv beta in H.
  destruct H as (m & failure & rest & -> & H).
  destruct failure as [msg' | ].
  - destruct H as [-> ->]. intros [Hin | [Hin | []]]; [discriminate | ].
    injection Hin as ->. split; [reflexivity | eauto].
  - destruct H as (m' & o & lines & rest' & -> & Hlines & H).
    intros Hin. exfalso.
    assert (Hrun : Forall (run_event self) (lines ++ rest')).
    { apply Forall_app. split.
      - eapply only_forall; [ | | exact Hlines]; simpl; auto. contradiction.
      - destruct (ssh_reading o).
        + destruct H as [H _]. eapply Forall_impl; [ | exact H].
          apply catalog_event_run_event.
        + destruct H as [(m1 & m2 & ->) _]. repeat constructor. }
    destruct Hin as [Hin | [Hin | [Hin | [Hin | Hin]]]]; try discriminate.
    apply in_app_or in Hin. destruct Hin as [Hin | Hin].
    + rewrite Forall_forall in Hlines. exact (Hlines _ Hin).
    + destruct (ssh_reading o).
      * destruct H as [H _]. rewrite Forall_forall in H.
        destruct (H _ Hin) as (repo & _ & Hev). unfold repo_event in Hev.
        destruct (repo_name_of repo); [exact Hev | destruct Hev; discriminate].
      * destruct H as [(m1 & m2 & ->) _].
        destruct Hin as [Hin | [Hin | []]]; discriminate.
Qed.

(** X8.  A catalog that is valid JSON but not a container ([null], a
    boolean, a number) is accepted by the constructor and makes [run]
    fail only after the access check: iterating over it raises
    [TypeError], no reconciliation is started, and the exit status is 1. *)
Theorem run_on_uniterable_catalog (w : W) :
  iterable (repositories self) = false ->
  access_verified (trace_of (run self) w) = Some true ->
  (exists msg, result_of (run self) w = Err (Exception "TypeError" msg)) /\
  exit_status (result_of (run self) w) = 1%Z /\
  existsb is_reconciliation (trace_of (run self) w) = false.
Proof.
  intros Hit.
  pose proof (wp_sound (run self) _ w (run_shape self)) as H. cbv beta in H.
  destruct H as (m & failure & rest & -> & H).
  destruct failure as [msg | ].
  - destruct H as [-> _]. discriminate.
  - destruct H as (m' & o & lines & rest' & -> & Hlines & H).
    unfold access_verified. cbn [find on_verb].
    change (one_of [Ssh] (verb_of cmd_ssh)) with true. cbv iota.
    destruct (ssh_reading o); [ | discriminate].
    intros _. destruct H as (_ & H & _).
    destruct (H Hit) as [-> (m1 & ->)].
    split; [eauto | ]. split; [reflexivity | ].
    cbn [existsb is_reconciliation].
    change (verb_eqb (verb_of cmd_ssh) Ssh) with true.
    rewrite existsb_app, (lines_not_reconciliation Hlines). reflexivity.
Qed.

(** X9.  With an empty catalog (an empty list, object, string or bytes)
    a run whose access check succeeds starts no reconciliation and
    returns normally: exit status 0. *)
Theorem run_on_empty_catalog (w : W) :
  iterable (repositories self) = true ->
  catalog_items (repositories self) = [] ->
  access_verified (trace_of (run self) w) = Some true ->
  result_of (run self) w = Ok tt /\
  existsb is_reconciliation (trace_of (run self) w) = false.
Proof.
  intros Hit Hnone.
  pose proof (wp_sound (run self) _ w (run_shape self)) as H. cbv beta in H.
  destruct H as (m & failure & rest & -> & H).
  destruct failure as [msg | ].
  - destruct H as [-> _]. discriminate.
  - destruct H as (m' & o & lines & rest' & -> & Hlines & H).
    unfold access_verified. cbn [find on_verb].
    change (one_of [Ssh] (verb_of cmd_ssh)) with true. cbv iota.
    destruct (ssh_reading o); [ | discriminate].
    intros _. destruct H as (_ & _ & H).
    destruct (H Hit Hnone) as [-> (m1 & m2 & ->)].
    split; [reflexivity | ].
    cbn [existsb is_reconciliation].
    change (verb_eqb (verb_of cmd_ssh) Ssh) with true.
    rewrite existsb_app, (lines_not_reconciliation Hlines). reflexivity.
Qed.

(** X10.  A descriptor without a string under ["name"] makes
    [process_repository] raise ([KeyError] for a dict without the key,
    [TypeError] otherwise) before it prints or runs anything; the
    semaphore, taken on entry, is given back on the way out. *)
Theorem nameless_descriptor_raises (repo : pyval) (w : W) :
  repo_name_of repo = None ->
  trace_of (process_repository self repo) w = [EvAcquire; EvRelease] /\
  exists cls msg,
    result_of (process_repository self repo) w = Err (Exception cls msg) /\
    (cls = "KeyError" \/ cls = "TypeError").
Proof.
  intros Hname.
  apply (wp_sound (process_repository self repo)
           (fun tr r =>
              tr = [EvAcquire; EvRelease] /\
              exists cls msg,
                r = Err (Exception cls msg) /\
                (cls = "KeyError" \/ cls = "TypeError"))).
  unfold process_repository, async_with, reconcile.
  unfold repo_name_of in Hname.
  destruct repo as [ | b | z | f | s | b | b | items | entries];
    try (cbn; intros [] []; split; [reflexivity | eauto 6]).
  cbn -[sync_block remote_block commit_block].
  destruct (dict_get "name" entries) as [v | ];
    [ | cbn; intros [] []; split; [reflexivity | eauto 6]].
  destruct v as [ | b | z | f | s | b | b | items | entries'];
    try discriminate Hname;
    cbn; intros [] []; (split; [reflexivity | eauto 6]).
Qed.

End Launching.

(** ** The branches of a reconciliation *)

Lemma only_not_absent (pc : command -> Prop) (p : string) (tr : list event) :
  Forall (only pc) tr -> existsb (reports_absent p) tr = false.
Proof.
  intros H. induction H as [ | ev tr Hev _ IH]; simpl; auto.
  rewrite IH, orb_false_r. destruct ev; simpl in *; auto; contradiction.
Qed.

Lemma cut_short_not_absent {RT : Runtime} (self : ProjectInitializer)
    (p name msg : string) (tr : list event) :
  cut_short self name msg tr -> existsb (reports_absent p) tr = false.
Proof.
  intros (m & dir & o & lines & -> & Hlines).
  cbn [existsb reports_absent]. rewrite existsb_app, (only_not_absent p Hlines).
  reflexivity.
Qed.

Lemma runs_not_failed_clone (vs : list verb) (tr : list event) :
  one_of vs Clone = false -> Forall (runs vs) tr -> existsb failed_clone tr = false.
Proof.
  intros Hvs. apply forall_not_exists.
  intros [c o | m | p b | p | p | p f | | ]; simpl; try reflexivity.
  intros Hc. unfold failed_clone, is_clone, on_verb.
  destruct (verb_of c); try reflexivity. simpl. congruence.
Qed.

Section Branches.
Context {RT : Runtime}.
Variable self : ProjectInitializer.

Lemma sync_log_mismatch (org name p expected target : string) (tr : list event) :
  sync_log org name p expected target tr ->
  existsb (reports_present p) tr = true ->
  existsb (reports_origin expected) tr = false ->
  exists o m1 m2 m3 m4,
    tr = [EvExists p (inl true); EvPrint m1; EvExec (cmd_get_url p) o;
          EvPrint m2; EvPrint m3; EvPrint m4] /\
    origin_reading o <> Some expected.
Proof.
  intros Hlog Hpresent Horigin.
  destruct Hlog as [o tr_co tr_up m1 m2 m3 m4 Ho Hco Hup
                   | o m1 m2 m3 m4 Ho
                   | tr_clone tr_co m1 m2 m3 Hclone Hraised Hco
                   | tr_clone m1 m2 Hclone Hraised].
  - exfalso. cbn [existsb reports_origin] in Horigin.
    change (verb_of (cmd_get_url p)) with RemoteGetUrl in Horigin.
    rewrite Ho, String.eqb_refl in Horigin. discriminate.
  - exists o, m1, m2, m3, m4. auto.
  - exfalso. quiet_segments. simpl in Hpresent.
    rewrite !existsb_app in Hpresent. simpl in Hpresent.
    rewrite !existsb_app in Hpresent. simpl in Hpresent.
    rewrite (only_not_present p Hclone), (only_not_present p Hco) in Hpresent.
    discriminate.
  - exfalso. quiet_segments. simpl in Hpresent.
    rewrite !existsb_app in Hpresent. simpl in Hpresent.
    rewrite (only_not_present p Hclone) in Hpresent.
    discriminate.
Qed.

Lemma sync_log_absent (org name p expected target : string) (tr : list event) :
  sync_log org name p expected target tr ->
  existsb (reports_absent p) tr = true ->
  exists o lines m1,
    Forall (only (fun _ => False)) lines /\
    ((raised (EvExec (cmd_clone org name p) o) = false /\
      exists tr_co m2 m3,
        tr = EvExists p (inl false) :: EvPrint m1 :: EvExec (cmd_clone org name p) o
               :: lines ++ EvPrint m2 :: tr_co ++ [EvPrint m3] /\
        checkout_log p target tr_co) \/
     (raised (EvExec (cmd_clone org name p) o) = true /\
      exists m2,
        tr = EvExists p (inl false) :: EvPrint m1 :: EvExec (cmd_clone org name p) o
               :: lines ++ [EvPrint m2])).
Proof.
  intros Hlog Habsent.
  destruct Hlog as [o tr_co tr_up m1 m2 m3 m4 Ho Hco Hup
                   | o m1 m2 m3 m4 Ho
                   | tr_clone tr_co m1 m2 m3 Hclone Hraised Hco
                   | tr_clone m1 m2 Hclone Hraised].
  - exfalso. quiet_segments. simpl in Habsent.
    rewrite !existsb_app in Habsent. simpl in Habsent.
    rewrite !existsb_app in Habsent. simpl in Habsent.
    rewrite (only_not_absent p Hco), (only_not_absent p Hup) in Habsent.
    discriminate.
  - discriminate.
  - destruct Hclone as (o & lines & -> & Hlines).
    assert (Hquiet : existsb raised lines = false).
    { eapply forall_not_exists; [ | exact Hlines].
      intros [c o' | m | p' b | p' | p' | p' f | | ]; simpl; auto; contradiction. }
    cbn [existsb] in Hraised. rewrite Hquiet, orb_false_r in Hraised.
    exists o, lines, m1. split; [exact Hlines | left].
    split; [exact Hraised | ]. exists tr_co, m2, m3.
    split; [reflexivity | exact Hco].
  - destruct Hclone as (o & lines & -> & Hlines).
    assert (Hquiet : existsb raised lines = false).
    { eapply forall_not_exists; [ | exact Hlines].
      intros [c o' | m | p' b | p' | p' | p' f | | ]; simpl; auto; contradiction. }
    cbn [existsb] in Hraised. rewrite Hquiet, orb_false_r in Hraised.
    exists o, lines, m1. split; [exact Hlines | right].
    split; [exact Hraised | ]. exists m2. reflexivity.
Qed.

Lemma sync_block_mismatch_lines (name p expected target : string) :
  wp (sync_block self name p expected target)
     (fun tr _ =>
        forall o m1 m2 m3 m4,
          tr = [EvExists p (inl true); EvPrint m1; EvExec (cmd_get_url p) o;
                EvPrint m2; EvPrint m3; EvPrint m4] ->
          origin_reading o <> Some expected ->
          m2 = ("❌ Remote mismatch for " ++ name)%string /\
          m3 = ("Expected: " ++ expected)%string /\
          m4 = "Please check the repository manually").
Proof.
  unfold sync_block, path_exists. cbn. intros [[ | ] | msg];
    [ | | cbn; intros o m1 m2 m3 m4 Heq; discriminate Heq].
  - cbn. intros [].
    wp_call check_remote_spec.
    intros tr r (o & -> & ->).
    destruct (origin_reading o) as [url | ] eqn:Ho;
      [destruct (url =? expected)%string eqn:Hurl | ].
    + apply wp_trivial. intros tr r o' m1 m2 m3 m4 Heq Hne.
      cbn in Heq. injection Heq as _ <- _. exfalso. apply Hne.
      apply String.eqb_eq in Hurl. congruence.
    + cbn. intros [] [] [] o' m1 m2 m3 m4 Heq _.
      injection Heq as _ _ <- <- <-. auto.
    + cbn. intros [] [] [] o' m1 m2 m3 m4 Heq _.
      injection Heq as _ _ <- <- <-. auto.
  - apply wp_trivial. intros tr r o m1 m2 m3 m4 Heq. discriminate Heq.
Qed.


End Branches.

Ltac drop_quiet :=
  repeat match goal with
         | H : Forall (runs ?vs) ?tr |- context [existsb (on_verb ?f) ?tr] =>
             rewrite (@runs_on_verb vs f tr eq_refl H)
         end.

Section Branching.
Context {RT : Runtime} {W : Type} {WD : World W}.
Variable self : ProjectInitializer.

(** X11.  Remote mismatch.  When the working copy of a repository is
    there and its origin is not the expected URL, the reconciliation
    reports the mismatch with the URL it expected and leaves the working
    copy alone: no checkout, fetch, pull or clone is run. *)
Theorem remote_mismatch_skips_sync (repo : pyval) (name : string) (w : W) :
  repo_name_of repo = Some name ->
  existsb (reports_present (repo_path_of self name))
          (trace_of (process_repository self repo) w) = true ->
  existsb (reports_origin (expected_origin (repo_org self) name))
          (trace_of (process_repository self repo) w) = false ->
  existsb (on_verb (one_of [Checkout; CheckoutNew; Fetch; Pull; Clone]))
          (trace_of (process_repository self repo) w) = false /\
  In (EvPrint ("❌ Remote mismatch for " ++ name)%string)
     (trace_of (process_repository self repo) w) /\
  In (EvPrint ("Expected: " ++ expected_origin (repo_org self) name)%string)
     (trace_of (process_repository self repo) w).
Proof.
  intros Hname.
  pose proof (wp_sound (process_repository self repo) _ w
                (@process_repository_segments _ self repo name _
                   (fun _ => True) (fun _ => True) Hname
                   (fun target => sync_block_mismatch_lines self name _ _ target)
                   (wp_trivial _ _ (fun _ _ => I))
                   (wp_trivial _ _ (fun _ _ => I)))) as H.
  cbv beta in H.
  destruct H as [(_ & m & dir & o & lines & tr_sync & tr_remote & tr_commit
                  & -> & Hlines & [Hsync Hmsg] & [Hremote _] & [Hcommit _])
                | (msg & _ & Hcut)];
    [ | intros Hpresent; rewrite (cut_short_not_present _ Hcut) in Hpresent;
        discriminate].
  intros Hpresent Horigin.
  quiet_segments.
  assert (Hsync_present :
            existsb (reports_present (repo_path_of self name)) tr_sync = true).
  { simpl in Hpresent. rewrite !existsb_app in Hpresent.
    rewrite (only_not_present _ Hlines), (only_not_present _ Hremote),
      (only_not_present _ Hcommit) in Hpresent.
    simpl in Hpresent. rewrite !orb_false_r in Hpresent. exact Hpresent. }
  assert (Hsync_origin :
            existsb (reports_origin (expected_origin (repo_org self) name))
                    tr_sync = false).
  { simpl in Horigin. rewrite !existsb_app in Horigin.
    apply orb_false_elim in Horigin. destruct Horigin as [Horigin _].
    apply orb_false_elim in Horigin. destruct Horigin as [_ Horigin].
    apply orb_false_elim in Horigin. destruct Horigin as [Horigin _].
    exact Horigin. }
  destruct (sync_log_mismatch Hsync Hsync_present Hsync_origin)
    as (o1 & m1 & m2 & m3 & m4 & -> & Ho1).
  destruct (Hmsg o1 m1 m2 m3 m4 eq_refl Ho1) as (-> & -> & ->).
  split; [ | split].
  - cbn [existsb on_verb]. rewrite !existsb_app.
    drop_quiet.
    reflexivity.
  - do 4 right. apply in_or_app. left. apply in_or_app. right.
    apply in_or_app. left. simpl. auto.
  - do 4 right. apply in_or_app. left. apply in_or_app. right.
    apply in_or_app. left. simpl. auto 6.
Qed.

(** X12.  No working copy yet.  When the path of a repository does not
    exist, the reconciliation clones first and checks the target branch
    out only afterwards, and only if the spawn and the wait of [git
    clone] did not raise; it asks for no origin URL and runs no fetch and
    no pull. *)
Theorem absent_copy_cloned_first (repo : pyval) (name : string) (w : W) :
  repo_name_of repo = Some name ->
  existsb (reports_absent (repo_path_of self name))
          (trace_of (process_repository self repo) w) = true ->
  happens_before is_clone is_checkout
                 (trace_of (process_repository self repo) w) = true /\
  existsb (on_verb (one_of [RemoteGetUrl; Fetch; Pull]))
          (trace_of (process_repository self repo) w) = false /\
  (existsb failed_clone (trace_of (process_repository self repo) w) = true ->
   existsb is_checkout (trace_of (process_repository self repo) w) = false).
Proof.
  intros Hname.
  destruct (process_repository_trace self repo w Hname)
    as [(_ & m & dir & o & lines & tr_sync & tr_remote & tr_commit
         & -> & Hlines & Hsync & Hremote & Hcommit)
       | (msg & _ & Hcut)];
    [ | intros Habsent; rewrite (cut_short_not_absent _ Hcut) in Habsent;
        discriminate].
  intros Habsent.
  assert (Hsync_absent :
            existsb (reports_absent (repo_path_of self name)) tr_sync = true).
  { simpl in Habsent. rewrite !existsb_app in Habsent.
    rewrite (only_not_absent _ Hlines), (only_not_absent _ (remote_log_runs Hremote)),
      (only_not_absent _ (commit_log_runs Hcommit)) in Habsent.
    simpl in Habsent. rewrite !orb_false_r in Habsent. exact Habsent. }
  destruct (sync_log_absent Hsync Hsync_absent)
    as (oc & lines_c & m1 & Hlines_c & [[Hok (tr_co & m2 & m3 & -> & Hco)]
                                       | [Hbad (m2 & ->)]]);
    quiet_segments.
  - split; [ | split].
    + simpl. rewrite <- !app_assoc.
      rewrite happens_before_skip by absent. reflexivity.
    + cbn [existsb on_verb]. rewrite !existsb_app. cbn [existsb on_verb].
      rewrite !existsb_app. cbn [existsb on_verb]. rewrite !existsb_app.
      drop_quiet.
      reflexivity.
    + intros Hfailed. exfalso.
      cbn [existsb] in Hfailed. rewrite !existsb_app in Hfailed.
      cbn [existsb] in Hfailed. rewrite !existsb_app in Hfailed.
      cbn [existsb] in Hfailed. rewrite !existsb_app in Hfailed.
      rewrite (runs_not_failed_clone (vs := []) eq_refl Hlines),
        (runs_not_failed_clone (vs := []) eq_refl Hlines_c),
        (runs_not_failed_clone (vs := [Checkout; CheckoutNew]) eq_refl Hco),
        (runs_not_failed_clone (vs := [RemoteAdd; RemoteSetUrl; RemoteRemove])
           eq_refl Hremote),
        (runs_not_failed_clone (vs := [Stage; Commit]) eq_refl Hcommit) in Hfailed.
      assert (Hc : failed_clone
                     (EvExec (cmd_clone (repo_org self) name (repo_path_of self name))
                             oc) = false)
        by (unfold failed_clone; rewrite Hok; apply andb_false_r).
      rewrite Hc in Hfailed. simpl in Hfailed. discriminate.
  - split; [ | split].
    + simpl. rewrite <- !app_assoc.
      rewrite happens_before_skip by absent. reflexivity.
    + cbn [existsb on_verb]. rewrite !existsb_app. cbn [existsb on_verb].
      rewrite !existsb_app. cbn [existsb on_verb].
      drop_quiet.
      reflexivity.
    + intros _. unfold is_checkout.
      cbn [existsb on_verb]. rewrite !existsb_app. cbn [existsb on_verb].
      rewrite !existsb_app. cbn [existsb on_verb].
      drop_quiet.
      reflexivity.
Qed.

End Branching.

(** ** The optional steps of a reconciliation *)

Section Optional_steps.
Context {RT : Runtime} {W : Type} {WD : World W}.
Variable self : ProjectInitializer.


(** X14.  The optional steps do not depend on how the commands on the
    working copy went.  In every reconciliation that returns, for a
    repository that is not excluded, [git add .] was run in its directory
    if a commit message is given, and the requested remote command was run
    if its fields are given, whatever the sync step printed before
    (origin mismatch, failed clone, failed update).  A reconciliation
    returns unless the existence test of its path raises. *)
Theorem requested_steps_always_attempted (repo : pyval) (name : string) (w : W) :
  repo_name_of repo = Some name ->
  excluded self name = false ->
  result_of (process_repository self repo) w = Ok tt ->
  (forall message,
      given (commit_message self) message ->
      exists o, In (EvExec (cmd_stage (repo_path_of self name)) o)
                   (trace_of (process_repository self repo) w)) /\
  (forall rname,
      remote_operation self = Some "delete" ->
      given (remote_name self) rname ->
      exists o, In (EvExec (cmd_remote_remove (repo_path_of self name) rname) o)
                   (trace_of (process_repository self repo) w)) /\
  (forall rname base,
      given (remote_name self) rname ->
      given (remote_url self) base ->
      (remote_operation self = Some "add" ->
       exists o, In (EvExec (cmd_remote_add (repo_path_of self name) rname
                               (base ++ name)%string) o)
                    (trace_of (process_repository self repo) w)) /\
      (remote_operation self = Some "update" ->
       exists o, In (EvExec (cmd_remote_set_url (repo_path_of self name) rname
                               (base ++ name)%string) o)
                    (trace_of (process_repository self repo) w))).
Proof.
  intros Hname Hx Hreturned.
  destruct (process_repository_trace self repo w Hname)
    as [(_ & m & dir & o & lines & tr_sync & tr_remote & tr_commit
         & -> & Hlines & Hsync & Hremote & Hcommit)
       | (msg & Hr & _)];
    [ | rewrite Hr in Hreturned; discriminate].
  assert (Hin_remote : forall ev, In ev tr_remote ->
            In ev (EvAcquire :: EvPrint m :: EvGetcwd dir
                     :: EvExec (cmd_rev_parse dir) o
                     :: (lines ++ tr_sync ++ tr_remote ++ tr_commit) ++ [EvRelease])).
  { intros ev Hev. do 4 right. apply in_or_app. left. apply in_or_app. right.
    apply in_or_app. right. apply in_or_app. left. exact Hev. }
  assert (Hin_commit : forall ev, In ev tr_commit ->
            In ev (EvAcquire :: EvPrint m :: EvGetcwd dir
                     :: EvExec (cmd_rev_parse dir) o
                     :: (lines ++ tr_sync ++ tr_remote ++ tr_commit) ++ [EvRelease])).
  { intros ev Hev. do 4 right. apply in_or_app. left. apply in_or_app. right.
    apply in_or_app. right. apply in_or_app. right. exact Hev. }
  split; [ | split].
  - intros message Hm.
    destruct Hcommit as [Hs | message' oc rest mc mc' _ _ _].
    + rewrite (given_truthy Hm), Hx in Hs. discriminate.
    + exists oc. apply Hin_commit. simpl. auto.
  - intros rname Hop [Hn Hne].
    destruct Hremote as [Hs
                | rname' base o' rest m' Hx' Hop' Hn' Hu Hrest
                | m' Hx' Hop' Hmiss
                | rname' base o' rest m' Hx' Hop' Hn' Hu Hrest
                | m' Hx' Hop' Hmiss
                | rname' o' rest m' Hx' Hop' Hn' Hrest
                | m' Hx' Hop' Hmiss
                | operation' m' m'' Hx' Hop' H1 H2 H3];
      try congruence.
    + rewrite Hop, Hx in Hs. discriminate.
    + destruct Hn' as [Hn' _]. assert (rname' = rname) as -> by congruence.
      exists o'. apply Hin_remote. simpl. auto.
    + rewrite (given_truthy (conj Hn Hne)) in Hmiss. discriminate.
    + destruct Hop' as [Hop' _]. congruence.
  - intros rname base [Hn Hne] [Hu Hue].
    assert (Hfields : truthy (remote_name self) && truthy (remote_url self) = true).
    { rewrite (given_truthy (conj Hn Hne)), (given_truthy (conj Hu Hue)).
      reflexivity. }
    split; intros Hop;
      destruct Hremote as [Hs
                | rname' base' o' rest m' Hx' Hop' Hn' Hu' Hrest
                | m' Hx' Hop' Hmiss
                | rname' base' o' rest m' Hx' Hop' Hn' Hu' Hrest
                | m' Hx' Hop' Hmiss
                | rname' o' rest m' Hx' Hop' Hn' Hrest
                | m' Hx' Hop' Hmiss
                | operation' m' m'' Hx' Hop' H1 H2 H3];
      try congruence;
      try (rewrite Hop, Hx in Hs; discriminate);
      try (match type of Hop' with
           | given _ _ => destruct Hop' as [Hop' _]; congruence
           end);
      destruct Hn' as [Hn' _]; destruct Hu' as [Hu' _];
      assert (rname' = rname) as -> by congruence;
      assert (base' = base) as -> by congruence;
      exists o'; apply Hin_remote; simpl; auto.
Qed.

(** X15.  The three steps of a reconciliation come in a fixed order: the
    trace splits into a first part with every command on the working copy
    (and no remote or commit command), a second part with the remote
    command only, and a last part with [git add] and [git commit] only. *)
Theorem steps_in_order (repo : pyval) (name : string) (w : W) :
  repo_name_of repo = Some name ->
  exists first second third,
    trace_of (process_repository self repo) w = first ++ second ++ third /\
    existsb is_remote_operation first = false /\
    existsb is_commit first = false /\
    existsb is_sync second = false /\
    existsb is_commit second = false /\
    existsb is_sync third = false /\
    existsb is_remote_operation third = false.
Proof.
  intros Hname.
  destruct (process_repository_trace self repo w Hname)
    as [(_ & m & dir & o & lines & tr_sync & tr_remote & tr_commit
         & -> & Hlines & Hsync & Hremote & Hcommit)
       | (msg & _ & Hcut)].
  2: { exists (trace_of (process_repository self repo) w), [], [].
       rewrite !app_nil_r. unfold is_remote_operation, is_commit.
       rewrite (cut_short_on_verb (one_of [RemoteAdd; RemoteSetUrl; RemoteRemove])
                  eq_refl Hcut),
         (cut_short_on_verb (one_of [Stage; Commit]) eq_refl Hcut).
       repeat split. }
  exists (EvAcquire :: EvPrint m :: EvGetcwd dir :: EvExec (cmd_rev_parse dir) o
            :: lines ++ tr_sync),
    tr_remote, (tr_commit ++ [EvRelease]).
  split; [cbn; rewrite <- !app_assoc; reflexivity | ].
  pose proof (sync_log_on_verb (one_of [RemoteAdd; RemoteSetUrl; RemoteRemove])
                eq_refl Hsync) as Hs1.
  pose proof (sync_log_on_verb (one_of [Stage; Commit]) eq_refl Hsync) as Hs2.
  quiet_segments.
  unfold is_remote_operation, is_commit, is_sync.
  repeat split;
    cbn [existsb on_verb]; rewrite ?existsb_app; rewrite ?Hs1, ?Hs2;
    drop_quiet; reflexivity.
Qed.

End Optional_steps.

(** ** More on the results of the methods *)

Ltac progress_lines :=
  repeat (apply Forall_cons; [exact I | ]); apply Forall_nil.

Section MethodOutcomes.
Context {RT : Runtime} {W : Type} {WD : World W}.
Variable self : ProjectInitializer.

(** X16.  [update_remote] and [delete_remote] run exactly one command,
    [git remote set-url name url] and [git remote remove name] in the
    repository's directory.  They answer [True] as soon as that command
    ends, whatever its exit status, and [False], after printing the error,
    only when the spawn or the wait raised. *)
Theorem remote_setters_outcomes (p rname url : string) (w : W) :
  (exists o,
      match o with
      | Exits _ _ _ =>
          trace_of (update_remote p rname url) w =
            [EvExec (cmd_remote_set_url p rname url) o] /\
          result_of (update_remote p rname url) w = Ok true
      | SpawnRaises msg | CommunicateRaises msg =>
          trace_of (update_remote p rname url) w =
            [EvExec (cmd_remote_set_url p rname url) o;
             EvPrint ("Error updating remote: " ++ msg)%string] /\
          result_of (update_remote p rname url) w = Ok false
      end) /\
  (exists o,
      match o with
      | Exits _ _ _ =>
          trace_of (delete_remote p rname) w =
            [EvExec (cmd_remote_remove p rname) o] /\
          result_of (delete_remote p rname) w = Ok true
      | SpawnRaises msg | CommunicateRaises msg =>
          trace_of (delete_remote p rname) w =
            [EvExec (cmd_remote_remove p rname) o;
             EvPrint ("Error deleting remote: " ++ msg)%string] /\
          result_of (delete_remote p rname) w = Ok false
      end).
Proof.
  split.
  - apply (wp_sound (update_remote p rname url)
             (fun tr r =>
                exists o,
                  match o with
                  | Exits _ _ _ =>
                      tr = [EvExec (cmd_remote_set_url p rname url) o] /\ r = Ok true
                  | SpawnRaises msg | CommunicateRaises msg =>
                      tr = [EvExec (cmd_remote_set_url p rname url) o;
                            EvPrint ("Error updating remote: " ++ msg)%string] /\
                      r = Ok false
                  end)).
    unfold update_remote. run_tree;
      first [ solve [eexists (SpawnRaises _); split; reflexivity]
            | solve [eexists (CommunicateRaises _); split; reflexivity]
            | solve [eexists (Exits _ _ _); split; reflexivity] ].
  - apply (wp_sound (delete_remote p rname)
             (fun tr r =>
                exists o,
                  match o with
                  | Exits _ _ _ =>
                      tr = [EvExec (cmd_remote_remove p rname) o] /\ r = Ok true
                  | SpawnRaises msg | CommunicateRaises msg =>
                      tr = [EvExec (cmd_remote_remove p rname) o;
                            EvPrint ("Error deleting remote: " ++ msg)%string] /\
                      r = Ok false
                  end)).
    unfold delete_remote. run_tree;
      first [ solve [eexists (SpawnRaises _); split; reflexivity]
            | solve [eexists (CommunicateRaises _); split; reflexivity]
            | solve [eexists (Exits _ _ _); split; reflexivity] ].
Qed.

(** X17.  [check_remote] runs [git remote get-url origin] in the
    repository's directory and nothing else; it prints nothing and never
    raises.  Its answer is [True] exactly when the command ended, its
    output is text, and that text without the surrounding whitespace is
    the expected URL; the exit status is not looked at. *)
Theorem check_remote_compares_origin (p expected : string) (w : W) :
  exists o,
    trace_of (check_remote p expected) w = [EvExec (cmd_get_url p) o] /\
    result_of (check_remote p expected) w =
      Ok (match o with
          | Exits _ out _ =>
              match bytes_decode out with
              | inl text => (str_strip text =? expected)%string
              | inr _ => false
              end
          | _ => false
          end).
Proof.
  apply (wp_sound (check_remote p expected)
           (fun tr r =>
              exists o,
                tr = [EvExec (cmd_get_url p) o] /\
                r = Ok (match o with
                        | Exits _ out _ =>
                            match bytes_decode out with
                            | inl text => (str_strip text =? expected)%string
                            | inr _ => false
                            end
                        | _ => false
                        end))).
  unfold check_remote. run_tree;
    eexists; (split; [reflexivity | ]); simpl; try rewrite Heqs; reflexivity.
Qed.

(** X18.  [commit_changes] stages with [git add .] and then commits with
    [git commit -m message --allow-empty], in the repository's directory.
    The commit is attempted whenever [git add] ended, also when it ended
    with an error status; it is skipped only when the spawn or the wait
    of [git add] raised.  The answer is [True] exactly when both commands
    ended. *)
Theorem commit_changes_outcomes (p message : string) (w : W) :
  exists o rest,
    trace_of (commit_changes p message) w = EvExec (cmd_stage p) o :: rest /\
    match o with
    | Exits _ _ _ =>
        exists o2 rest2,
          rest = EvExec (cmd_commit p message) o2 :: rest2 /\
          Forall (only (fun _ => False)) rest2 /\
          result_of (commit_changes p message) w =
            Ok (match o2 with Exits _ _ _ => true | _ => false end)
    | _ =>
        Forall (only (fun _ => False)) rest /\
        result_of (commit_changes p message) w = Ok false
    end.
Proof.
  apply (wp_sound (commit_changes p message)
           (fun tr r =>
              exists o rest,
                tr = EvExec (cmd_stage p) o :: rest /\
                match o with
                | Exits _ _ _ =>
                    exists o2 rest2,
                      rest = EvExec (cmd_commit p message) o2 :: rest2 /\
                      Forall (only (fun _ => False)) rest2 /\
                      r = Ok (match o2 with Exits _ _ _ => true | _ => false end)
                | _ => Forall (only (fun _ => False)) rest /\ r = Ok false
                end)).
  unfold commit_changes. run_tree;
    eexists; eexists; (split; [reflexivity | ]); cbv beta iota;
    first [ solve [split; [progress_lines | reflexivity]]
          | eexists; eexists; (split; [reflexivity | ]);
            (split; [progress_lines | reflexivity]) ].
Qed.

(** X19.  [update_repository] fetches, then asks for the current branch
    of the working copy, then pulls that branch from [origin]: the pull
    names the output of [git rev-parse] without its surrounding
    whitespace.  Each command is run as soon as the one before has ended,
    whatever its exit status; the sequence stops at the first spawn or
    wait that raises, and before the pull when the branch name is not
    text. *)
Theorem update_repository_sequence (p : string) (w : W) :
  exists o rest,
    trace_of (update_repository p) w = EvExec (cmd_fetch p) o :: rest /\
    match o with
    | Exits _ _ _ =>
        exists o2 rest2,
          rest = EvExec (cmd_rev_parse p) o2 :: rest2 /\
          match o2 with
          | Exits _ out _ =>
              match bytes_decode out with
              | inl text =>
                  exists o3 rest3,
                    rest2 = EvExec (cmd_pull p (str_strip text)) o3 :: rest3 /\
                    Forall (only (fun _ => False)) rest3
              | inr _ => Forall (only (fun _ => False)) rest2
              end
          | _ => Forall (only (fun _ => False)) rest2
          end
    | _ => Forall (only (fun _ => False)) rest
    end.
Proof.
  apply (wp_sound (update_repository p)
           (fun tr _ =>
              exists o rest,
                tr = EvExec (cmd_fetch p) o :: rest /\
                match o with
                | Exits _ _ _ =>
                    exists o2 rest2,
                      rest = EvExec (cmd_rev_parse p) o2 :: rest2 /\
                      match o2 with
                      | Exits _ out _ =>
                          match bytes_decode out with
                          | inl text =>
                              exists o3 rest3,
                                rest2 = EvExec (cmd_pull p (str_strip text)) o3
                                          :: rest3 /\
                                Forall (only (fun _ => False)) rest3
                          | inr _ => Forall (only (fun _ => False)) rest2
                          end
                      | _ => Forall (only (fun _ => False)) rest2
                      end
                | _ => Forall (only (fun _ => False)) rest
                end)).
  unfold update_repository. run_tree;
    eexists; eexists; (split; [reflexivity | ]); cbv beta iota;
    first [ solve [progress_lines]
          | eexists; eexists; (split; [reflexivity | ]); cbv beta iota;
            try rewrite Heqs;
            first [ solve [progress_lines]
                  | eexists; eexists; (split; [reflexivity | progress_lines]) ] ].
Qed.

(** X20.  No failure of a command gets out of a method.  Whatever the
    child processes do (a spawn that raises, a wait that raises, an end
    with any status, output that is not text), each of the ten methods
    of [ProjectInitializer] that run a command returns a value: the
    failure is turned into [False], [None] or the branch name [main].
    This is about the failures of spawning, waiting and decoding, which
    are the exceptions the handlers catch; the cancellation of a task is
    not an [Exception] and is not among them. *)
Theorem methods_catch_command_failures (p name branch message rname url expected : string)
    (w : W) :
  (exists b, result_of verify_git_ssh w = Ok b) /\
  (exists b, result_of (check_remote p expected) w = Ok b) /\
  (exists b, result_of (update_repository p) w = Ok b) /\
  (exists b, result_of (clone_repository self name p) w = Ok b) /\
  (exists b, result_of (get_current_branch p) w = Ok b) /\
  (exists b, result_of (checkout_branch p branch) w = Ok b) /\
  (exists b, result_of (commit_changes p message) w = Ok b) /\
  (exists b, result_of (add_remote p rname url) w = Ok b) /\
  (exists b, result_of (update_remote p rname url) w = Ok b) /\
  (exists b, result_of (delete_remote p rname) w = Ok b).
Proof.
  repeat split.
  - apply (wp_sound verify_git_ssh (fun _ r => exists b, r = Ok b)).
    eapply wp_mono; [ | apply verify_git_ssh_spec].
    intros tr r (o & rest & _ & _ & ->). eauto.
  - apply (wp_sound (check_remote p expected) (fun _ r => exists b, r = Ok b)).
    eapply wp_mono; [ | apply check_remote_spec].
    intros tr r (o & _ & ->). eauto.
  - apply (wp_sound (update_repository p) (fun _ r => exists b, r = Ok b)).
    eapply wp_mono; [ | apply update_repository_spec].
    intros tr r (o & rest & _ & _ & ->). eauto.
  - apply (wp_sound (clone_repository self name p) (fun _ r => exists b, r = Ok b)).
    eapply wp_mono; [ | apply clone_repository_spec].
    intros tr r [_ ->]. eauto.
  - apply (wp_sound (get_current_branch p) (fun _ r => exists b, r = Ok b)).
    eapply wp_mono; [ | apply get_current_branch_spec].
    intros tr r (o & rest & _ & _ & ->). eauto.
  - apply (wp_sound (checkout_branch p branch) (fun _ r => exists b, r = Ok b)).
    eapply wp_mono; [ | apply checkout_branch_spec].
    intros tr r (o & rest & _ & _ & [-> | ->]); eauto.
  - apply (wp_sound (commit_changes p message) (fun _ r => exists b, r = Ok b)).
    eapply wp_mono; [ | apply commit_changes_spec].
    intros tr r [_ ->]. eauto.
  - apply (wp_sound (add_remote p rname url) (fun _ r => exists b, r = Ok b)).
    eapply wp_mono; [ | apply add_remote_spec].
    intros tr r [_ ->]. eauto.
  - apply (wp_sound (update_remote p rname url) (fun _ r => exists b, r = Ok b)).
    eapply wp_mono; [ | apply update_remote_spec].
    intros tr r [_ ->]. eauto.
  - apply (wp_sound (delete_remote p rname) (fun _ r => exists b, r = Ok b)).
    eapply wp_mono; [ | apply delete_remote_spec].
    intros tr r [_ ->]. eauto.
Qed.

End MethodOutcomes.

(** ** The bound on the reconciliations in flight *)

Import Pool.

Lemma wp_not_false {A : Type} (t : prog A) : ~ wp t (fun _ _ => False).
Proof.
  induction t as [a | e | X e k IH]; simpl; auto.
  intros H. exact (IH (default_answer e) (H (default_answer e))).
Qed.

Lemma wp_impossible {A : Type} (t : prog A) (Q : list event -> result A -> Prop) :
  (forall tr r, ~ Q tr r) -> ~ wp t Q.
Proof.
  intros HQ H. apply (wp_not_false t).
  eapply wp_mono; [ | exact H]. intros tr r Hq. exact (HQ tr r Hq).
Qed.

Lemma releases_once_tail (ev : event) (tr : list event) :
  is_semaphore ev = false -> releases_once (ev :: tr) -> releases_once tr.
Proof.
  intros Hev (mid & H & Hmid). destruct mid as [ | ev' mid]; simpl in *.
  - injection H as -> _. discriminate Hev.
  - injection H as <- ->. apply andb_prop in Hmid. destruct Hmid as [_ Hmid].
    exists mid. auto.
Qed.

Lemma releases_once_release (tr : list event) :
  releases_once (EvRelease :: tr) -> balanced tr.
Proof.
  intros (mid & H & Hmid). destruct mid as [ | ev' mid]; simpl in *.
  - injection H as ->. left. reflexivity.
  - injection H as <- _. discriminate Hmid.
Qed.

Lemma releases_once_acquire (tr : list event) : ~ releases_once (EvAcquire :: tr).
Proof.
  intros (mid & H & Hmid). destruct mid as [ | ev' mid]; simpl in *.
  - discriminate H.
  - injection H as <- _. discriminate Hmid.
Qed.

Lemma balanced_acquire (tr : list event) :
  balanced (EvAcquire :: tr) -> releases_once tr.
Proof.
  intros [H | (mid & H & Hmid)]; [discriminate H | ].
  injection H as ->. exists mid. auto.
Qed.

Lemma balanced_release (tr : list event) : ~ balanced (EvRelease :: tr).
Proof.
  intros [H | (mid & H & Hmid)]; discriminate H.
Qed.

Lemma balanced_tail (ev : event) (tr : list event) :
  is_semaphore ev = false -> balanced (ev :: tr) -> balanced tr.
Proof.
  intros Hev [H | (mid & H & Hmid)].
  - left. simpl in H. apply andb_prop in H. apply H.
  - injection H as -> _. discriminate Hev.
Qed.

Lemma step_task_ok (a : oracle) (n : nat) (t : task) :
  task_ok t ->
  task_ok (snd (step_task a n t)) /\
  fst (step_task a n t) + weight (snd (step_task a n t)) = n + weight t.
Proof.
  destruct t as [h c]. unfold task_ok, step_task, weight. simpl.
  destruct c as [u | e | X e k]; simpl; [auto | auto | ].
  intros H.
  destruct e; simpl.
  all: try (split; [ | reflexivity];
            destruct h;
            (eapply wp_mono; [ | apply H]); cbv beta; intros tr r;
            solve [apply releases_once_tail; reflexivity
                  | apply balanced_tail; reflexivity]).
  - (* acquire *)
    destruct h.
    + exfalso. eapply wp_impossible; [ | exact (H tt)].
      intros tr r. apply releases_once_acquire.
    + destruct n as [ | n]; simpl.
      * split; [exact H | reflexivity].
      * split; [ | lia].
        eapply wp_mono; [ | apply (H tt)]. intros tr r. apply balanced_acquire.
  - (* release *)
    destruct h.
    + split; [ | simpl; lia].
      eapply wp_mono; [ | apply (H tt)]. intros tr r. apply releases_once_release.
    + exfalso. eapply wp_impossible; [ | exact (H tt)].
      intros tr r. apply balanced_release.
Qed.

Lemma step_at_ok (a : oracle) (i n : nat) (ts : list task) :
  Forall task_ok ts ->
  Forall task_ok (snd (step_at a i n ts)) /\
  fst (step_at a i n ts) + length (filter holding (snd (step_at a i n ts)))
    = n + length (filter holding ts).
Proof.
  revert i n. induction ts as [ | t ts IH]; intros i n Hts.
  - destruct i; simpl; auto.
  - inversion Hts as [ | t' ts' Ht Hrest]; subst.
    destruct i as [ | j]; cbn [step_at].
    + destruct (@step_task_ok a n t Ht) as [Hok Hsum].
      destruct (step_task a n t) as [n' t']. cbn [fst snd filter] in *.
      split; [constructor; assumption | ].
      unfold weight in Hsum.
      destruct (holding t'), (holding t); simpl; lia.
    + destruct (IH j n Hrest) as [Hok Hsum].
      destruct (step_at a j n ts) as [n' ts']. cbn [fst snd filter] in *.
      split; [constructor; assumption | ].
      destruct (holding t); simpl; lia.
Qed.

Lemma invariant_step (p : pool) (choice : nat * oracle) :
  invariant p -> invariant (step p choice).
Proof.
  unfold invariant, step, active. intros [Hsum Hok].
  destruct (@step_at_ok (snd choice) (fst choice) (permits p) (tasks p) Hok)
    as [Hok' Hsum'].
  destruct (step_at (snd choice) (fst choice) (permits p) (tasks p)) as [n ts].
  simpl in *. split; [lia | assumption].
Qed.

Lemma invariant_run (schedule : list (nat * oracle)) (p : pool) :
  invariant p -> invariant (run_schedule schedule p).
Proof.
  unfold run_schedule. revert p.
  induction schedule as [ | choice schedule IH]; simpl; intros p Hp; auto.
  apply IH. apply invariant_step. exact Hp.
Qed.

Lemma quiet_app (l l' : list event) : quiet l -> quiet l' -> quiet (l ++ l').
Proof.
  unfold quiet. intros H H'. rewrite forallb_app, H, H'. reflexivity.
Qed.

Lemma quiet_only (pc : command -> Prop) (tr : list event) :
  Forall (only pc) tr -> quiet tr.
Proof.
  unfold quiet. intros H. induction H as [ | ev tr Hev _ IH]; simpl; auto.
  rewrite IH, andb_true_r. destruct ev; simpl in *; auto; contradiction.
Qed.

Lemma quiet_cons (ev : event) (tr : list event) :
  is_semaphore ev = false -> quiet tr -> quiet (ev :: tr).
Proof.
  unfold quiet. intros Hev H. simpl. rewrite Hev, H. reflexivity.
Qed.

Section Tasks.
Context {RT : Runtime}.
Variable self : ProjectInitializer.

Lemma sync_log_quiet (org name p expected target : string) (tr : list event) :
  sync_log org name p expected target tr -> quiet tr.
Proof.
  intros H. destruct H;
    repeat match goal with
           | H : checkout_log _ _ _ |- _ =>
               apply checkout_log_runs, quiet_only in H
           | H : update_log _ _ |- _ => apply update_log_runs, quiet_only in H
           | H : clone_log _ _ _ _ |- _ => apply clone_log_runs, quiet_only in H
           end;
    repeat (apply quiet_cons; [reflexivity | ]);
    repeat (apply quiet_app; [assumption | ]);
    repeat (apply quiet_cons; [reflexivity | ]);
    repeat (apply quiet_app; [assumption | ]);
    repeat (apply quiet_cons; [reflexivity | ]);
    reflexivity.
Qed.

Lemma reconcile_log_quiet (name : string) (tr : list event) :
  reconcile_log self name tr -> quiet tr.
Proof.
  intros H. destruct H as [dir o lines tr_sync tr_remote tr_commit m Hl Hs Hr Hc].
  repeat (apply quiet_cons; [reflexivity | ]).
  apply quiet_app; [exact (quiet_only Hl) | ].
  apply quiet_app; [exact (sync_log_quiet Hs) | ].
  apply quiet_app.
  - exact (quiet_only (remote_log_runs Hr)).
  - exact (quiet_only (commit_log_runs Hc)).
Qed.

(** Every path through [process_repository] takes the semaphore first,
    gives it back last, and does not touch it in between, whether the
    reconciliation returns or raises. *)
Lemma process_repository_brackets (repo : pyval) :
  wp (process_repository self repo)
     (fun tr _ => exists mid, tr = EvAcquire :: mid ++ [EvRelease] /\ quiet mid).
Proof.
  eapply wp_mono; [ | apply process_repository_spec]. cbv beta.
  intros tr r H. destruct (repo_name_of repo) as [name | ].
  - destruct H as [[_ (body & -> & Hbody)]
                  | (msg & _ & (m & dir & o & lines & -> & Hlines))].
    + exists body. split; [reflexivity | exact (reconcile_log_quiet Hbody)].
    + exists (EvPrint m :: EvGetcwd dir :: EvExec (cmd_rev_parse dir) o
                :: lines ++ [EvExists (repo_path_of self name) (inr msg)]).
      split; [cbn; rewrite <- app_assoc; reflexivity | ].
      repeat (apply quiet_cons; [reflexivity | ]).
      apply quiet_app; [exact (quiet_only Hlines) | reflexivity].
  - destruct H as [-> _]. exists []. split; reflexivity.
Qed.

Lemma start_invariant (repos : list pyval) : invariant (start self repos).
Proof.
  unfold invariant, start, active. cbn [permits tasks]. split.
  - induction repos as [ | repo repos IH]; cbn [map filter holding length]; auto.
  - induction repos as [ | repo repos IH]; cbn [map]; constructor; auto.
    unfold task_ok. cbn [holding code].
    eapply wp_mono; [ | apply process_repository_brackets].
    intros tr r (mid & -> & Hmid). right. exists mid. auto.
Qed.

(** C8.  However the tasks of a run interleave and whatever the
    environment answers, at most [semaphore_capacity] = 5 reconciliations
    hold a permit at any point; and every reconciliation takes its permit
    before its first step and gives it back after its last, on the paths
    that return as on the paths that raise. *)
Theorem at_most_five_active (repos : list pyval)
    (schedule : list (nat * oracle)) :
  active (run_schedule schedule (start self repos)) <= semaphore_capacity /\
  semaphore_capacity = 5 /\
  forall (repo : pyval) (W : Type) (WD : World W) (w : W),
  exists mid,
    trace_of (process_repository self repo) w = EvAcquire :: mid ++ [EvRelease] /\
    existsb is_semaphore mid = false.
Proof.
  split; [ | split; [reflexivity | ]].
  - destruct (invariant_run schedule (start_invariant repos)) as [Hsum _]. lia.
  - intros repo W WD w.
    destruct (wp_sound (process_repository self repo) _ w
                (process_repository_brackets repo)) as (mid & Hmid & Hq).
    exists mid. split; [exact Hmid | ].
    unfold quiet in Hq. clear Hmid.
    induction mid as [ | ev mid IH]; simpl in *; auto.
    apply andb_prop in Hq. destruct Hq as [Hev Hq].
    apply negb_true_iff in Hev. rewrite Hev, (IH Hq). reflexivity.
Qed.

End Tasks.
(** ** Permits come back, and some task can always move *)

Lemma step_task_moves (a : oracle) (n : nat) (t : task) :
  finished t = false -> (waits t = true -> n <> 0) ->
  moved t (Some (snd (step_task a n t))).
Proof.
  destruct t as [h c]. unfold finished, waits, moved, step_task. cbn [code].
  destruct c as [u | e | X e k]; try discriminate.
  intros _ Hn. destruct e; cbn; eauto.
  destruct n as [ | n]; [exfalso; apply Hn; reflexivity | ]. cbn. eauto.
Qed.

Lemma step_at_nth (a : oracle) (ts : list task) :
  forall (i n : nat) (t : task),
    nth_error ts i = Some t ->
    nth_error (snd (step_at a i n ts)) i = Some (snd (step_task a n t)).
Proof.
  induction ts as [ | t0 ts IH]; intros i n t Hi.
  - destruct i; discriminate Hi.
  - destruct i as [ | j]; cbn [step_at].
    + injection Hi as ->. destruct (step_task a n t) as [n' t']. reflexivity.
    + specialize (IH j n t Hi).
      destruct (step_at a j n ts) as [n' ts']. exact IH.
Qed.

Lemma holder_not_finished (t : task) :
  task_ok t -> holding t = true -> finished t = false /\ waits t = false.
Proof.
  destruct t as [h c]. unfold task_ok, finished, waits. cbn [holding code].
  intros Hok ->.
  destruct c as [u | e | X e k]; cbn in Hok.
  - destruct Hok as (mid & H & _). destruct mid; discriminate H.
  - destruct Hok as (mid & H & _). destruct mid; discriminate H.
  - split; [reflexivity | ].
    destruct e; try reflexivity.
    exfalso. eapply wp_impossible; [ | exact (Hok tt)].
    intros tr r. apply releases_once_acquire.
Qed.

Lemma some_holder (ts : list task) :
  0 < length (filter holding ts) ->
  exists i t, nth_error ts i = Some t /\ holding t = true.
Proof.
  induction ts as [ | t ts IH]; cbn [filter length]; [lia | ].
  destruct (holding t) eqn:Ht.
  - intros _. exists 0, t. auto.
  - intros H. destruct (IH H) as (i & t' & Hi & Ht'). exists (S i), t'. auto.
Qed.

Lemma some_unfinished (ts : list task) :
  forallb finished ts = false ->
  exists i t, nth_error ts i = Some t /\ finished t = false.
Proof.
  induction ts as [ | t ts IH]; cbn [forallb]; [discriminate | ].
  destruct (finished t) eqn:Ht.
  - intros H. destruct (IH H) as (i & t' & Hi & Ht'). exists (S i), t'. auto.
  - intros _. exists 0, t. auto.
Qed.

Lemma finished_not_holding (ts : list task) :
  Forall task_ok ts -> forallb finished ts = true -> length (filter holding ts) = 0.
Proof.
  intros Hok. induction Hok as [ | t ts Ht _ IH]; cbn [forallb filter]; auto.
  intros H. apply andb_prop in H. destruct H as [Hfin Hrest].
  destruct (holding t) eqn:Hh; [ | exact (IH Hrest)].
  destruct (@holder_not_finished t Ht Hh) as [Hno _]. congruence.
Qed.

Section Progress.
Context {RT : Runtime}.
Variable self : ProjectInitializer.

(** X21.  No permit is ever lost.  However the reconciliations of a run
    interleave and whatever the environment answers, the permits left in
    the semaphore and the reconciliations in flight add up to 5; once every
    task has returned or raised, all 5 permits are back. *)
Theorem permits_come_back (repos : list pyval) (schedule : list (nat * oracle)) :
  permits (run_schedule schedule (start self repos)) +
    active (run_schedule schedule (start self repos)) = semaphore_capacity /\
  (forallb finished (tasks (run_schedule schedule (start self repos))) = true ->
   permits (run_schedule schedule (start self repos)) = semaphore_capacity).
Proof.
  destruct (invariant_run schedule (start_invariant self repos)) as [Hsum Hok].
  split; [exact Hsum | ].
  intros Hdone. unfold active in Hsum.
  rewrite (@finished_not_holding _ Hok Hdone) in Hsum. lia.
Qed.

(** X22.  The semaphore never blocks the run for good.  At every point of
    every interleaving, as long as some reconciliation has not ended, there
    is a task that can take its next step: either a permit is left, or one
    of the reconciliations holding a permit is not waiting for one. *)
Theorem some_task_can_move (repos : list pyval) (schedule : list (nat * oracle)) :
  forallb finished (tasks (run_schedule schedule (start self repos))) = false ->
  exists i t,
    nth_error (tasks (run_schedule schedule (start self repos))) i = Some t /\
    forall a : oracle,
      moved t (nth_error
                 (tasks (step (run_schedule schedule (start self repos)) (i, a))) i).
Proof.
  destruct (invariant_run schedule (start_invariant self repos)) as [Hsum Hok].
  set (p := run_schedule schedule (start self repos)) in *.
  intros Hleft.
  assert (Hstep : forall i t a,
             nth_error (tasks p) i = Some t ->
             nth_error (tasks (step p (i, a))) i
               = Some (snd (step_task a (permits p) t))).
  { intros i t a Hi. unfold step. cbn [fst snd].
    pose proof (@step_at_nth a (tasks p) i (permits p) t Hi) as H.
    destruct (step_at a i (permits p) (tasks p)) as [n ts]. exact H. }
  destruct (permits p) as [ | n] eqn:Hpermits.
  - destruct (@some_holder (tasks p)) as (i & t & Hi & Ht).
    { unfold active, semaphore_capacity in Hsum. lia. }
    assert (Htask : task_ok t).
    { rewrite Forall_forall in Hok. apply Hok. eapply nth_error_In. exact Hi. }
    destruct (@holder_not_finished t Htask Ht) as [Hfin Hwait].
    exists i, t. split; [exact Hi | ]. intros a.
    rewrite (Hstep i t a Hi). apply step_task_moves; [exact Hfin | ].
    rewrite Hwait. discriminate.
  - destruct (@some_unfinished (tasks p) Hleft) as (i & t & Hi & Hfin).
    exists i, t. split; [exact Hi | ]. intros a.
    rewrite (Hstep i t a Hi). apply step_task_moves; [exact Hfin | ].
    intros _. discriminate.
Qed.

End Progress.

(** ** Runs on concrete environments *)

Import Example.
Import Scenario.

Example parse_catalog :
  json_parse ("[{" ++ quoted "name" ++ ": " ++ quoted "terraform-gcp-compute"
              ++ ", " ++ quoted "archived" ++ ": false}]")%string
  = inl (PList [PDict [("name", PStr "terraform-gcp-compute");
                       ("archived", PBool false)]]).
Proof. reflexivity. Qed.

Example compute_reconciled :
  git_words (trace_of (process_repository (plain_run [compute]) compute)
                      checked_out_world)
  = [["git"; "rev-parse"; "--abbrev-ref"; "HEAD"];
     ["git"; "remote"; "get-url"; "origin"];
     ["git"; "checkout"; "feature/gke"];
     ["git"; "fetch"];
     ["git"; "rev-parse"; "--abbrev-ref"; "HEAD"];
     ["git"; "pull"; "origin"; "feature/gke"]].
Proof. vm_compute. reflexivity. Qed.

Example compute_cloned :
  git_words (trace_of (process_repository (mirror_run [compute] []) compute)
                      fresh_world)
  = [["git"; "rev-parse"; "--abbrev-ref"; "HEAD"];
     ["git"; "clone"; "git@github.com:HappyPathway/terraform-gcp-compute.git";
      "/work/terraform-gcp-compute"];
     ["git"; "checkout"; "feature/gke"];
     ["git"; "remote"; "add"; "mirror"; "git@mirror:infra/terraform-gcp-compute"];
     ["git"; "add"; "."];
     ["git"; "commit"; "-m"; "sync"; "--allow-empty"]].
Proof. vm_compute. reflexivity. Qed.

(** *** C1 *)

(** With the working copy present and its origin as expected, the fetch
    does not come before the checkout: the checkout is the first of the
    two. *)
Lemma update_not_before_checkout :
  existsb (reports_present compute_path)
          (trace_of (process_repository (plain_run [compute]) compute)
                    checked_out_world) = true /\
  existsb (reports_origin "git@github.com:HappyPathway/terraform-gcp-compute.git")
          (trace_of (process_repository (plain_run [compute]) compute)
                    checked_out_world) = true /\
  happens_before is_fetch is_checkout
          (trace_of (process_repository (plain_run [compute]) compute)
                    checked_out_world) = false /\
  happens_before is_pull is_checkout
          (trace_of (process_repository (plain_run [compute]) compute)
                    checked_out_world) = false.
Proof. vm_compute. auto. Qed.

Lemma checkout_precedes_update_witness :
  repo_name_of compute = Some "terraform-gcp-compute" /\
  existsb (reports_present (repo_path_of (plain_run [compute]) "terraform-gcp-compute"))
          (trace_of (process_repository (plain_run [compute]) compute)
                    checked_out_world) = true /\
  existsb (reports_origin (expected_origin "HappyPathway" "terraform-gcp-compute"))
          (trace_of (process_repository (plain_run [compute]) compute)
                    checked_out_world) = true /\
  (happens_before is_checkout is_fetch
          (trace_of (process_repository (plain_run [compute]) compute)
                    checked_out_world) = true /\
   happens_before is_fetch is_pull
          (trace_of (process_repository (plain_run [compute]) compute)
                    checked_out_world) = true).
Proof.
  split; [reflexivity | ].
  split; [vm_compute; reflexivity | ].
  split; [vm_compute; reflexivity | ].
  apply (checkout_precedes_update (plain_run [compute]) compute
           (name := "terraform-gcp-compute") checked_out_world).
  - reflexivity.
  - vm_compute; reflexivity.
  - vm_compute; reflexivity.
Defined.

(** *** C2 *)

Lemma excluded_repository_untouched_witness :
  repo_name_of compute = Some "terraform-gcp-compute" /\
  str_in "terraform-gcp-compute"
         (excluded_repos (mirror_run [compute; storage] ["terraform-gcp-compute"]))
    = true /\
  existsb is_remote_operation
    (trace_of (process_repository
                 (mirror_run [compute; storage] ["terraform-gcp-compute"]) compute)
              fresh_world) = false /\
  existsb is_commit
    (trace_of (process_repository
                 (mirror_run [compute; storage] ["terraform-gcp-compute"]) compute)
              fresh_world) = false.
Proof.
  split; [reflexivity | ]. split; [reflexivity | ].
  destruct (excluded_repository_untouched
              (mirror_run [compute; storage] ["terraform-gcp-compute"]) compute
              (name := "terraform-gcp-compute") fresh_world eq_refl eq_refl)
    as (H1 & H2 & _).
  split; assumption.
Defined.

(** The same request reaches a repository that is not excluded. *)
Example storage_not_excluded :
  existsb is_remote_operation
    (trace_of (process_repository
                 (mirror_run [compute; storage] ["terraform-gcp-compute"]) storage)
              fresh_world) = true /\
  existsb is_commit
    (trace_of (process_repository
                 (mirror_run [compute; storage] ["terraform-gcp-compute"]) storage)
              fresh_world) = true.
Proof. vm_compute. auto. Qed.

(** *** C3 *)



(** In that run the checkout of both repositories ends with status 1, no
    existence test raises, and the exit status is 0. *)
Example failed_checkouts_exit_zero :
  existsb exists_raised
          (trace_of (run (plain_run [compute; storage])) missing_branch_world) = false /\
  exit_status (result_of (run (plain_run [compute; storage])) missing_branch_world)
    = 0%Z.
Proof. vm_compute. auto. Qed.

(** A catalog that is not a list of named descriptors ends the run with an
    uncaught exception although access was verified. *)
Example unnamed_descriptor_exit :
  exit_status (result_of (run (plain_run [PDict [("archived", PBool false)]]))
                         checked_out_world) = 1%Z.
Proof. vm_compute. reflexivity. Qed.

(** *** C4 *)

(** The branch is missing and [git checkout feature/gke] ends with status
    1: [checkout_branch] does not go on to [git checkout -b], and answers
    with the branch name as if it had been checked out. *)
Example checkout_branch_keeps_failed_checkout :
  trace_of (checkout_branch compute_path "feature/gke") missing_branch_world
    = [EvExec (cmd_checkout compute_path "feature/gke")
              (Exits 1 ""
                 "error: pathspec 'feature/gke' did not match any file(s) known to git")] /\
  result_of (checkout_branch compute_path "feature/gke") missing_branch_world
    = Ok (Some "feature/gke") /\
  existsb (on_verb (one_of [CheckoutNew]))
          (trace_of (checkout_branch compute_path "feature/gke") missing_branch_world)
    = false.
Proof. vm_compute. auto. Qed.

(** *** C5 *)



(** *** C6 *)


(** *** C7 *)

(** Two repositories of one run, two target branches: the branch query of
    the second reconciliation could not be spawned, and
    [get_current_branch] fell back to ["main"]. *)
Lemma target_branch_differs_across_repositories :
  access_verified (trace_of (run (plain_run [compute; storage])) flaky_world)
    = Some true /\
  checkout_targets (trace_of (run (plain_run [compute; storage])) flaky_world)
    = ["feature/gke"; "main"] /\
  "feature/gke" <> "main".
Proof. vm_compute. repeat split; discriminate. Qed.

Lemma target_branch_from_workspace_witness :
  repo_name_of storage = Some "terraform-gcp-storage" /\
  exists m dir o rest,
    trace_of (process_repository (plain_run [compute; storage]) storage) fresh_world =
      EvAcquire :: EvPrint m :: EvGetcwd dir :: EvExec (cmd_rev_parse dir) o :: rest /\
    forall c o',
      In (EvExec c o') rest ->
      one_of [Checkout; CheckoutNew] (verb_of c) = true ->
      c = cmd_checkout (repo_path_of (plain_run [compute; storage]) "terraform-gcp-storage")
                       (branch_reading o) \/
      c = cmd_checkout_new
            (repo_path_of (plain_run [compute; storage]) "terraform-gcp-storage")
            (branch_reading o).
Proof.
  split; [reflexivity | ].
  apply (target_branch_from_workspace (plain_run [compute; storage]) storage
           (name := "terraform-gcp-storage") fresh_world).
  reflexivity.
Defined.

(** The descriptor names another default branch; the checkout still gets
    the branch of the workspace. *)
Example descriptor_branch_ignored :
  checkout_targets
    (trace_of (process_repository
                 (plain_run [])
                 (PDict [("name", PStr "terraform-gcp-storage");
                         ("github_default_branch", PStr "release")]))
              fresh_world)
  = ["feature/gke"].
Proof. vm_compute. reflexivity. Qed.

(** *** C9 *)

(** Every process of [update_repository] was spawned and awaited without
    an exception, and the method still answers [False]: the output of
    [git rev-parse] is not UTF-8 and [decode] raised inside the [try]. *)
Lemma update_fails_without_exception :
  existsb raised (trace_of (update_repository compute_path) latin1_world) = false /\
  result_of (update_repository compute_path) latin1_world = Ok false.
Proof. vm_compute. auto. Qed.

(** A clone that git refuses still answers [True]. *)
Example failed_clone_reported_as_success :
  result_of (clone_repository (plain_run [compute]) "terraform-gcp-compute" compute_path)
            (world_with (fun _ _ => Exits 128 "" "fatal: repository not found") false)
  = Ok true.
Proof. vm_compute. reflexivity. Qed.

(** *** C10 *)

(** A [bytes] object is not a string, and the constructor takes it. *)
Lemma bytes_catalog_accepted :
  is_str (PBytes "[]") = false /\
  result_of (init "gcp-kubernetes" "HappyPathway" (PBytes "[]")
                  None None None None None) checked_out_world
  = Ok (plain_run []).
Proof. vm_compute. auto. Qed.

Lemma init_requires_json_text_witness :
  json_text (PList [compute; storage]) = false /\
  init "gcp-kubernetes" "HappyPathway" (PList [compute; storage])
       None None None None None = Raise not_json_text_error /\
  module_names "true" = None /\
  main module_names [] [] (fun _ => inl EmptyString) no_flags
    = Raise (Exception "NameError" "name 'true' is not defined").
Proof.
  split; [reflexivity | ].
  destruct (init_requires_json_text "gcp-kubernetes" "HappyPathway"
              (PList [compute; storage]) None None None None None eq_refl)
    as (Hinit & _ & _ & Hmain).
  split; [exact Hinit | ].
  split; [reflexivity | ].
  apply Hmain. reflexivity.
Defined.

(** With the three JSON words bound the literal has a value, a list, and
    the constructor refuses it. *)
Example bound_names_reach_constructor :
  result_of (main json_names [] [] (fun _ => inl EmptyString) no_flags) checked_out_world
    = Err not_json_text_error /\
  trace_of (main json_names [] [] (fun _ => inl EmptyString) no_flags) checked_out_world
    = [].
Proof. vm_compute. auto. Qed.

(** The catalog as a JSON document is what the constructor is written
    for. *)
Example text_catalog_accepted :
  result_of (init "gcp-kubernetes" "HappyPathway"
                  (PStr ("[{" ++ quoted "name" ++ ": "
                         ++ quoted "terraform-gcp-compute" ++ "}]")%string)
                  None None None None None) checked_out_world
  = Ok (plain_run [PDict [("name", PStr "terraform-gcp-compute")]]).
Proof. vm_compute. reflexivity. Qed.

(** ** Further runs on concrete environments *)

Import Cases.

Lemma optional_steps_need_request_witness :
  truthy (commit_message (plain_run [compute; storage])) = false /\
  truthy (remote_operation (plain_run [compute; storage])) = false /\
  existsb is_commit
          (trace_of (run (plain_run [compute; storage])) checked_out_world) = false /\
  existsb is_remote_operation
          (trace_of (run (plain_run [compute; storage])) checked_out_world) = false.
Proof.
  split; [reflexivity | ]. split; [reflexivity | ].
  destruct (optional_steps_need_request (plain_run [compute; storage])
              checked_out_world) as [Hcommit Hremote].
  split; [exact (Hcommit eq_refl) | exact (Hremote eq_refl)].
Defined.

Lemma run_spares_excluded_witness :
  In (EvExec (cmd_stage compute_path) (Exits 0 "" ""))
     (trace_of (run (mirror_run [compute; storage] ["terraform-gcp-storage"]))
               checked_out_world) /\
  one_of optional_verbs (verb_of (cmd_stage compute_path)) = true /\
  exists repo name,
    In repo (catalog_items
               (repositories (mirror_run [compute; storage] ["terraform-gcp-storage"]))) /\
    repo_name_of repo = Some name /\
    excluded (mirror_run [compute; storage] ["terraform-gcp-storage"]) name = false /\
    cwd (cmd_stage compute_path)
      = Some (repo_path_of (mirror_run [compute; storage] ["terraform-gcp-storage"])
                           name).
Proof.
  assert (Hin : In (EvExec (cmd_stage compute_path) (Exits 0 "" ""))
                   (trace_of (run (mirror_run [compute; storage]
                                               ["terraform-gcp-storage"]))
                             checked_out_world)).
  { vm_compute. repeat (first [left; reflexivity | right]). }
  split; [exact Hin | ]. split; [reflexivity | ].
  eapply run_spares_excluded; [exact Hin | reflexivity].
Defined.

(** The excluded repository of that run is brought in and nothing more. *)
Example excluded_repository_in_a_run :
  filter is_command
         (trace_of (run (mirror_run [storage] ["terraform-gcp-storage"]))
                   checked_out_world)
  = map (fun c => EvExec c (healthy 0 c))
        [cmd_ssh;
         cmd_rev_parse workspace;
         cmd_get_url "/work/terraform-gcp-storage";
         cmd_checkout "/work/terraform-gcp-storage" "feature/gke";
         cmd_fetch "/work/terraform-gcp-storage";
         cmd_rev_parse "/work/terraform-gcp-storage";
         cmd_pull "/work/terraform-gcp-storage" "feature/gke"].
Proof. vm_compute. reflexivity. Qed.

Lemma message_needs_commit_flag_witness :
  arg_commit message_only = false /\
  existsb is_commit
          (trace_of (main_async message_only (PStr catalog_text)) checked_out_world)
    = false.
Proof.
  split; [reflexivity | ].
  apply (message_needs_commit_flag message_only (PStr catalog_text)
           checked_out_world).
  reflexivity.
Defined.

Lemma access_checked_once_and_first_witness :
  existsb is_reconciliation
          (trace_of (run (plain_run [compute; storage])) checked_out_world) = true /\
  happens_before is_ssh is_reconciliation
          (trace_of (run (plain_run [compute; storage])) checked_out_world) = true.
Proof.
  split; [vm_compute; reflexivity | ].
  apply (access_checked_once_and_first (plain_run [compute; storage])
           checked_out_world).
  vm_compute; reflexivity.
Defined.

Lemma base_dir_failure_stops_run_witness :
  In (EvMakedirs (base_dir (plain_run [compute]))
                 (Some "[Errno 13] Permission denied: '/work'"))
     (trace_of (run (plain_run [compute])) read_only_world) /\
  exit_status (result_of (run (plain_run [compute])) read_only_world) = 1%Z /\
  exists m,
    trace_of (run (plain_run [compute])) read_only_world
      = [EvPrint m;
         EvMakedirs (base_dir (plain_run [compute]))
                    (Some "[Errno 13] Permission denied: '/work'")].
Proof.
  assert (Hin : In (EvMakedirs (base_dir (plain_run [compute]))
                               (Some "[Errno 13] Permission denied: '/work'"))
                   (trace_of (run (plain_run [compute])) read_only_world)).
  { vm_compute. right. left. reflexivity. }
  split; [exact Hin | ].
  apply (base_dir_failure_stops_run (plain_run [compute]) read_only_world).
  exact Hin.
Defined.

Lemma run_on_uniterable_catalog_witness :
  iterable (repositories null_run) = false /\
  access_verified (trace_of (run null_run) checked_out_world) = Some true /\
  (exists msg,
      result_of (run null_run) checked_out_world = Err (Exception "TypeError" msg)) /\
  exit_status (result_of (run null_run) checked_out_world) = 1%Z /\
  existsb is_reconciliation (trace_of (run null_run) checked_out_world) = false.
Proof.
  split; [reflexivity | ]. split; [vm_compute; reflexivity | ].
  apply (run_on_uniterable_catalog null_run checked_out_world).
  - reflexivity.
  - vm_compute; reflexivity.
Defined.

Lemma run_on_empty_catalog_witness :
  iterable (repositories (plain_run [])) = true /\
  catalog_items (repositories (plain_run [])) = [] /\
  access_verified (trace_of (run (plain_run [])) checked_out_world) = Some true /\
  result_of (run (plain_run [])) checked_out_world = Ok tt /\
  existsb is_reconciliation (trace_of (run (plain_run [])) checked_out_world) = false.
Proof.
  split; [reflexivity | ]. split; [reflexivity | ].
  split; [vm_compute; reflexivity | ].
  apply (run_on_empty_catalog (plain_run []) checked_out_world).
  - reflexivity.
  - reflexivity.
  - vm_compute; reflexivity.
Defined.

Lemma nameless_descriptor_raises_witness :
  repo_name_of anonymous = None /\
  trace_of (process_repository (plain_run [anonymous]) anonymous) checked_out_world
    = [EvAcquire; EvRelease] /\
  exists cls msg,
    result_of (process_repository (plain_run [anonymous]) anonymous) checked_out_world
      = Err (Exception cls msg) /\
    (cls = "KeyError" \/ cls = "TypeError").
Proof.
  split; [reflexivity | ].
  apply (nameless_descriptor_raises (plain_run [anonymous]) anonymous
           checked_out_world).
  reflexivity.
Defined.

Lemma remote_mismatch_skips_sync_witness :
  repo_name_of compute = Some "terraform-gcp-compute" /\
  existsb (reports_present (repo_path_of (plain_run [compute]) "terraform-gcp-compute"))
          (trace_of (process_repository (plain_run [compute]) compute) forked_world)
    = true /\
  existsb (reports_origin (expected_origin "HappyPathway" "terraform-gcp-compute"))
          (trace_of (process_repository (plain_run [compute]) compute) forked_world)
    = false /\
  existsb (on_verb (one_of [Checkout; CheckoutNew; Fetch; Pull; Clone]))
          (trace_of (process_repository (plain_run [compute]) compute) forked_world)
    = false /\
  In (EvPrint ("❌ Remote mismatch for " ++ "terraform-gcp-compute")%string)
     (trace_of (process_repository (plain_run [compute]) compute) forked_world) /\
  In (EvPrint ("Expected: " ++ expected_origin
                                 (repo_org (plain_run [compute]))
                                 "terraform-gcp-compute")%string)
     (trace_of (process_repository (plain_run [compute]) compute) forked_world).
Proof.
  split; [reflexivity | ].
  split; [vm_compute; reflexivity | ].
  split; [vm_compute; reflexivity | ].
  apply (remote_mismatch_skips_sync (plain_run [compute]) compute
           (name := "terraform-gcp-compute") forked_world).
  - reflexivity.
  - vm_compute; reflexivity.
  - vm_compute; reflexivity.
Defined.

Lemma absent_copy_cloned_first_witness :
  repo_name_of compute = Some "terraform-gcp-compute" /\
  existsb (reports_absent (repo_path_of (plain_run [compute]) "terraform-gcp-compute"))
          (trace_of (process_repository (plain_run [compute]) compute)
                    unreachable_world) = true /\
  existsb failed_clone
          (trace_of (process_repository (plain_run [compute]) compute)
                    unreachable_world) = true /\
  happens_before is_clone is_checkout
          (trace_of (process_repository (plain_run [compute]) compute)
                    unreachable_world) = true /\
  existsb (on_verb (one_of [RemoteGetUrl; Fetch; Pull]))
          (trace_of (process_repository (plain_run [compute]) compute)
                    unreachable_world) = false /\
  existsb is_checkout
          (trace_of (process_repository (plain_run [compute]) compute)
                    unreachable_world) = false.
Proof.
  split; [reflexivity | ].
  split; [vm_compute; reflexivity | ].
  split; [vm_compute; reflexivity | ].
  destruct (absent_copy_cloned_first (plain_run [compute]) compute
              (name := "terraform-gcp-compute") unreachable_world eq_refl)
    as (Horder & Hnone & Hfailed).
  - vm_compute; reflexivity.
  - split; [exact Horder | ]. split; [exact Hnone | ].
    apply Hfailed. vm_compute; reflexivity.
Defined.


(** The origin of the working copy is a fork: the reconciliation leaves
    it alone, then adds the remote and commits all the same. *)
Lemma requested_steps_always_attempted_witness :
  repo_name_of compute = Some "terraform-gcp-compute" /\
  excluded (mirror_run [compute] []) "terraform-gcp-compute" = false /\
  result_of (process_repository (mirror_run [compute] []) compute) forked_world
    = Ok tt /\
  existsb is_sync
     (trace_of (process_repository (mirror_run [compute] []) compute) forked_world)
    = true /\
  (exists o,
      In (EvExec (cmd_stage (repo_path_of (mirror_run [compute] [])
                                          "terraform-gcp-compute")) o)
         (trace_of (process_repository (mirror_run [compute] []) compute)
                   forked_world)) /\
  (exists o,
      In (EvExec (cmd_remote_add
                    (repo_path_of (mirror_run [compute] []) "terraform-gcp-compute")
                    "mirror" ("git@mirror:infra/" ++ "terraform-gcp-compute")%string) o)
         (trace_of (process_repository (mirror_run [compute] []) compute)
                   forked_world)).
Proof.
  split; [reflexivity | ]. split; [reflexivity | ].
  assert (Hreturned :
            result_of (process_repository (mirror_run [compute] []) compute)
                      forked_world = Ok tt).
  { vm_compute. reflexivity. }
  split; [exact Hreturned | ].
  split; [vm_compute; reflexivity | ].
  destruct (requested_steps_always_attempted (mirror_run [compute] []) compute
              (name := "terraform-gcp-compute") forked_world eq_refl eq_refl
              Hreturned)
    as (Hcommit & _ & Hremote).
  split.
  - apply (Hcommit "sync"). split; [reflexivity | discriminate].
  - apply (Hremote "mirror" "git@mirror:infra/").
    + split; [reflexivity | discriminate].
    + split; [reflexivity | discriminate].
    + reflexivity.
Defined.

Lemma steps_in_order_witness :
  repo_name_of compute = Some "terraform-gcp-compute" /\
  exists first second third,
    trace_of (process_repository (mirror_run [compute] []) compute) checked_out_world
      = first ++ second ++ third /\
    existsb is_remote_operation first = false /\
    existsb is_commit first = false /\
    existsb is_sync second = false /\
    existsb is_commit second = false /\
    existsb is_sync third = false /\
    existsb is_remote_operation third = false.
Proof.
  split; [reflexivity | ].
  apply (steps_in_order (mirror_run [compute] []) compute
           (name := "terraform-gcp-compute") checked_out_world).
  reflexivity.
Defined.

(** A fetch that ends with an error status is followed by the pull. *)
Example pull_follows_failed_fetch :
  git_words
    (trace_of (update_repository compute_path)
              (world_with (fun n c =>
                             match verb_of c with
                             | Fetch => Exits 128 "" "fatal: unable to access"
                             | _ => healthy n c
                             end) true))
  = [["git"; "fetch"];
     ["git"; "rev-parse"; "--abbrev-ref"; "HEAD"];
     ["git"; "pull"; "origin"; "feature/gke"]].
Proof. vm_compute. reflexivity. Qed.

Lemma permits_come_back_witness :
  forallb finished
          (tasks (run_schedule twice (start (plain_run [anonymous]) [anonymous])))
    = true /\
  permits (run_schedule twice (start (plain_run [anonymous]) [anonymous]))
    = semaphore_capacity.
Proof.
  split; [vm_compute; reflexivity | ].
  apply (permits_come_back (plain_run [anonymous]) [anonymous] twice).
  vm_compute; reflexivity.
Defined.

Lemma some_task_can_move_witness :
  forallb finished
          (tasks (run_schedule [] (start (plain_run [compute]) [compute]))) = false /\
  exists i t,
    nth_error (tasks (run_schedule [] (start (plain_run [compute]) [compute]))) i
      = Some t /\
    forall a : oracle,
      moved t (nth_error
                 (tasks (step (run_schedule [] (start (plain_run [compute]) [compute]))
                              (i, a))) i).
Proof.
  split; [reflexivity | ].
  apply (some_task_can_move (plain_run [compute]) [compute] []).
  reflexivity.
Defined.

(** A catalog that is not a JSON document stops [main_async] before any
    effect. *)
Example broken_catalog_has_no_effect :
  trace_of (main_async message_only (PStr "[{")) checked_out_world = [] /\
  exit_status (result_of (main_async message_only (PStr "[{")) checked_out_world)
    = 1%Z.
Proof. vm_compute. auto. Qed.

Lemma launcher_stops_before_run_witness :
  arg_debug no_flags = false /\
  trace_of (main json_names [] [] (fun _ => inl EmptyString) no_flags) checked_out_world
    = [] /\
  exists cls msg,
    result_of (main json_names [] [] (fun _ => inl EmptyString) no_flags)
              checked_out_world = Err (Exception cls msg) /\
    (cls = "NameError" \/ cls = "TypeError").
Proof.
  split; [reflexivity | ].
  destruct (launcher_stops_before_run json_names [] [] (fun _ => inl EmptyString)
              no_flags checked_out_world) as (Hr & _ & Hquiet).
  split; [exact (Hquiet eq_refl) | exact Hr].
Defined.
